(** * imagegenieai: edit history, credit ledger and AI gateway

    A shallow embedding of the editor state machine of [App.tsx], the
    ledger client of [services/userService.ts], the response handling of
    [services/geminiService.ts] and the generator form of
    [components/ImageGenerator.tsx], with the properties of the
    specification stated over it.

    Conventions.  A JavaScript string is a [string]: a sequence of code
    units below 256 (data URLs, base64 text and the binary strings that
    [atob] returns all live there).  A JavaScript integer number is a [Z].
    An ISO timestamp is the [Z] of its milliseconds ([toISOString] and
    [new Date(_).getTime()] are inverse to each other).  A rejected promise or
    a thrown [Error] is [Throws message]; React state and the remote stores
    are threaded explicitly. *)

From Stdlib Require Import ZArith NArith String Ascii List Bool Lia DecimalString.
From stdpp Require Import base option list gmap strings sorting.

Local Open Scope string_scope.
Local Open Scope Z_scope.

(** ** Host primitives (ECMAScript and the browser) *)

Module Js.

Definition code (c : ascii) : N := N_of_ascii c.

(** Template-literal rendering of an integer number. *)
Definition showZ (z : Z) : string := NilZero.string_of_int (Z.to_int z).

(** [Array.prototype.slice(0, e)]: a negative end counts from the back,
    and the end is clamped to the length. *)
Definition slice0 {A : Type} (l : list A) (e : Z) : list A :=
  let len := Z.of_nat (length l) in
  let final := if e <? 0 then Z.max (len + e) 0 else Z.min e len in
  take (Z.to_nat final) l.

(** [arr[i]]: [undefined] outside the array, also for a negative index. *)
Definition index {A : Type} (l : list A) (i : Z) : option A :=
  if i <? 0 then None else l !! Z.to_nat i.

(** [String.prototype.split] with a one-character separator. *)
Fixpoint split (sep : ascii) (s : string) : list string :=
  match s with
  | EmptyString => [EmptyString]
  | String c rest =>
      if Ascii.eqb c sep then EmptyString :: split sep rest
      else match split sep rest with
           | h :: t => String c h :: t
           | [] => [String c EmptyString]
           end
  end.

(** Line terminators: the characters the regular-expression dot refuses. *)
Definition isLineTerminator (c : ascii) : bool :=
  (code c =? 10)%N || (code c =? 13)%N.

(** The tail [(.*?);] of the pattern, tried right after a colon: the lazy
    star stops at the first semicolon and cannot cross a line terminator.
    The result is capture group 1. *)
Fixpoint lazy_until_semicolon (s : string) : option string :=
  match s with
  | EmptyString => None
  | String c rest =>
      if Ascii.eqb c ";" then Some EmptyString
      else if isLineTerminator c then None
      else String c <$> lazy_until_semicolon rest
  end.

(** [s.match(/:(.*?);/)], reduced to its capture group 1: the leftmost
    start position that matches wins; [None] is the [null] result. *)
Fixpoint match_colon_semicolon (s : string) : option string :=
  match s with
  | EmptyString => None
  | String c rest =>
      if Ascii.eqb c ":" then
        match lazy_until_semicolon rest with
        | Some g => Some g
        | None => match_colon_semicolon rest
        end
      else match_colon_semicolon rest
  end.

(** White space of [String.prototype.trim] among the code units below 256:
    TAB, LF, VT, FF, CR, SPACE and NBSP. *)
Definition isWhiteSpace (c : ascii) : bool :=
  let n := code c in
  ((9 <=? n) && (n <=? 13) || (n =? 32) || (n =? 160))%N.

Fixpoint trimStart (s : string) : string :=
  match s with
  | String c rest => if isWhiteSpace c then trimStart rest else s
  | EmptyString => EmptyString
  end.

(** [trimEnd], written as a right fold: a character is dropped when it is
    white space and everything after it has been dropped. *)
Fixpoint trimEnd (s : string) : string :=
  match s with
  | EmptyString => EmptyString
  | String c rest =>
      match trimEnd rest with
      | EmptyString => if isWhiteSpace c then EmptyString else String c EmptyString
      | r => String c r
      end
  end.

Definition trim (s : string) : string := trimEnd (trimStart s).

(** Truthiness of a string: the empty string is falsy. *)
Definition truthy (s : string) : bool :=
  match s with EmptyString => false | _ => true end.

(** [String.prototype.toLowerCase] on code units below 256. *)
Definition lowerChar (c : ascii) : ascii :=
  let n := code c in
  if ((65 <=? n) && (n <=? 90) || (192 <=? n) && (n <=? 222) && negb (n =? 215))%N
  then ascii_of_N (n + 32) else c.

Fixpoint toLowerCase (s : string) : string :=
  match s with
  | EmptyString => EmptyString
  | String c rest => String (lowerChar c) (toLowerCase rest)
  end.

(** *** [atob]: the forgiving base64 decoder of the HTML standard *)

(** ASCII white space, removed before decoding: TAB, LF, FF, CR, SPACE. *)
Definition isAsciiWhitespace (c : ascii) : bool :=
  let n := code c in
  ((n =? 9) || (n =? 10) || (n =? 12) || (n =? 13) || (n =? 32))%N.

Definition sextet (c : ascii) : option N :=
  let n := code c in
  if ((65 <=? n) && (n <=? 90))%N then Some (n - 65)%N
  else if ((97 <=? n) && (n <=? 122))%N then Some (n - 71)%N
  else if ((48 <=? n) && (n <=? 57))%N then Some (n + 4)%N
  else if (n =? 43)%N then Some 62%N
  else if (n =? 47)%N then Some 63%N
  else None.

Definition stripWhitespace (l : list ascii) : list ascii :=
  filter (fun c => isAsciiWhitespace c = false) l.

(** When the length is a multiple of four, one or two trailing [=] are
    removed.  The list is handled back to front. *)
Definition stripPadding (l : list ascii) : list ascii :=
  if (length l mod 4 =? 0)%nat then
    match rev l with
    | "="%char :: "="%char :: r => rev r
    | "="%char :: r => rev r
    | _ => l
    end
  else l.

Definition byte3 (v : N) : list ascii :=
  [ascii_of_N (N.land (N.shiftr v 16) 255);
   ascii_of_N (N.land (N.shiftr v 8) 255);
   ascii_of_N (N.land v 255)].

Fixpoint decodeSextets (l : list N) : list ascii :=
  match l with
  | a :: b :: c :: d :: rest =>
      byte3 (N.lor (N.shiftl a 18) (N.lor (N.shiftl b 12) (N.lor (N.shiftl c 6) d)))
        ++ decodeSextets rest
  | [a; b; c] =>
      let v := N.shiftr (N.lor (N.shiftl a 12) (N.lor (N.shiftl b 6) c)) 2 in
      [ascii_of_N (N.land (N.shiftr v 8) 255); ascii_of_N (N.land v 255)]
  | [a; b] =>
      let v := N.shiftr (N.lor (N.shiftl a 6) b) 4 in
      [ascii_of_N (N.land v 255)]
  | _ => []
  end.

(** [None] is the [InvalidCharacterError] that [atob] throws. *)
Definition atob (s : string) : option string :=
  let data := stripPadding (stripWhitespace (list_ascii_of_string s)) in
  if (length data mod 4 =? 1)%nat then None
  else string_of_list_ascii <$> (decodeSextets <$> mapM sextet data).

(** The message of the [InvalidCharacterError] that [atob] throws.  The text
    belongs to the host; this is the one of Node.js. *)
Definition invalidCharacterError : string :=
  "The string to be decoded is not correctly encoded.".

(** *** The [type] of a [File]

    [new File(bits, name, { type })], as the File API has it: a type with a
    character outside U+0020..U+007E becomes the empty string; otherwise
    every character is converted to ASCII lower case. *)

Definition isPrintableAscii (c : ascii) : bool :=
  let n := code c in ((32 <=? n) && (n <=? 126))%N.

Fixpoint allPrintableAscii (s : string) : bool :=
  match s with
  | EmptyString => true
  | String c rest => isPrintableAscii c && allPrintableAscii rest
  end.

Definition asciiLowerChar (c : ascii) : ascii :=
  let n := code c in
  if ((65 <=? n) && (n <=? 90))%N then ascii_of_N (n + 32) else c.

Fixpoint asciiLowercase (s : string) : string :=
  match s with
  | EmptyString => EmptyString
  | String c rest => String (asciiLowerChar c) (asciiLowercase rest)
  end.

Definition fileType (t : string) : string :=
  if allPrintableAscii t then asciiLowercase t else EmptyString.

(** [String.prototype.endsWith]: some tail of [s] is [suffix]. *)
Fixpoint endsWith (suffix s : string) : bool :=
  String.eqb s suffix
  || match s with
     | EmptyString => false
     | String _ rest => endsWith suffix rest
     end.

End Js.

(** ** Asynchronous computations

    An [async] function runs over a state and either returns or throws; what
    it wrote to the state before throwing stays written. *)

Inductive outcome (A : Type) : Type :=
  | Returns (a : A)
  | Throws (message : string).
Arguments Returns {A} a.
Arguments Throws {A} message.

Definition Async (S A : Type) : Type := S -> outcome A * S.

Module Async.

Definition ret {S A : Type} (a : A) : Async S A := fun s => (Returns a, s).

Definition bind {S A B : Type} (m : Async S A) (k : A -> Async S B) : Async S B :=
  fun s =>
    match m s with
    | (Returns a, s') => k a s'
    | (Throws e, s') => (Throws e, s')
    end.

Definition throw {S A : Type} (message : string) : Async S A :=
  fun s => (Throws message, s).

Definition get {S : Type} : Async S S := fun s => (Returns s, s).

Definition modify {S : Type} (f : S -> S) : Async S unit :=
  fun s => (Returns tt, f s).

(** [try { body } catch (err) { handler(err.message) }] *)
Definition try_catch {S A : Type} (body : Async S A) (handler : string -> Async S A)
  : Async S A :=
  fun s =>
    match body s with
    | (Returns a, s') => (Returns a, s')
    | (Throws e, s') => handler e s'
    end.

(** [try { body } finally { cleanup }] *)
Definition finally {S A : Type} (body : Async S A) (cleanup : Async S unit)
  : Async S A :=
  fun s =>
    match body s with
    | (r, s') =>
        match cleanup s' with
        | (Returns _, s'') => (r, s'')
        | (Throws e, s'') => (Throws e, s'')
        end
    end.

(** A synchronous result inside an asynchronous function. *)
Definition of_outcome {S A : Type} (r : outcome A) : Async S A := fun s => (r, s).

Definition result {S A : Type} (m : Async S A) (s : S) : outcome A := fst (m s).
Definition exec {S A : Type} (m : Async S A) (s : S) : S := snd (m s).

End Async.

#[global] Instance Async_ret (S : Type) : MRet (Async S) := @Async.ret S.
#[global] Instance Async_bind (S : Type) : MBind (Async S) :=
  fun A B k m => Async.bind m k.

(** ** Data model *)

Module CreditTransaction.
Record t : Type := mk {
  reason : string;
  amount : Z;   (* positive for additions, negative for deductions *)
  date : Z      (* milliseconds of the ISO string *)
}.
#[global] Instance eq_dec : EqDecision t.
Proof. solve_decision. Defined.
End CreditTransaction.

Module User.
Record t : Type := mk {
  uid : string;
  name : string;
  email : string;
  credits : Z;
  creditHistory : list CreditTransaction.t
}.
Definition with_credits (c : Z) (h : list CreditTransaction.t) (u : t) : t :=
  mk (uid u) (name u) (email u) c h.
(** [Partial<User>] as an update of a stored profile. *)
Record partial : Type := mkPartial {
  p_uid : option string;
  p_name : option string;
  p_email : option string;
  p_credits : option Z;
  p_creditHistory : option (list CreditTransaction.t)
}.
Definition update (u : t) (p : partial) : t :=
  mk (default (uid u) (p_uid p)) (default (name u) (p_name p))
     (default (email u) (p_email p)) (default (credits u) (p_credits p))
     (default (creditHistory u) (p_creditHistory p)).
End User.

(** A [File]: its bytes, its [name] and its [type]. *)
Module File.
Record t : Type := mk {
  bits : list Byte.byte;
  name : string;
  type : string
}.
End File.

(** [GeneratedImage] of [GalleryScreen.tsx]. *)
Module GeneratedImage.
Record t : Type := mk {
  id : string;
  url : string;
  prompt : string;
  isUpscaled : bool;
  createdAt : Z
}.
End GeneratedImage.

(** A stored gallery document: [Omit<GeneratedImage, 'id'>]; the id is the
    key of the document. *)
Module GalleryDoc.
Record t : Type := mk {
  url : string;
  prompt : string;
  isUpscaled : bool;
  createdAt : Z
}.
(** [Partial<GeneratedImage>] as an update of a stored document. *)
Record partial : Type := mkPartial {
  p_url : option string;
  p_prompt : option string;
  p_isUpscaled : option bool;
  p_createdAt : option Z
}.
Definition update (d : t) (p : partial) : t :=
  mk (default (url d) (p_url p)) (default (prompt d) (p_prompt p))
     (default (isUpscaled d) (p_isUpscaled p)) (default (createdAt d) (p_createdAt p)).
(** [{ id: doc.id, ...doc.data() }] *)
Definition with_id (i : string) (d : t) : GeneratedImage.t :=
  GeneratedImage.mk i (url d) (prompt d) (isUpscaled d) (createdAt d).
(** The data of an entry, without its id. *)
Definition of_image (g : GeneratedImage.t) : t :=
  mk (GeneratedImage.url g) (GeneratedImage.prompt g)
     (GeneratedImage.isUpscaled g) (GeneratedImage.createdAt g).
End GalleryDoc.

(** ** The remote collaborators: document store, blob store, clock *)

Module World.
Record t : Type := mk {
  users : gmap string User.t;                       (* users/{uid} *)
  gallery : gmap (string * string) GalleryDoc.t;    (* users/{uid}/gallery/{id} *)
  storage : gmap string File.t;                     (* blob store, by path *)
  downloadURL : string -> string;                   (* URL the blob store gives a path *)
  now : Z;                                          (* the host clock *)
  outages : list bool                               (* per remote call: does it fail? *)
}.

Definition set_users (v : gmap string User.t) (w : t) : t :=
  mk v (gallery w) (storage w) (downloadURL w) (now w) (outages w).
Definition set_gallery (v : gmap (string * string) GalleryDoc.t) (w : t) : t :=
  mk (users w) v (storage w) (downloadURL w) (now w) (outages w).
Definition set_storage (v : gmap string File.t) (w : t) : t :=
  mk (users w) (gallery w) v (downloadURL w) (now w) (outages w).
Definition set_outages (v : list bool) (w : t) : t :=
  mk (users w) (gallery w) (storage w) (downloadURL w) (now w) v.

(** One round trip to a remote service: the next entry of [outages] says
    whether it fails; with no entry left it goes through. *)
Definition remote (what : string) : Async t unit :=
  fun w =>
    match outages w with
    | true :: rest => (Throws (what ++ ": service unavailable")%string, set_outages rest w)
    | false :: rest => (Returns tt, set_outages rest w)
    | [] => (Returns tt, w)
    end.
End World.

(** ** services/userService.ts *)

Module userService.

Import Async.

(** The part of [firebase.User] that the service reads. *)
Record AuthUser : Type := mkAuthUser { auth_uid : string; auth_email : string }.

(** The profile that [createUserProfile] builds. *)
Definition newUser (userAuth : AuthUser) (name : string) (today : Z) : User.t :=
  User.mk (auth_uid userAuth) name (auth_email userAuth) 25
    [CreditTransaction.mk "Sign-up bonus" 25 today].

Definition createUserProfile (userAuth : AuthUser) (name : string) : Async World.t unit :=
  w ← get;
  let newUser := newUser userAuth name (World.now w) in
  World.remote "set" ;;
  modify (fun w => World.set_users (<[auth_uid userAuth := newUser]> (World.users w)) w).

(** [creditHistory.sort((a, b) => time(b) - time(a))]: newest first, and
    stable, as [Array.prototype.sort] is. *)
Fixpoint insertNewestFirst (a : CreditTransaction.t) (l : list CreditTransaction.t)
  : list CreditTransaction.t :=
  match l with
  | [] => [a]
  | b :: rest =>
      if CreditTransaction.date a <? CreditTransaction.date b
      then b :: insertNewestFirst a rest
      else a :: b :: rest
  end.

Definition sortNewestFirst (l : list CreditTransaction.t) : list CreditTransaction.t :=
  foldr insertNewestFirst [] l.

Definition getUserProfile (uid : string) : Async World.t (option User.t) :=
  World.remote "get" ;;
  w ← get;
  match World.users w !! uid with
  | Some user =>
      mret (Some (User.with_credits (User.credits user)
                    (sortNewestFirst (User.creditHistory user)) user))
  | None => mret None
  end.

(** [FieldValue.arrayUnion]: the element is added unless it is there. *)
Definition arrayUnion (l : list CreditTransaction.t) (a : CreditTransaction.t)
  : list CreditTransaction.t :=
  if decide (a ∈ l) then l else l ++ [a].

(** [userRef.update] rejects when the document does not exist. *)
Definition updateUserCredits (uid : string) (amount : Z) (reason : string)
  : Async World.t (option User.t) :=
  w ← get;
  let newTransaction := CreditTransaction.mk reason amount (World.now w) in
  World.remote "update" ;;
  w ← get;
  match World.users w !! uid with
  | None => throw "No document to update"
  | Some user =>
      modify (World.set_users
                (<[uid := User.with_credits (User.credits user + amount)
                            (arrayUnion (User.creditHistory user) newTransaction) user]>
                   (World.users w))) ;;
      getUserProfile uid
  end.

(** [fileName || file.name] *)
Definition orName (fileName : option string) (file : File.t) : string :=
  match fileName with
  | Some n => if Js.truthy n then n else File.name file
  | None => File.name file
  end.

Definition uploadImage (uid : string) (file : File.t) (fileName : option string)
  : Async World.t string :=
  let filePath := "users/" ++ uid ++ "/generated/" ++ orName fileName file in
  World.remote "put" ;;
  modify (fun w => World.set_storage (<[filePath := file]> (World.storage w)) w) ;;
  World.remote "getDownloadURL" ;;
  w ← get;
  mret (World.downloadURL w filePath).

(** [docId] is the identifier the store generates for the new document. *)
Definition addImageToGallery (uid : string) (imageData : GalleryDoc.t) (docId : string)
  : Async World.t GeneratedImage.t :=
  World.remote "add" ;;
  modify (fun w => World.set_gallery (<[(uid, docId) := imageData]> (World.gallery w)) w) ;;
  mret (GalleryDoc.with_id docId imageData).

(** [imageDocRef.update] rejects when the document does not exist; the
    document read back afterwards is the one just written. *)
Definition updateGalleryImage (uid imageId : string) (data : GalleryDoc.partial)
  : Async World.t GeneratedImage.t :=
  World.remote "update" ;;
  w ← get;
  match World.gallery w !! (uid, imageId) with
  | None => throw "No document to update"
  | Some doc =>
      modify (World.set_gallery
                (<[(uid, imageId) := GalleryDoc.update doc data]> (World.gallery w))) ;;
      World.remote "get" ;;
      w ← get;
      match World.gallery w !! (uid, imageId) with
      | Some updatedDoc => mret (GalleryDoc.with_id imageId updatedDoc)
      | None => throw "No document to read"
      end
  end.

(** Updates a user's profile data: [userRef.update(data)] rejects when the
    document does not exist. *)
Definition updateUserProfile (uid : string) (data : User.partial)
  : Async World.t (option User.t) :=
  World.remote "update" ;;
  w ← get;
  match World.users w !! uid with
  | None => throw "No document to update"
  | Some user =>
      modify (World.set_users (<[uid := User.update user data]> (World.users w))) ;;
      getUserProfile uid
  end.

(** The order of the query [orderBy('createdAt', 'desc')]: [a] comes before
    [b] when it is newer; the store orders entries of one timestamp by their
    document id, in the same direction. *)
Definition before (a b : GeneratedImage.t) : bool :=
  (GeneratedImage.createdAt b <? GeneratedImage.createdAt a)
  || ((GeneratedImage.createdAt a =? GeneratedImage.createdAt b)
      && String.ltb (GeneratedImage.id b) (GeneratedImage.id a)).

Fixpoint insertEntry (a : GeneratedImage.t) (l : list GeneratedImage.t)
  : list GeneratedImage.t :=
  match l with
  | [] => [a]
  | b :: rest => if before b a then b :: insertEntry a rest else a :: b :: rest
  end.

(** The documents of [users/{uid}/gallery], each as [{ id: doc.id, ...doc.data() }]. *)
Definition galleryDocs (uid : string) (w : World.t) : list GeneratedImage.t :=
  omap (fun entry : string * string * GalleryDoc.t =>
          if String.eqb entry.1.1 uid
          then Some (GalleryDoc.with_id entry.1.2 entry.2) else None)
       (map_to_list (World.gallery w)).

(** Retrieves all gallery images for a user. *)
Definition getGalleryImages (uid : string) : Async World.t (list GeneratedImage.t) :=
  World.remote "get" ;;
  w ← get;
  mret (foldr insertEntry [] (galleryDocs uid w)).

End userService.

(** ** services/geminiService.ts *)

Module geminiService.

(** The fields of [GenerateContentResponse] that the service reads; each
    optional field is an [option]. *)
Record InlineData : Type := mkInlineData {
  mimeType : option string;
  data : option string
}.
Record Part : Type := mkPart {
  inlineData : option InlineData;
  part_text : option string
}.
Record Content : Type := mkContent { parts : option (list Part) }.
Record Candidate : Type := mkCandidate {
  content : option Content;
  finishReason : option string
}.
Record PromptFeedback : Type := mkPromptFeedback {
  blockReason : option string;
  blockReasonMessage : option string
}.
Record GenerateContentResponse : Type := mkResponse {
  promptFeedback : option PromptFeedback;
  candidates : option (list Candidate);
  text : option string
}.

(** A string-valued optional field in a test position: [undefined] and the
    empty string are falsy. *)
Definition truthyField (o : option string) : bool :=
  match o with Some s => Js.truthy s | None => false end.

(** [`${v}`] of an optional string. *)
Definition render (o : option string) : string := default "undefined" o.

(** [v || ''] *)
Definition orEmpty (o : option string) : string :=
  match o with Some s => s | None => "" end.

Definition dquote : string := String "034"%char EmptyString.

(** [response.candidates?.[0]] *)
Definition firstCandidate (response : GenerateContentResponse) : option Candidate :=
  candidates response ≫= head.

(** [response.candidates?.[0]?.content?.parts?.find(part => part.inlineData)] *)
Definition imagePart (response : GenerateContentResponse) : option Part :=
  candidate ← firstCandidate response;
  content ← content candidate;
  parts ← parts content;
  List.find (fun part => bool_decide (is_Some (inlineData part))) parts.

Definition handleApiResponse (response : GenerateContentResponse) (context : string)
  : outcome string :=
  (* 1. Check for prompt blocking first *)
  if truthyField (promptFeedback response ≫= blockReason) then
    Throws ("Request was blocked. Reason: "
              ++ render (promptFeedback response ≫= blockReason) ++ ". "
              ++ orEmpty (promptFeedback response ≫= blockReasonMessage))
  else
    (* 2. Try to find the image part *)
    match imagePart response ≫= inlineData with
    | Some i =>
        Returns ("data:" ++ render (mimeType i) ++ ";base64," ++ render (data i))
    | None =>
        (* 3. If no image, check for other reasons *)
        let finishReason := firstCandidate response ≫= finishReason in
        if truthyField finishReason && negb (String.eqb (render finishReason) "STOP") then
          Throws ("Image generation for " ++ context ++ " stopped unexpectedly. Reason: "
                    ++ render finishReason ++ ". This often relates to safety settings.")
        else
          let textFeedback := Js.trim <$> text response in
          Throws ("The AI model did not return an image for the " ++ context ++ ". "
                    ++ (if truthyField textFeedback
                        then "The model responded with text: " ++ dquote
                               ++ render textFeedback ++ dquote
                        else "This can happen due to safety filters or if the request is too complex. Please try rephrasing your prompt to be more direct."))
    end.

(** The Gemini [Part] made of a data URL. *)
Definition dataUrlToPart (dataUrl : string) : outcome InlineData :=
  let arr := Js.split "," dataUrl in
  if (length arr <? 2)%nat then Throws "Invalid data URL"
  else
    match Js.match_colon_semicolon (default "" (arr !! 0%nat)) with
    | None => Throws "Could not parse MIME type from data URL"
    | Some m =>
        if negb (Js.truthy m) then Throws "Could not parse MIME type from data URL"
        else Returns (mkInlineData (Some m) (arr !! 1%nat))
    end.

(** The fields of the [generateImages] response that the service reads. *)
Record Image : Type := mkImage { imageBytes : option string }.
Record GeneratedImage : Type := mkGeneratedImage { image : option Image }.
Record GenerateImagesResponse : Type := mkImagesResponse {
  generatedImages : option (list GeneratedImage)
}.

(** The body of the [try] of [generateImage], after the remote call. *)
Definition generateImage_body (response : GenerateImagesResponse) : outcome string :=
  let noImage :=
    Throws "The AI model did not return an image. This might be due to safety filters or an issue with the prompt. Please try a different prompt." in
  match generatedImages response with
  | Some (first :: _) =>
      match image first with
      | None => Throws "Cannot read properties of undefined (reading 'imageBytes')"
      | Some img =>
          if truthyField (imageBytes img)
          then Returns ("data:image/jpeg;base64," ++ render (imageBytes img))
          else noImage
      end
  | _ => noImage
  end.

(** [generateImage]; [reply] is what [ai.models.generateImages] resolves or
    rejects with.  Every failure is thrown again with a prefix. *)
Definition generateImage (reply : outcome GenerateImagesResponse) : outcome string :=
  let attempt :=
    match reply with
    | Returns response => generateImage_body response
    | Throws e => Throws e
    end in
  match attempt with
  | Returns url => Returns url
  | Throws errorMessage => Throws ("Failed to generate image. " ++ errorMessage)
  end.

(** [upscaleImage]; [reply] is what [ai.models.generateContent] resolves or
    rejects with.  The conversion of the URL happens before the [try]. *)
Definition upscaleImage (originalImageUrl : string)
           (reply : outcome GenerateContentResponse) : outcome string :=
  match dataUrlToPart originalImageUrl with
  | Throws e => Throws e
  | Returns originalImagePart =>
      let attempt :=
        match reply with
        | Returns response => handleApiResponse response "upscale"
        | Throws e => Throws e
        end in
      match attempt with
      | Returns url => Returns url
      | Throws errorMessage => Throws ("Failed to upscale image. " ++ errorMessage)
      end
  end.

(** The body of the [try] of [improvePrompt], after the remote call:
    [response.text.trim()] throws when the response has no text. *)
Definition improvePrompt_body (response : GenerateContentResponse) : outcome string :=
  match text response with
  | None => Throws "Cannot read properties of undefined (reading 'trim')"
  | Some t =>
      let improvedText := Js.trim t in
      if negb (Js.truthy improvedText)
      then Throws "The AI model did not return an improved prompt."
      else Returns improvedText
  end.

(** [improvePrompt]; [reply] is what [ai.models.generateContent] resolves or
    rejects with.  Every failure is thrown again with a prefix. *)
Definition improvePrompt (reply : outcome GenerateContentResponse) : outcome string :=
  let attempt :=
    match reply with
    | Returns response => improvePrompt_body response
    | Throws e => Throws e
    end in
  match attempt with
  | Returns improvedText => Returns improvedText
  | Throws errorMessage => Throws ("Failed to improve prompt. " ++ errorMessage)
  end.

End geminiService.

(** ** The state cells of the components

    Each [useState] cell of [App] is a field; [with_x v] is the state after
    [setX(v)]. *)

Module Tab.
Inductive t : Type := promptEdit | localEdit | filters | crop.
End Tab.

Module AppMode.
Inductive t : Type := start | editor | generator | account | pricing | gallery.
End AppMode.

Module AppState.

(** A point, in image or in display pixels. *)
Record Hotspot : Type := mkHotspot { x : Z; y : Z }.

(** A crop rectangle ([Crop] and [PixelCrop] of react-image-crop). *)
Record Crop : Type := mkCrop { crop_x : Z; crop_y : Z; width : Z; height : Z }.

Record t : Type := mk {
  currentUser : option User.t;
  appMode : AppMode.t;
  history : list File.t;
  historyIndex : Z;
  prompt : string;
  isLoading : bool;
  error : option string;
  editHotspot : option Hotspot;
  displayHotspot : option Hotspot;
  activeTab : Tab.t;
  crop : option Crop;
  completedCrop : option Crop;
  allGeneratedImages : list GeneratedImage.t
}.

Definition with_currentUser (v : option User.t) (s : t) : t :=
  mk v (appMode s) (history s) (historyIndex s) (prompt s) (isLoading s) (error s) (editHotspot s) (displayHotspot s) (activeTab s) (crop s) (completedCrop s) (allGeneratedImages s).
Definition with_appMode (v : AppMode.t) (s : t) : t :=
  mk (currentUser s) v (history s) (historyIndex s) (prompt s) (isLoading s) (error s) (editHotspot s) (displayHotspot s) (activeTab s) (crop s) (completedCrop s) (allGeneratedImages s).
Definition with_history (v : list File.t) (s : t) : t :=
  mk (currentUser s) (appMode s) v (historyIndex s) (prompt s) (isLoading s) (error s) (editHotspot s) (displayHotspot s) (activeTab s) (crop s) (completedCrop s) (allGeneratedImages s).
Definition with_historyIndex (v : Z) (s : t) : t :=
  mk (currentUser s) (appMode s) (history s) v (prompt s) (isLoading s) (error s) (editHotspot s) (displayHotspot s) (activeTab s) (crop s) (completedCrop s) (allGeneratedImages s).
Definition with_prompt (v : string) (s : t) : t :=
  mk (currentUser s) (appMode s) (history s) (historyIndex s) v (isLoading s) (error s) (editHotspot s) (displayHotspot s) (activeTab s) (crop s) (completedCrop s) (allGeneratedImages s).
Definition with_isLoading (v : bool) (s : t) : t :=
  mk (currentUser s) (appMode s) (history s) (historyIndex s) (prompt s) v (error s) (editHotspot s) (displayHotspot s) (activeTab s) (crop s) (completedCrop s) (allGeneratedImages s).
Definition with_error (v : option string) (s : t) : t :=
  mk (currentUser s) (appMode s) (history s) (historyIndex s) (prompt s) (isLoading s) v (editHotspot s) (displayHotspot s) (activeTab s) (crop s) (completedCrop s) (allGeneratedImages s).
Definition with_editHotspot (v : option Hotspot) (s : t) : t :=
  mk (currentUser s) (appMode s) (history s) (historyIndex s) (prompt s) (isLoading s) (error s) v (displayHotspot s) (activeTab s) (crop s) (completedCrop s) (allGeneratedImages s).
Definition with_displayHotspot (v : option Hotspot) (s : t) : t :=
  mk (currentUser s) (appMode s) (history s) (historyIndex s) (prompt s) (isLoading s) (error s) (editHotspot s) v (activeTab s) (crop s) (completedCrop s) (allGeneratedImages s).
Definition with_activeTab (v : Tab.t) (s : t) : t :=
  mk (currentUser s) (appMode s) (history s) (historyIndex s) (prompt s) (isLoading s) (error s) (editHotspot s) (displayHotspot s) v (crop s) (completedCrop s) (allGeneratedImages s).
Definition with_crop (v : option Crop) (s : t) : t :=
  mk (currentUser s) (appMode s) (history s) (historyIndex s) (prompt s) (isLoading s) (error s) (editHotspot s) (displayHotspot s) (activeTab s) v (completedCrop s) (allGeneratedImages s).
Definition with_completedCrop (v : option Crop) (s : t) : t :=
  mk (currentUser s) (appMode s) (history s) (historyIndex s) (prompt s) (isLoading s) (error s) (editHotspot s) (displayHotspot s) (activeTab s) (crop s) v (allGeneratedImages s).
Definition with_allGeneratedImages (v : list GeneratedImage.t) (s : t) : t :=
  mk (currentUser s) (appMode s) (history s) (historyIndex s) (prompt s) (isLoading s) (error s) (editHotspot s) (displayHotspot s) (activeTab s) (crop s) (completedCrop s) v.

(** The state [App] mounts with. *)
Definition initial : t :=
  mk None AppMode.start [] (-1) "" false None None None Tab.promptEdit None None [].

(** [history[historyIndex] ?? null] and [history[0] ?? null] *)
Definition currentImage (s : t) : option File.t := Js.index (history s) (historyIndex s).
Definition originalImage (s : t) : option File.t := Js.index (history s) 0.

Definition canUndo (s : t) : bool := 0 <? historyIndex s.
Definition canRedo (s : t) : bool := historyIndex s <? Z.of_nat (length (history s)) - 1.

End AppState.

(** The cells of [ImageGenerator] that its [handleGenerate] touches. *)
Module GeneratorState.
Record t : Type := mk {
  prompt : string;
  isLoading : bool;
  error : option string
}.
Definition with_isLoading (v : bool) (s : t) : t := mk (prompt s) v (error s).
Definition with_error (v : option string) (s : t) : t := mk (prompt s) (isLoading s) v.
Definition with_prompt (v : string) (s : t) : t := mk v (isLoading s) (error s).
End GeneratorState.

(** One browser session: the two components and what they talk to. *)
Module Session.
Record t : Type := mk {
  app : AppState.t;
  form : GeneratorState.t;
  world : World.t
}.
Definition with_app (f : AppState.t -> AppState.t) (s : t) : t :=
  mk (f (app s)) (form s) (world s).
Definition with_form (f : GeneratorState.t -> GeneratorState.t) (s : t) : t :=
  mk (app s) (f (form s)) (world s).

(** A call into a service runs on the [world] component. *)
Definition call {A : Type} (m : Async World.t A) : Async t A :=
  fun s => match m (world s) with (r, w) => (r, mk (app s) (form s) w) end.

(** [Date.now()] *)
Definition dateNow : Async t Z := fun s => (Returns (World.now (world s)), s).
End Session.

(** The session with the two cells of [App] that track the sign-in. *)
Module Shell.
(** The fields of [firebase.User] that [App] reads. *)
Record Identity : Type := mkIdentity { uid : string; emailVerified : bool }.
Record t : Type := mk {
  authUser : option Identity;
  authLoading : bool;
  session : Session.t
}.
(** [App] mounts with [authLoading] set. *)
Definition initial (s : Session.t) : t := mk None true s.
Definition with_authUser (v : option Identity) (sh : t) : t :=
  mk v (authLoading sh) (session sh).
Definition with_authLoading (v : bool) (sh : t) : t := mk (authUser sh) v (session sh).
(** A computation of the session, run inside the shell. *)
Definition lift {A : Type} (m : Async Session.t A) : Async t A :=
  fun sh => match m (session sh) with (r, s) => (r, mk (authUser sh) (authLoading sh) s) end.
End Shell.

(** ** App.tsx *)

Module App.

Import Async.

(** [n] rounds of [while (n--) u8arr[n] = bstr.charCodeAt(n)]. *)
Fixpoint fillBytes (bstr : string) (n : nat) (u8arr : list Byte.byte) : list Byte.byte :=
  match n with
  | O => u8arr
  | S n' =>
      fillBytes bstr n'
        (<[n' := byte_of_ascii (default Ascii.zero (String.get n' bstr))]> u8arr)
  end.

(** Helper to convert a data URL string to a File object. *)
Definition dataURLtoFile (dataurl filename : string) : outcome File.t :=
  let arr := Js.split "," dataurl in
  if (length arr <? 2)%nat then Throws "Invalid data URL"
  else
    match Js.match_colon_semicolon (default "" (arr !! 0%nat)) with
    | None => Throws "Could not parse MIME type from data URL"
    | Some mime =>
        if negb (Js.truthy mime) then Throws "Could not parse MIME type from data URL"
        else
          match Js.atob (default "" (arr !! 1%nat)) with
          | None => Throws Js.invalidCharacterError
          | Some bstr =>
              let n := String.length bstr in
              let u8arr := fillBytes bstr n (replicate n Byte.x00) in
              (* new File([u8arr], filename, { type: mime }) *)
              Returns (File.mk u8arr filename (Js.fileType mime))
          end
    end.

(** *** The setters of the state cells *)

Definition set (f : AppState.t -> AppState.t) : Async Session.t unit :=
  modify (Session.with_app f).

Definition setCurrentUser v := set (AppState.with_currentUser v).
Definition setAppMode v := set (AppState.with_appMode v).
Definition setHistory v := set (AppState.with_history v).
Definition setHistoryIndex v := set (AppState.with_historyIndex v).
Definition setPrompt v := set (AppState.with_prompt v).
Definition setIsLoading v := set (AppState.with_isLoading v).
Definition setError v := set (AppState.with_error v).
Definition setEditHotspot v := set (AppState.with_editHotspot v).
Definition setDisplayHotspot v := set (AppState.with_displayHotspot v).
Definition setActiveTab v := set (AppState.with_activeTab v).
Definition setCrop v := set (AppState.with_crop v).
Definition setCompletedCrop v := set (AppState.with_completedCrop v).
(** [setAllGeneratedImages(prev => f(prev))] *)
Definition setAllGeneratedImages (f : list GeneratedImage.t -> list GeneratedImage.t) :=
  set (fun s => AppState.with_allGeneratedImages (f (AppState.allGeneratedImages s)) s).

(** *** The handlers

    A handler closes over the state of the render it was created in.  The
    interaction layer runs one handler at a time, so that state is the one
    the handler starts in: [snap]. *)

Definition handleDeductCredits (amount : Z) (reason : string) : Async Session.t bool :=
  snap ← get;
  match AppState.currentUser (Session.app snap) with
  | None => mret false
  | Some currentUser =>
      if User.credits currentUser <? amount then
        setError (Some ("You need " ++ Js.showZ amount
                          ++ " credits for this action, but you only have "
                          ++ Js.showZ (User.credits currentUser)
                          ++ ". Please purchase more.")) ;;
        setAppMode AppMode.pricing ;;
        mret false
      else
        updatedUser ← Session.call
          (userService.updateUserCredits (User.uid currentUser) (- amount) reason);
        match updatedUser with
        | Some u => setCurrentUser (Some u) ;; mret true
        | None => mret false
        end
  end.

(** [snap] holds the [history] and [historyIndex] the callback closed over. *)
Definition addImageToHistory (snap : AppState.t) (newImageFile : File.t)
  : Async Session.t unit :=
  let newHistory :=
    (Js.slice0 (AppState.history snap) (AppState.historyIndex snap + 1)
       ++ [newImageFile])%list in
  setHistory newHistory ;;
  setHistoryIndex (Z.of_nat (length newHistory) - 1) ;;
  setCrop None ;;
  setCompletedCrop None.

Definition handleImageUpload (file : File.t) : Async Session.t unit :=
  setError None ;;
  setHistory [file] ;;
  setHistoryIndex 0 ;;
  setEditHotspot None ;;
  setDisplayHotspot None ;;
  setActiveTab Tab.promptEdit ;;
  setCrop None ;;
  setCompletedCrop None ;;
  setAppMode AppMode.editor.

(** [currentUser!.uid] *)
Definition uidOf (currentUser : option User.t) : Async Session.t string :=
  match currentUser with
  | Some u => mret (User.uid u)
  | None => throw "Cannot read properties of null (reading 'uid')"
  end.

(** [editFunction] is what the call [editFunction()] resolves or rejects
    with.  The result is [undefined] ([None]), [true] or [false]. *)
Definition handleGenericEdit (editFunction : outcome string) (cost : Z)
           (reason fileSuffix : string) : Async Session.t (option bool) :=
  snap ← get;
  match AppState.currentImage (Session.app snap) with
  | None => setError (Some "No image loaded to edit.") ;; mret None
  | Some _ =>
      deducted ← handleDeductCredits cost reason;
      if negb deducted then mret None
      else
        setIsLoading true ;;
        setError None ;;
        finally
          (try_catch
             (resultUrl ← of_outcome editFunction;
              now ← Session.dateNow;
              newImageFile ← of_outcome
                (dataURLtoFile resultUrl (fileSuffix ++ "-" ++ Js.showZ now ++ ".png"));
              addImageToHistory (Session.app snap) newImageFile ;;
              mret (Some true))
             (fun errorMessage =>
                setError (Some ("Failed to " ++ Js.toLowerCase reason ++ ". " ++ errorMessage)) ;;
                (* Re-add credits on failure *)
                uid ← uidOf (AppState.currentUser (Session.app snap));
                refundedUser ← Session.call
                  (userService.updateUserCredits uid cost ("Refund: " ++ reason));
                match refundedUser with
                | Some u => setCurrentUser (Some u)
                | None => mret tt
                end ;;
                mret (Some false)))
          (setIsLoading false)
  end.

(** The local edit.  [edited] is the outcome of [generateEditedImage]. *)
Definition handleGenerate (edited : outcome string) : Async Session.t unit :=
  snap ← get;
  let prompt := AppState.prompt (Session.app snap) in
  let editHotspot := AppState.editHotspot (Session.app snap) in
  if negb (Js.truthy (Js.trim prompt)) || negb (bool_decide (is_Some editHotspot)) then
    setError (Some (if negb (Js.truthy (Js.trim prompt))
                    then "Please enter a prompt."
                    else "Please select an area on the image."))
  else
    success ← handleGenericEdit edited 2 "AI Local Edit" "edited";
    match success with
    | Some true => setEditHotspot None ;; setDisplayHotspot None
    | _ => mret tt
    end.

(** [filtered] is the outcome of [generateFilteredImage]. *)
Definition handleApplyFilter (filtered : outcome string) : Async Session.t unit :=
  handleGenericEdit filtered 2 "AI Filter" "filtered" ;; mret tt.

(** [adjusted] is the outcome of [generateAdjustedImage]. *)
Definition handleApplyAdjustment (adjusted : outcome string) : Async Session.t unit :=
  handleGenericEdit adjusted 2 "AI Prompt Edit" "adjusted" ;; mret tt.

Definition handleUndo : Async Session.t unit :=
  snap ← get;
  if AppState.canUndo (Session.app snap) then
    setHistoryIndex (AppState.historyIndex (Session.app snap) - 1) ;;
    setEditHotspot None ;;
    setDisplayHotspot None
  else mret tt.

Definition handleRedo : Async Session.t unit :=
  snap ← get;
  if AppState.canRedo (Session.app snap) then
    setHistoryIndex (AppState.historyIndex (Session.app snap) + 1) ;;
    setEditHotspot None ;;
    setDisplayHotspot None
  else mret tt.

Definition handleReset : Async Session.t unit :=
  snap ← get;
  if (0 <? length (AppState.history (Session.app snap)))%nat then
    setHistoryIndex 0 ;;
    setError None ;;
    setEditHotspot None ;;
    setDisplayHotspot None
  else mret tt.

Definition handleGoHome : Async Session.t unit :=
  snap ← get;
  match AppState.currentUser (Session.app snap) with
  | None => mret tt
  | Some _ =>
      setHistory [] ;;
      setHistoryIndex (-1) ;;
      setError None ;;
      setPrompt "" ;;
      setEditHotspot None ;;
      setDisplayHotspot None ;;
      setAppMode AppMode.start
  end.

(** [docId] is the identifier the store gives the new gallery document. *)
Definition handleImageGenerated (imageDataUrl generationPrompt docId : string)
  : Async Session.t unit :=
  snap ← get;
  match AppState.currentUser (Session.app snap) with
  | None => mret tt
  | Some currentUser =>
      setIsLoading true ;;
      finally
        (try_catch
           (now ← Session.dateNow;
            imageFile ← of_outcome
              (dataURLtoFile imageDataUrl ("generated-" ++ Js.showZ now ++ ".jpeg"));
            downloadUrl ← Session.call
              (userService.uploadImage (User.uid currentUser) imageFile None);
            today ← Session.dateNow;
            let newImageData := GalleryDoc.mk downloadUrl generationPrompt false today in
            newImageWithId ← Session.call
              (userService.addImageToGallery (User.uid currentUser) newImageData docId);
            setAllGeneratedImages (fun prev => newImageWithId :: prev) ;;
            setAppMode AppMode.gallery)
           (fun errorMessage =>
              setError (Some ("Failed to save generated image. " ++ errorMessage))))
        (setIsLoading false)
  end.

(** [reply] is what the model call inside [upscaleImage] resolves or rejects
    with.  The result is [undefined] ([None]) or a gallery entry. *)
Definition handleUpscaleImage (image : GeneratedImage.t)
           (reply : outcome geminiService.GenerateContentResponse)
  : Async Session.t (option GeneratedImage.t) :=
  snap ← get;
  match AppState.currentUser (Session.app snap) with
  | None => mret None
  | Some currentUser =>
      let cost := 1 in
      let id := GeneratedImage.id image in
      deducted ← handleDeductCredits cost ("Upscale: " ++ id);
      if negb deducted then mret None
      else
        try_catch
          (upscaledUrl ← of_outcome
             (geminiService.upscaleImage (GeneratedImage.url image) reply);
           upscaledFile ← of_outcome
             (dataURLtoFile upscaledUrl ("upscaled-" ++ id ++ ".jpeg"));
           newDownloadUrl ← Session.call
             (userService.uploadImage (User.uid currentUser) upscaledFile
                (Some ("upscaled-" ++ id ++ ".jpeg")));
           updatedImage ← Session.call
             (userService.updateGalleryImage (User.uid currentUser) id
                (GalleryDoc.mkPartial (Some newDownloadUrl) None (Some true) None));
           setAllGeneratedImages
             (map (fun img => if String.eqb (GeneratedImage.id img) id
                              then updatedImage else img)) ;;
           mret (Some updatedImage))
          (fun errorMessage =>
             setError (Some ("Failed to upscale image. " ++ errorMessage)) ;;
             (* Refund credits on failure *)
             refundedUser ← Session.call
               (userService.updateUserCredits (User.uid currentUser) cost
                  ("Refund: Upscale " ++ id));
             match refundedUser with
             | Some u => setCurrentUser (Some u)
             | None => mret tt
             end ;;
             mret (Some image) (* return original *))
  end.

(** *** The handlers beside the guarded operations *)

(** The crop.  [imgRefCurrent] says whether the image element is mounted,
    [canvasContext] whether the canvas gave a 2d context, and
    [croppedImageUrl] is what [canvas.toDataURL('image/png')] returns after
    the drawing.  The conversion is not inside a [try]. *)
Definition handleApplyCrop (imgRefCurrent canvasContext : bool) (croppedImageUrl : string)
  : Async Session.t unit :=
  snap ← get;
  if negb (bool_decide (is_Some (AppState.completedCrop (Session.app snap))))
     || negb imgRefCurrent then
    setError (Some "Please select an area to crop.")
  else if negb canvasContext then
    setError (Some "Could not process the crop.")
  else
    now ← Session.dateNow;
    newImageFile ← of_outcome
      (dataURLtoFile croppedImageUrl ("cropped-" ++ Js.showZ now ++ ".png"));
    addImageToHistory (Session.app snap) newImageFile.

(** [files] is the [FileList], or [null]. *)
Definition handleFileSelect (files : option (list File.t)) : Async Session.t unit :=
  match files with
  | Some (file :: _) => handleImageUpload file
  | _ => mret tt
  end.

Definition handleUpdateUser (updatedData : User.partial) : Async Session.t unit :=
  snap ← get;
  match AppState.currentUser (Session.app snap) with
  | None => mret tt
  | Some currentUser =>
      updatedUser ← Session.call
        (userService.updateUserProfile (User.uid currentUser) updatedData);
      match updatedUser with
      | Some u => setCurrentUser (Some u)
      | None => mret tt
      end
  end.

Definition handlePurchaseCredits (creditAmount : Z) (reason : string)
  : Async Session.t unit :=
  snap ← get;
  match AppState.currentUser (Session.app snap) with
  | None => mret tt
  | Some currentUser =>
      updatedUser ← Session.call
        (userService.updateUserCredits (User.uid currentUser) creditAmount reason);
      match updatedUser with
      | Some u => setCurrentUser (Some u) ;; setAppMode AppMode.start (* Go home after purchase *)
      | None => mret tt
      end
  end.

(** The [onClick] of the Dismiss button of the error panel. *)
Definition dismissError : Async Session.t unit :=
  snap ← get;
  setError None ;;
  match AppState.appMode (Session.app snap) with
  | AppMode.editor => mret tt
  | _ => setAppMode AppMode.start
  end.

Definition setAuthUser v : Async Shell.t unit := modify (Shell.with_authUser v).
Definition setAuthLoading v : Async Shell.t unit := modify (Shell.with_authLoading v).

(** The listener given to [auth.onAuthStateChanged]; [user] is the identity
    it is called with, or [null]. *)
Definition onAuthStateChanged (user : option Shell.Identity) : Async Shell.t unit :=
  let signedOut :=
    setAuthUser None ;;
    Shell.lift (setCurrentUser None) ;;
    Shell.lift (setAllGeneratedImages (fun _ => [])) ;;
    Shell.lift (setHistory []) ;;
    Shell.lift (setHistoryIndex (-1)) ;;
    Shell.lift (setAppMode AppMode.start) in
  match user with
  | Some u =>
      if Shell.emailVerified u then
        setAuthUser (Some u) ;;
        userProfile ← Shell.lift (Session.call (userService.getUserProfile (Shell.uid u)));
        match userProfile with
        | Some profile =>
            Shell.lift (setCurrentUser (Some profile)) ;;
            galleryImages ← Shell.lift
              (Session.call (userService.getGalleryImages (Shell.uid u)));
            Shell.lift (setAllGeneratedImages (fun _ => galleryImages))
        | None => mret tt
        end
      else signedOut
  | None => signedOut
  end ;;
  setAuthLoading false.

(** [signOut] is what [auth.signOut()] resolves or rejects with; when it
    resolves the listener is called with no identity. *)
Definition handleLogout (signOut : outcome unit) : Async Shell.t unit :=
  match signOut with
  | Returns _ => onAuthStateChanged None
  | Throws _ => Shell.lift (setError (Some "Failed to sign out."))
  end.

(** *** What is rendered *)

Inductive Screen : Type :=
  | SpinnerScreen
  | AuthScreen
  | ErrorPanel (message : string)
  | ImageGeneratorScreen (userCredits : Z)
  | EditorScreen (currentImageUrl : string)
  | AccountScreen (user : User.t)
  | PricingScreen
  | GalleryScreen (images : list GeneratedImage.t) (userCredits : Z)
  | StartScreen.

(** [error && appMode !== 'pricing'] *)
Definition errorShown (a : AppState.t) : option string :=
  match AppState.error a, AppState.appMode a with
  | Some message, AppMode.pricing => None
  | Some message, _ => if Js.truthy message then Some message else None
  | None, _ => None
  end.

(** [currentImageUrl] is the cell that the effect on [currentImage] fills. *)
Definition renderEditor (a : AppState.t) (currentImageUrl : option string) : Screen :=
  match errorShown a with
  | Some message => ErrorPanel message
  | None =>
      match currentImageUrl with
      | Some url => if Js.truthy url then EditorScreen url else StartScreen
      | None => StartScreen
      end
  end.

Definition renderContent (sh : Shell.t) (currentImageUrl : option string) : Screen :=
  let a := Session.app (Shell.session sh) in
  if Shell.authLoading sh then SpinnerScreen
  else
    match AppState.currentUser a with
    | None => AuthScreen
    | Some currentUser =>
        match errorShown a with
        | Some message => ErrorPanel message
        | None =>
            match AppState.appMode a with
            | AppMode.generator => ImageGeneratorScreen (User.credits currentUser)
            | AppMode.editor => renderEditor a currentImageUrl
            | AppMode.account => AccountScreen currentUser
            | AppMode.pricing => PricingScreen
            | AppMode.gallery =>
                GalleryScreen (AppState.allGeneratedImages a) (User.credits currentUser)
            | AppMode.start => StartScreen
            end
        end
    end.

End App.

(** ** components/ImageGenerator.tsx *)

Module ImageGenerator.

Import Async.

Definition set (f : GeneratorState.t -> GeneratorState.t) : Async Session.t unit :=
  modify (Session.with_form f).
Definition setIsLoading v := set (GeneratorState.with_isLoading v).
Definition setError v := set (GeneratorState.with_error v).

(** [reply] is what [ai.models.generateImages] resolves or rejects with.
    The props [onDeductCredits] and [onImageGenerated] are
    [App.handleDeductCredits] and [App.handleImageGenerated]; the latter
    handles its own failures and is run here to its end. *)
Definition handleGenerate (reply : outcome geminiService.GenerateImagesResponse)
           (docId : string) : Async Session.t unit :=
  snap ← get;
  let prompt := GeneratorState.prompt (Session.form snap) in
  if negb (Js.truthy (Js.trim prompt)) then
    setError (Some "Please enter a prompt to generate an image.")
  else
    let cost := 2 in
    deducted ← App.handleDeductCredits cost "Image Generation";
    if negb deducted then mret tt
    else
      setIsLoading true ;;
      setError None ;;
      finally
        (try_catch
           (imageUrl ← of_outcome (geminiService.generateImage reply);
            App.handleImageGenerated imageUrl prompt docId)
           (fun errorMessage => setError (Some errorMessage)))
        (setIsLoading false).

Definition setPrompt v := set (GeneratorState.with_prompt v).

(** The updater that [handlePresetClick] gives to [setPrompt]. *)
Definition withPreset (presetPrompt currentPrompt : string) : string :=
  let trimmedCurrent := Js.trim currentPrompt in
  if negb (Js.truthy trimmedCurrent) then presetPrompt
  else if Js.endsWith "," trimmedCurrent then trimmedCurrent ++ " " ++ presetPrompt
  else trimmedCurrent ++ ", " ++ presetPrompt.

Definition handlePresetClick (presetPrompt : string) : Async Session.t unit :=
  set (fun g => GeneratorState.with_prompt
                  (withPreset presetPrompt (GeneratorState.prompt g)) g).

(** The cells of the prompt improvement. *)
Record Improver : Type := mkImprover {
  isImprovingPrompt : bool;
  improveError : option string;
  enhancedPrompt : option string
}.

(** [reply] is what the model call inside [improvePrompt] resolves or rejects
    with; the call is made only for a prompt that is not blank. *)
Definition handleImprovePrompt (prompt : string)
           (reply : outcome geminiService.GenerateContentResponse) (i : Improver)
  : Improver :=
  if negb (Js.truthy (Js.trim prompt)) then
    mkImprover (isImprovingPrompt i) (Some "Please enter a prompt to improve.")
               (enhancedPrompt i)
  else
    match geminiService.improvePrompt reply with
    | Returns result => mkImprover false None (Some result)
    | Throws errorMessage => mkImprover false (Some errorMessage) None
    end.

End ImageGenerator.

(** ** components/GalleryScreen.tsx *)

Module GalleryScreen.

Record t : Type := mk {
  selectedImage : option GeneratedImage.t;
  isUpscaling : bool;
  upscaleError : option string;
  currentImages : list GeneratedImage.t
}.

(** The effect on [images] and [selectedImage]: the first image is selected
    when none is, or when the selected one is no longer in the list. *)
Definition syncSelection (images : list GeneratedImage.t) (g : t) : t :=
  let listed (sel : GeneratedImage.t) :=
    existsb (fun img => String.eqb (GeneratedImage.id img) (GeneratedImage.id sel)) images in
  let selected :=
    match images with
    | first :: _ =>
        match selectedImage g with
        | Some sel => if listed sel then Some sel else Some first
        | None => Some first
        end
    | [] => None
    end in
  mk selected (isUpscaling g) (upscaleError g) images.

(** [userCredits] is the prop of that name, [onUpscale] is
    [App.handleUpscaleImage], and [reply] is what its model call resolves or
    rejects with.  Every failure is caught, so the handler always ends. *)
Definition handleUpscale (userCredits : Z)
           (reply : outcome geminiService.GenerateContentResponse)
           (g : t) (s : Session.t) : t * Session.t :=
  match selectedImage g with
  | None => (mk None (isUpscaling g) (Some "No image selected to upscale.")
               (currentImages g), s)
  | Some sel =>
      let cost := 1 in
      if userCredits <? cost then
        (mk (Some sel) (isUpscaling g)
            (Some ("You need " ++ Js.showZ cost ++ " credit for this action."))
            (currentImages g), s)
      else
        match App.handleUpscaleImage sel reply s with
        | (Returns updatedImage, s') => (mk updatedImage false None (currentImages g), s')
        | (Throws errorMessage, s') =>
            (mk (Some sel) false (Some errorMessage) (currentImages g), s')
        end
  end.

End GalleryScreen.

(** ** components/AccountScreen.tsx *)

Module AccountScreen.

Inductive Message : Type :=
  | success (text : string)
  | error (text : string).

(** The cells of the profile form. *)
Record t : Type := mk {
  name : string;
  email : string;
  message : option Message
}.

(** [user] is the prop of that name and [onUpdateUser] is
    [App.handleUpdateUser]; its promise is not awaited, so what it ends with
    does not reach the form. *)
Definition handleProfileUpdate (user : User.t) (f : t) (s : Session.t) : t * Session.t :=
  if negb (Js.truthy (name f)) || negb (Js.truthy (email f)) then
    (mk (name f) (email f) (Some (error "Name and email cannot be empty.")), s)
  else if String.eqb (name f) (User.name user) && String.eqb (email f) (User.email user) then
    (mk (name f) (email f) (Some (error "No changes detected.")), s)
  else
    let s' := Async.exec
                (App.handleUpdateUser
                   (User.mkPartial None (Some (name f)) (Some (email f)) None None)) s in
    (mk (name f) (email f) (Some (success "Profile updated successfully!")), s').

End AccountScreen.

(** ** components/AuthScreen.tsx *)

Module AuthScreen.

Inductive AuthMode : Type := login | signup.

Record t : Type := mk {
  authMode : AuthMode;
  isLoading : bool;
  error : option string;
  message : option string;
  name : string;
  email : string;
  password : string;
  confirmPassword : string;
  termsAccepted : bool
}.

Definition failed (e : string) (f : t) : t :=
  mk (authMode f) false (Some e) None (name f) (email f) (password f)
     (confirmPassword f) (termsAccepted f).

(** A rejection of the auth service: [code] and [message]. *)
Record FirebaseError : Type := mkError { code : option string; errorMessage : string }.

(** What the form reads of a [UserCredential]. *)
Record UserCredential : Type := mkCredential {
  user : userService.AuthUser;
  emailVerified : bool
}.

(** [firebaseError.message || fallback] *)
Definition messageOr (e : FirebaseError) (fallback : string) : string :=
  if Js.truthy (errorMessage e) then errorMessage e else fallback.

Definition hasCode (e : FirebaseError) (c : string) : bool :=
  match code e with Some c' => String.eqb c' c | None => false end.

(** The sign-up branch of [handleSubmit].  [created] is what
    [auth.createUserWithEmailAndPassword] resolves or rejects with and
    [verificationSent] what [sendEmailVerification] does. *)
Definition signUp (created : UserCredential + FirebaseError)
           (verificationSent : unit + FirebaseError) (f : t) (w : World.t) : t * World.t :=
  if negb (Js.truthy (name f)) || negb (Js.truthy (email f))
     || negb (Js.truthy (password f)) || negb (Js.truthy (confirmPassword f)) then
    (mk (authMode f) (isLoading f) (Some "All fields are required.") None (name f)
        (email f) (password f) (confirmPassword f) (termsAccepted f), w)
  else if negb (String.eqb (password f) (confirmPassword f)) then
    (mk (authMode f) (isLoading f) (Some "Passwords do not match.") None (name f)
        (email f) (password f) (confirmPassword f) (termsAccepted f), w)
  else if (String.length (password f) <? 6)%nat then
    (mk (authMode f) (isLoading f) (Some "Password must be at least 6 characters long.")
        None (name f) (email f) (password f) (confirmPassword f) (termsAccepted f), w)
  else if negb (termsAccepted f) then
    (mk (authMode f) (isLoading f) (Some "You must accept the terms and conditions.")
        None (name f) (email f) (password f) (confirmPassword f) (termsAccepted f), w)
  else
    let caught (e : FirebaseError) :=
      failed (if hasCode e "auth/email-already-in-use"
              then "This email address is already in use. Please try logging in."
              else messageOr e "An unknown error occurred during signup.") f in
    match created with
    | inr e => (caught e, w)
    | inl userCredential =>
        match verificationSent with
        | inr e => (caught e, w)
        | inl _ =>
            match userService.createUserProfile (user userCredential) (name f) w with
            | (Throws e, w') => (caught (mkError None e), w')
            | (Returns _, w') =>
                (mk login false None
                    (Some "Verification email sent! Please check your inbox and verify your email before logging in.")
                    "" "" "" "" false, w')
            end
        end
    end.

(** The log-in branch of [handleSubmit].  [signedIn] is what
    [auth.signInWithEmailAndPassword] resolves or rejects with and [signedOut]
    what the [auth.signOut()] after an unverified sign-in does. *)
Definition logIn (signedIn : UserCredential + FirebaseError)
           (signedOut : unit + FirebaseError) (f : t) : t :=
  if negb (Js.truthy (email f)) || negb (Js.truthy (password f)) then
    mk (authMode f) (isLoading f) (Some "Email and password are required.") None (name f)
       (email f) (password f) (confirmPassword f) (termsAccepted f)
  else
    let caught (e : FirebaseError) :=
      failed (if hasCode e "auth/invalid-credential"
              then "Invalid email or password. Please try again."
              else messageOr e "An unknown error occurred during login.") f in
    match signedIn with
    | inr e => caught e
    | inl userCredential =>
        if negb (emailVerified userCredential) then
          match signedOut with
          | inr e => caught e
          | inl _ =>
              failed "Please verify your email before logging in. We can send you a new verification link if needed." f
          end
        else
          mk (authMode f) false None None (name f) (email f) (password f)
             (confirmPassword f) (termsAccepted f)
    end.

Definition handleSubmit (credential : UserCredential + FirebaseError)
           (followUp : unit + FirebaseError) (f : t) (w : World.t) : t * World.t :=
  match authMode f with
  | signup => signUp credential followUp f w
  | login => (logIn credential followUp f, w)
  end.

End AuthScreen.

(** ** Vocabulary of the specification *)

Module Spec.

Import Async.

(** *** Edit history (sections 3 and 4.4) *)

Inductive HistoryOp : Type :=
  | Upload (artifact : File.t)
  | Append (artifact : File.t)
  | Undo
  | Redo
  | ResetToOriginal.

Definition perform (op : HistoryOp) : Async Session.t unit :=
  match op with
  | Upload artifact => App.handleImageUpload artifact
  | Append artifact => snap ← get; App.addImageToHistory (Session.app snap) artifact
  | Undo => App.handleUndo
  | Redo => App.handleRedo
  | ResetToOriginal => App.handleReset
  end.

Definition performAll (ops : list HistoryOp) (s : Session.t) : Session.t :=
  foldl (fun s op => exec (perform op) s) s ops.

Definition cursor (s : Session.t) : Z := AppState.historyIndex (Session.app s).
Definition sequence (s : Session.t) : list File.t := AppState.history (Session.app s).

(** The cursor is within [0, length-1] on a non-empty history, and -1 on
    the empty one. *)
Definition cursorInRange (s : Session.t) : Prop :=
  match sequence s with
  | [] => cursor s = -1
  | _ :: _ => 0 <= cursor s <= Z.of_nat (length (sequence s)) - 1
  end.

(** A session in which nothing has been uploaded yet. *)
Definition emptyHistory (s : Session.t) : Session.t :=
  Session.with_app (fun a => AppState.with_historyIndex (-1) (AppState.with_history [] a)) s.

Definition hotspot (s : Session.t) : option AppState.Hotspot :=
  AppState.editHotspot (Session.app s).
Definition hotspotMarker (s : Session.t) : option AppState.Hotspot :=
  AppState.displayHotspot (Session.app s).

(** *** Credit ledger (sections 4.2 and 4.4) *)

(** The balance the document store holds for an identity. *)
Definition ledgerBalance (uid : string) (s : Session.t) : option Z :=
  User.credits <$> World.users (Session.world s) !! uid.

(** The balance of the profile the session holds. *)
Definition shownBalance (s : Session.t) : option Z :=
  User.credits <$> AppState.currentUser (Session.app s).

(** The stored profile after [adjust(identity, amount, reason)]: the balance
    moved by [amount], one transaction recorded. *)
Definition adjusted (amount : Z) (reason : string) (today : Z) (doc : User.t) : User.t :=
  User.with_credits (User.credits doc + amount)
    (userService.arrayUnion (User.creditHistory doc)
       (CreditTransaction.mk reason amount today)) doc.

(** The profile as the ledger client hands it out: history newest first. *)
Definition profileOf (doc : User.t) : User.t :=
  User.with_credits (User.credits doc)
    (userService.sortNewestFirst (User.creditHistory doc)) doc.

(** The session after a ledger adjustment that went through. *)
Definition afterAdjust (uid : string) (doc' : User.t) (s : Session.t) : Session.t :=
  Session.mk (AppState.with_currentUser (Some (profileOf doc')) (Session.app s))
             (Session.form s)
             (World.set_users (<[uid := doc']> (World.users (Session.world s)))
                (Session.world s)).

(** The artifact made of the payload of an AI operation, if there is one. *)
Definition artifactOf (payload : outcome string) (name : string) : outcome File.t :=
  match payload with
  | Returns url => App.dataURLtoFile url name
  | Throws e => Throws e
  end.

(** The name of the artifact of an edit: prefix, timestamp, extension. *)
Definition editName (fileSuffix : string) (s : Session.t) : string :=
  fileSuffix ++ "-" ++ Js.showZ (World.now (Session.world s)) ++ ".png".

(** The name and the artifact of an upscaled gallery entry. *)
Definition upscaledName (image : GeneratedImage.t) : string :=
  "upscaled-" ++ GeneratedImage.id image ++ ".jpeg".

Definition upscaledArtifact (image : GeneratedImage.t)
           (reply : outcome geminiService.GenerateContentResponse) : outcome File.t :=
  artifactOf (geminiService.upscaleImage (GeneratedImage.url image) reply)
             (upscaledName image).

(** The reference the blob store gives the upscaled artifact of an entry. *)
Definition upscaledUrl (uid : string) (image : GeneratedImage.t) (s : Session.t) : string :=
  World.downloadURL (Session.world s)
    ("users/" ++ uid ++ "/generated/" ++ upscaledName image).

(** [entries], with [updated] in place of the entries that carry its id. *)
Definition replaceEntry (updated : GeneratedImage.t) (entries : list GeneratedImage.t)
  : list GeneratedImage.t :=
  map (fun img => if String.eqb (GeneratedImage.id img) (GeneratedImage.id updated)
                  then updated else img) entries.

(** How the attempt of a guarded operation ends: the AI operation and, where
    there is one, the conversion of its payload. *)
Definition ended {A : Type} (r : outcome A) : outcome unit :=
  match r with
  | Returns _ => Returns tt
  | Throws e => Throws e
  end.

(** No remote call is scripted to fail. *)
Definition reliable (s : Session.t) : Prop := World.outages (Session.world s) = [].

Inductive GuardedOp : Type :=
  | LocalEdit (edited : outcome string)
  | Filter (filtered : outcome string)
  | Adjustment (adjusted : outcome string)
  | GalleryUpscale (image : GeneratedImage.t)
                   (reply : outcome geminiService.GenerateContentResponse)
  | Generation (reply : outcome geminiService.GenerateImagesResponse) (docId : string).

Definition cost (op : GuardedOp) : Z :=
  match op with
  | GalleryUpscale _ _ => 1
  | _ => 2
  end.

Definition attempt (op : GuardedOp) (s : Session.t) : outcome unit :=
  match op with
  | LocalEdit edited => ended (artifactOf edited (editName "edited" s))
  | Filter filtered => ended (artifactOf filtered (editName "filtered" s))
  | Adjustment adjusted => ended (artifactOf adjusted (editName "adjusted" s))
  | GalleryUpscale image reply => ended (upscaledArtifact image reply)
  | Generation reply _ => ended (geminiService.generateImage reply)
  end.

(** The balance a guarded operation ends on in the code, from the initial
    one: the cost stays debited when the attempt succeeds; when it fails the
    edits and the upscale give it back, image generation does not. *)
Definition finalBalance (initial : Z) (op : GuardedOp) (s : Session.t) : Z :=
  match attempt op s, op with
  | Throws _, (LocalEdit _ | Filter _ | Adjustment _ | GalleryUpscale _ _) => initial
  | _, _ => initial - cost op
  end.

Definition invoke (op : GuardedOp) : Async Session.t unit :=
  match op with
  | LocalEdit edited => App.handleGenerate edited
  | Filter filtered => App.handleApplyFilter filtered
  | Adjustment adjusted => App.handleApplyAdjustment adjusted
  | GalleryUpscale image reply => App.handleUpscaleImage image reply ;; mret tt
  | Generation reply docId => ImageGenerator.handleGenerate reply docId
  end.

(** What the interaction layer guarantees before the request reaches the
    credit check: an image to edit, a prompt, a selected point. *)
Definition requestReady (op : GuardedOp) (s : Session.t) : Prop :=
  match op with
  | LocalEdit _ =>
      is_Some (AppState.currentImage (Session.app s))
      /\ Js.truthy (Js.trim (AppState.prompt (Session.app s))) = true
      /\ is_Some (AppState.editHotspot (Session.app s))
  | Filter _ | Adjustment _ => is_Some (AppState.currentImage (Session.app s))
  | GalleryUpscale _ _ => True
  | Generation _ _ => Js.truthy (Js.trim (GeneratorState.prompt (Session.form s))) = true
  end.

(** The report of the insufficient-credits condition. *)
Definition insufficientCredits (required available : Z) : string :=
  "You need " ++ Js.showZ required ++ " credits for this action, but you only have "
    ++ Js.showZ available ++ ". Please purchase more.".

Definition sumAmounts (l : list CreditTransaction.t) : Z :=
  foldr (fun t acc => CreditTransaction.amount t + acc) 0 l.

(** The local edit is attempted and [handleGenericEdit] reports success. *)
Definition localEditSucceeds (edited : outcome string) (s : Session.t) : bool :=
  Js.truthy (Js.trim (AppState.prompt (Session.app s)))
  && bool_decide (is_Some (AppState.editHotspot (Session.app s)))
  && match result (App.handleGenericEdit edited 2 "AI Local Edit" "edited") s with
     | Returns (Some true) => true
     | _ => false
     end.

(** A computation leaves an observation of its state as it found it,
    on every path, returning or throwing. *)
Definition keeps {S A X : Type} (observe : S -> X) (m : Async S A) : Prop :=
  forall s, observe (snd (m s)) = observe s.

(** *** Gallery (section 4.6) *)

(** The entry held in memory is the stored document with its id. *)
Definition stored (uid : string) (image : GeneratedImage.t) (s : Session.t) : Prop :=
  World.gallery (Session.world s) !! (uid, GeneratedImage.id image)
  = Some (GalleryDoc.of_image image).

(** *** Artifact store (section 4.1) *)

Fixpoint occurs (c : ascii) (s : string) : Prop :=
  match s with
  | EmptyString => False
  | String c' rest => c = c' \/ occurs c rest
  end.

Definition hasComma (payload : string) : Prop := occurs "," payload.

(** [header] is the text before the first comma and [body] the text between
    the first comma and the next one (or the end). *)
Definition headerBody (payload header body : string) : Prop :=
  ~ occurs "," header /\ ~ occurs "," body
  /\ (payload = header ++ "," ++ body
      \/ exists rest, payload = header ++ "," ++ body ++ "," ++ rest).

Fixpoint oneLine (s : string) : Prop :=
  match s with
  | EmptyString => True
  | String c rest => Js.isLineTerminator c = false /\ oneLine rest
  end.

(** [mime] is the segment between ':' and ';' that the pattern
    [/:(.*?);/] selects in [header]: the segment stays on one line, ends at
    the first semicolon, and no such segment starts further left. *)
Definition mimeSegment (header mime : string) : Prop :=
  exists pre post,
    header = pre ++ ":" ++ mime ++ ";" ++ post
    /\ oneLine mime /\ ~ occurs ";" mime
    /\ forall pre' mime' post',
         header = pre' ++ ":" ++ mime' ++ ";" ++ post' -> oneLine mime' ->
         (String.length pre <= String.length pre')%nat.

(** The header has a parsable MIME segment: a non-empty one. *)
Definition parsableMime (header : string) : Prop :=
  exists mime, mimeSegment header mime /\ mime <> "".

(** The bytes of a binary string. *)
Definition bytesOf (bstr : string) : list Byte.byte :=
  map byte_of_ascii (list_ascii_of_string bstr).

(** *** AI gateway (section 4.3) *)

Definition blocked (r : geminiService.GenerateContentResponse) : Prop :=
  exists feedback reason,
    geminiService.promptFeedback r = Some feedback
    /\ geminiService.blockReason feedback = Some reason /\ reason <> "".

(** The parts of the first candidate. *)
Definition partsOf (r : geminiService.GenerateContentResponse) : list geminiService.Part :=
  match geminiService.candidates r with
  | Some (candidate :: _) =>
      match geminiService.content candidate with
      | Some c => default [] (geminiService.parts c)
      | None => []
      end
  | _ => []
  end.

Definition hasInlineImage (r : geminiService.GenerateContentResponse) : Prop :=
  exists part, part ∈ partsOf r /\ is_Some (geminiService.inlineData part).

Definition stoppedEarly (r : geminiService.GenerateContentResponse) : Prop :=
  exists candidate rest reason,
    geminiService.candidates r = Some (candidate :: rest)
    /\ geminiService.finishReason candidate = Some reason
    /\ reason <> "" /\ reason <> "STOP".

Inductive Classification : Type :=
  | Blocked | NoImageReturned | ModelStoppedEarly | Success.

Inductive classifies (r : geminiService.GenerateContentResponse) : Classification -> Prop :=
  | is_blocked : blocked r -> classifies r Blocked
  | is_success : ~ blocked r -> hasInlineImage r -> classifies r Success
  | is_stopped : ~ blocked r -> ~ hasInlineImage r -> stoppedEarly r ->
                 classifies r ModelStoppedEarly
  | is_no_image : ~ blocked r -> ~ hasInlineImage r -> ~ stoppedEarly r ->
                  classifies r NoImageReturned.

(** [needle] occurs in [hay]. *)
Fixpoint mentions (needle hay : string) : bool :=
  String.prefix needle hay
  || match hay with
     | EmptyString => false
     | String _ rest => mentions needle rest
     end.

(** *** Further vocabulary: the ledger client and the gallery store *)

(** A credit history with the newest transaction first. *)
Definition newestFirst (l : list CreditTransaction.t) : Prop :=
  StronglySorted
    (fun a b => CreditTransaction.date b <= CreditTransaction.date a) l.

(** The books of a profile are balanced: the balance is the sum of the
    recorded amounts. *)
Definition balanced (doc : User.t) : Prop :=
  User.credits doc = sumAmounts (User.creditHistory doc).

(** Gallery entries with the newest one first. *)
Definition newestEntryFirst (l : list GeneratedImage.t) : Prop :=
  StronglySorted
    (fun a b => GeneratedImage.createdAt b <= GeneratedImage.createdAt a) l.

(** [g] is the document stored for [uid] under the id it carries. *)
Definition storedEntry (uid : string) (g : GeneratedImage.t) (w : World.t) : Prop :=
  World.gallery w !! (uid, GeneratedImage.id g) = Some (GalleryDoc.of_image g).

(** *** Further vocabulary: file types *)

(** Every character of [s] is in U+0020..U+007E. *)
Definition printable (s : string) : Prop :=
  forall c, occurs c s -> (32 <= Js.code c <= 126)%N.

(** No character of [s] is an upper-case ASCII letter. *)
Definition noUpperCase (s : string) : Prop :=
  forall c, occurs c s -> ~ (65 <= Js.code c <= 90)%N.

(** *** Further vocabulary: prompts *)

(** Every character of [s] is white space. *)
Definition blank (s : string) : Prop :=
  forall c, occurs c s -> Js.isWhiteSpace c = true.

(** [s] does not start with white space. *)
Definition startsClean (s : string) : Prop :=
  match s with
  | EmptyString => True
  | String c _ => Js.isWhiteSpace c = false
  end.

(** [s] does not end with white space. *)
Fixpoint endsClean (s : string) : Prop :=
  match s with
  | EmptyString => True
  | String c EmptyString => Js.isWhiteSpace c = false
  | String _ rest => endsClean rest
  end.

(** *** Further vocabulary: the events of a session *)

(** What the interaction layer can ask of [App] once the user is signed in,
    with what the remote collaborators of the request answer. *)
Inductive Event : Type :=
  | FilesSelected (files : option (list File.t))
  | LocalEditRequested (edited : outcome string)
  | FilterRequested (filtered : outcome string)
  | AdjustmentRequested (adjusted : outcome string)
  | CropRequested (imgRefCurrent canvasContext : bool) (croppedImageUrl : string)
  | UndoClicked
  | RedoClicked
  | ResetClicked
  | HomeClicked
  | ErrorDismissed
  | ProfileEdited (updatedData : User.partial)
  | CreditsPurchased (creditAmount : Z) (reason : string)
  | PresetClicked (presetPrompt : string)
  | ImageRequested (reply : outcome geminiService.GenerateImagesResponse) (docId : string)
  | UpscaleRequested (image : GeneratedImage.t)
                     (reply : outcome geminiService.GenerateContentResponse).

Definition handle (e : Event) : Async Session.t unit :=
  match e with
  | FilesSelected files => App.handleFileSelect files
  | LocalEditRequested edited => App.handleGenerate edited
  | FilterRequested filtered => App.handleApplyFilter filtered
  | AdjustmentRequested adjusted => App.handleApplyAdjustment adjusted
  | CropRequested imgRefCurrent canvasContext croppedImageUrl =>
      App.handleApplyCrop imgRefCurrent canvasContext croppedImageUrl
  | UndoClicked => App.handleUndo
  | RedoClicked => App.handleRedo
  | ResetClicked => App.handleReset
  | HomeClicked => App.handleGoHome
  | ErrorDismissed => App.dismissError
  | ProfileEdited updatedData => App.handleUpdateUser updatedData
  | CreditsPurchased creditAmount reason => App.handlePurchaseCredits creditAmount reason
  | PresetClicked presetPrompt => ImageGenerator.handlePresetClick presetPrompt
  | ImageRequested reply docId => ImageGenerator.handleGenerate reply docId
  | UpscaleRequested image reply => App.handleUpscaleImage image reply ;; mret tt
  end.

(** The events of the shell: a change of the sign-in, a log-out, or an
    event of the session. *)
Inductive ShellEvent : Type :=
  | AuthStateChanged (user : option Shell.Identity)
  | LogoutClicked (signOut : outcome unit)
  | InSession (e : Event).

Definition dispatch (e : ShellEvent) : Async Shell.t unit :=
  match e with
  | AuthStateChanged user => App.onAuthStateChanged user
  | LogoutClicked signOut => App.handleLogout signOut
  | InSession e => Shell.lift (handle e)
  end.

(** The shell after a run of events, each handled to its end, whether it
    returned or threw. *)
Definition run (events : list ShellEvent) (sh : Shell.t) : Shell.t :=
  foldl (fun sh e => exec (dispatch e) sh) sh events.

(** The two cells that the cursor property reads. *)
Definition place (a : AppState.t) : list File.t * Z :=
  (AppState.history a, AppState.historyIndex a).

(** The stores of [w'] hold what those of [w] hold: the same profiles are
    present, and every gallery document and blob that was present still is;
    the clock and the references of the blob store are the same. *)
Definition retains (w w' : World.t) : Prop :=
  (forall uid, is_Some (World.users w' !! uid) <-> is_Some (World.users w !! uid))
  /\ (forall key, is_Some (World.gallery w !! key) -> is_Some (World.gallery w' !! key))
  /\ (forall path, is_Some (World.storage w !! path) -> is_Some (World.storage w' !! path))
  /\ World.now w' = World.now w
  /\ World.downloadURL w' = World.downloadURL w.

(** [P] holds after [m] whenever it held before, however [m] ends. *)
Definition invariant {S A : Type} (P : S -> Prop) (m : Async S A) : Prop :=
  forall s, P s -> P (snd (m s)).

End Spec.

(** ** Concrete sessions, for the scenarios of section 8 *)

Module Scenario.

Definition alice (credits : Z) : User.t :=
  User.mk "u1" "Alice" "alice@example.org" credits
    [CreditTransaction.mk "Sign-up bonus" 25 0].

Definition original : File.t := File.mk [Byte.x01] "original.png" "image/png".
Definition second : File.t := File.mk [Byte.x02] "second.png" "image/png".
Definition third : File.t := File.mk [Byte.x03] "third.png" "image/png".

(** A gallery entry whose reference is itself a data URL. *)
Definition entry : GeneratedImage.t :=
  GeneratedImage.mk "g1" "data:image/jpeg;base64,aGVsbG8=" "a cat" false 5.

Definition world (credits : Z) : World.t :=
  World.mk {[ "u1" := alice credits ]}
           {[ ("u1", "g1") := GalleryDoc.of_image entry ]}
           ∅
           (fun path => "https://blobs.example.org/" ++ path)
           1000
           [].

(** Signed in with [credits], editing [history] at [cursor], a point
    selected and a prompt typed in both forms. *)
Definition editing (credits : Z) (history : list File.t) (cursor : Z) : Session.t :=
  Session.mk
    (AppState.mk (Some (alice credits)) AppMode.editor history cursor "make it blue"
       false None (Some (AppState.mkHotspot 10 20)) (Some (AppState.mkHotspot 5 10))
       Tab.localEdit None None [entry])
    (GeneratorState.mk "a cat" false None)
    (world credits).

(** A model response that carries one inline image. *)
Definition imageResponse : geminiService.GenerateContentResponse :=
  geminiService.mkResponse None
    (Some [geminiService.mkCandidate
             (Some (geminiService.mkContent
                      (Some [geminiService.mkPart
                               (Some (geminiService.mkInlineData
                                        (Some "image/png") (Some "aGVsbG8=")))
                               None])))
             (Some "STOP")])
    None.

(** A response refused by the prompt policy. *)
Definition blockedResponse : geminiService.GenerateContentResponse :=
  geminiService.mkResponse
    (Some (geminiService.mkPromptFeedback (Some "SAFETY") None)) None None.

End Scenario.

(** * Properties *)

(** Unfolding of the asynchronous combinators and of the setters. *)
Ltac unfold_async :=
  unfold Async.exec, Async.result, mbind, mret, Async_bind, Async_ret,
    Async.bind, Async.ret, Async.get, Async.modify, Async.throw, Async.try_catch,
    Async.finally, Async.of_outcome in *.

Ltac unfold_setters :=
  unfold App.setCurrentUser, App.setAppMode, App.setHistory, App.setHistoryIndex,
    App.setPrompt, App.setIsLoading, App.setError, App.setEditHotspot,
    App.setDisplayHotspot, App.setActiveTab, App.setCrop, App.setCompletedCrop,
    App.setAllGeneratedImages, App.set, ImageGenerator.setIsLoading,
    ImageGenerator.setError, ImageGenerator.set, Session.dateNow in *.

Module EditHistory.

Import Spec.

Lemma slice0_take {A : Type} (l : list A) (e : Z) :
  0 <= e -> Js.slice0 l e = take (Z.to_nat e) l.
Proof.
  intros He. unfold Js.slice0.
  destruct (Z.ltb_spec e 0) as [Hlt | _]; [lia |].
  destruct (Z.min_spec e (Z.of_nat (length l))) as [[Hlt ->] | [Hge ->]]; [reflexivity |].
  rewrite Nat2Z.id, firstn_all.
  symmetry. apply take_ge. lia.
Qed.

Lemma append_spec (artifact : File.t) (s : Session.t) :
  let s' := Async.exec (perform (Append artifact)) s in
  sequence s' = (Js.slice0 (sequence s) (cursor s + 1) ++ [artifact])%list
  /\ cursor s' = Z.of_nat (length (sequence s')) - 1.
Proof. split; reflexivity. Qed.

Lemma upload_spec (artifact : File.t) (s : Session.t) :
  let s' := Async.exec (App.handleImageUpload artifact) s in
  sequence s' = [artifact] /\ cursor s' = 0.
Proof. split; reflexivity. Qed.

Lemma undo_spec (s : Session.t) :
  Async.exec App.handleUndo s =
  if AppState.canUndo (Session.app s)
  then Session.with_app
         (fun a => AppState.with_displayHotspot None
                     (AppState.with_editHotspot None
                        (AppState.with_historyIndex (cursor s - 1) a))) s
  else s.
Proof.
  unfold App.handleUndo. unfold_async.
  destruct (AppState.canUndo (Session.app s)); reflexivity.
Qed.

Lemma redo_spec (s : Session.t) :
  Async.exec App.handleRedo s =
  if AppState.canRedo (Session.app s)
  then Session.with_app
         (fun a => AppState.with_displayHotspot None
                     (AppState.with_editHotspot None
                        (AppState.with_historyIndex (cursor s + 1) a))) s
  else s.
Proof.
  unfold App.handleRedo. unfold_async.
  destruct (AppState.canRedo (Session.app s)); reflexivity.
Qed.

Lemma reset_spec (s : Session.t) :
  Async.exec App.handleReset s =
  match sequence s with
  | [] => s
  | _ :: _ =>
      Session.with_app
        (fun a => AppState.with_displayHotspot None
                    (AppState.with_editHotspot None
                       (AppState.with_error None
                          (AppState.with_historyIndex 0 a)))) s
  end.
Proof.
  unfold App.handleReset, sequence. unfold_async.
  destruct (AppState.history (Session.app s)); reflexivity.
Qed.

Lemma perform_in_range (op : HistoryOp) (s : Session.t) :
  cursorInRange s -> cursorInRange (Async.exec (perform op) s).
Proof.
  unfold cursorInRange. intros Hs.
  destruct op as [artifact | artifact | | |].
  - destruct (upload_spec artifact s) as [Hseq Hcur]. cbv zeta in Hseq, Hcur.
    change (perform (Upload artifact)) with (App.handleImageUpload artifact).
    rewrite Hseq, Hcur. cbn. lia.
  - destruct (append_spec artifact s) as [Hseq Hcur]. cbv zeta in Hseq, Hcur.
    rewrite Hcur, Hseq.
    destruct (Js.slice0 (sequence s) (cursor s + 1)); cbn [app length]; lia.
  - change (perform Undo) with App.handleUndo. rewrite undo_spec.
    unfold AppState.canUndo. fold (cursor s).
    destruct (Z.ltb_spec 0 (cursor s)) as [Hpos | Hnpos]; [| exact Hs].
    change (sequence (Session.with_app _ s)) with (sequence s).
    change (cursor (Session.with_app _ s)) with (cursor s - 1).
    destruct (sequence s); cbn [length] in *; lia.
  - change (perform Redo) with App.handleRedo. rewrite redo_spec.
    unfold AppState.canRedo. fold (cursor s) (sequence s).
    destruct (Z.ltb_spec (cursor s) (Z.of_nat (length (sequence s)) - 1)) as [Hlt | Hge];
      [| exact Hs].
    change (sequence (Session.with_app _ s)) with (sequence s).
    change (cursor (Session.with_app _ s)) with (cursor s + 1).
    destruct (sequence s); cbn [length] in *; lia.
  - change (perform ResetToOriginal) with App.handleReset. rewrite reset_spec.
    destruct (sequence s) as [| a l] eqn:Hseq; [rewrite Hseq; exact Hs |].
    change (sequence (Session.with_app _ s)) with (sequence s).
    change (cursor (Session.with_app _ s)) with 0.
    rewrite Hseq. cbn [length]. lia.
Qed.

Lemma performAll_in_range (ops : list HistoryOp) (s : Session.t) :
  cursorInRange s -> cursorInRange (performAll ops s).
Proof.
  revert s. induction ops as [| op ops IH]; intros s Hs; [exact Hs |].
  cbn. apply IH, perform_in_range, Hs.
Qed.

(** C2 (history linearity).  After any sequence of upload, append, undo,
    redo and reset operations run from the empty history, the cursor is
    within [0, length-1] when the history is non-empty and is -1 when it is
    empty; appending an artifact then keeps exactly the entries up to the
    cursor, pushes the artifact, and leaves the cursor on the last entry. *)
Theorem history_linearity (ops : list HistoryOp) (s : Session.t) (artifact : File.t) :
  let s' := performAll ops (emptyHistory s) in
  let s'' := Async.exec (perform (Append artifact)) s' in
  cursorInRange s'
  /\ sequence s'' = (take (Z.to_nat (cursor s' + 1)) (sequence s') ++ [artifact])%list
  /\ cursor s'' = Z.of_nat (length (sequence s'')) - 1.
Proof.
  intros s' s''.
  assert (Hin : cursorInRange s').
  { apply performAll_in_range. reflexivity. }
  split; [exact Hin |].
  destruct (append_spec artifact s') as [Hseq Hcur]. cbv zeta in Hseq, Hcur.
  split; [| exact Hcur].
  subst s''. rewrite Hseq. f_equal. apply slice0_take.
  unfold cursorInRange in Hin. destruct (sequence s'); lia.
Qed.

(** C8 (upload).  Uploading an artifact replaces the whole history with the
    one-element sequence holding it and puts the cursor on 0, whatever the
    session was before; it clears the hotspot and its marker and the crop
    selection, and selects the default tab "promptEdit". *)
Theorem upload_semantics (artifact : File.t) (s : Session.t) :
  let s' := Async.exec (perform (Upload artifact)) s in
  sequence s' = [artifact]
  /\ cursor s' = 0
  /\ hotspot s' = None /\ hotspotMarker s' = None
  /\ AppState.crop (Session.app s') = None
  /\ AppState.completedCrop (Session.app s') = None
  /\ AppState.activeTab (Session.app s') = Tab.promptEdit.
Proof. repeat split. Qed.

(** C5, as amended (reset to original).  A reset never truncates the
    sequence.  On the empty history it changes nothing.  On a non-empty
    history it puts the cursor on 0, so that the original artifact is the
    current one right after it, and undo is unavailable; redo is available
    exactly when later versions exist, and then steps to index 1. *)
Theorem reset_to_original (s : Session.t) :
  let s' := Async.exec (perform ResetToOriginal) s in
  sequence s' = sequence s
  /\ match sequence s with
     | [] => s' = s
     | first :: later =>
         cursor s' = 0
         /\ AppState.currentImage (Session.app s') = Some first
         /\ AppState.originalImage (Session.app s') = Some first
         /\ AppState.canUndo (Session.app s') = false
         /\ match later with
            | [] => AppState.canRedo (Session.app s') = false
            | _ :: _ =>
                AppState.canRedo (Session.app s') = true
                /\ cursor (Async.exec (perform Redo) s') = 1
            end
     end.
Proof.
  intros s'. subst s'.
  change (perform ResetToOriginal) with App.handleReset.
  change (perform Redo) with App.handleRedo.
  rewrite reset_spec.
  destruct (sequence s) as [| first later] eqn:Hseq; [split; [exact Hseq | reflexivity] |].
  split; [exact Hseq |].
  unfold sequence in Hseq.
  unfold AppState.currentImage, AppState.originalImage, AppState.canRedo, AppState.canUndo.
  cbn. rewrite Hseq.
  repeat (split; [reflexivity |]).
  destruct later as [| next later]; [reflexivity |].
  assert (Hredo : (0 <? Z.of_nat (length (first :: next :: later)) - 1) = true).
  { apply Z.ltb_lt. cbn [length]. lia. }
  split; [exact Hredo |].
  rewrite redo_spec. unfold AppState.canRedo. cbn. rewrite Hseq, Hredo. reflexivity.
Qed.

(** C5, as stated, fails: after a reset on a history of two versions redo is
    available, and it leads to the second version. *)
Lemma reset_keeps_redo_available :
  let s := Scenario.editing 10 [Scenario.original; Scenario.second] 1 in
  let s' := Async.exec (perform ResetToOriginal) s in
  AppState.canRedo (Session.app s') = true
  /\ AppState.currentImage (Session.app (Async.exec (perform Redo) s'))
     = Some Scenario.second.
Proof. split; reflexivity. Qed.

End EditHistory.

(** ** Frame rules: what a computation does not touch *)

Module Frame.

Import Spec.

Section Rules.

Context {S X : Type} (observe : S -> X).

Lemma keeps_ret {A : Type} (a : A) : keeps observe (mret a : Async S A).
Proof. intros s. reflexivity. Qed.

Lemma keeps_get : keeps observe (@Async.get S).
Proof. intros s. reflexivity. Qed.

Lemma keeps_throw {A : Type} (e : string) : keeps observe (@Async.throw S A e).
Proof. intros s. reflexivity. Qed.

Lemma keeps_of_outcome {A : Type} (r : outcome A) :
  keeps observe (@Async.of_outcome S A r).
Proof. intros s. reflexivity. Qed.

Lemma keeps_modify (f : S -> S) :
  (forall s, observe (f s) = observe s) -> keeps observe (Async.modify f).
Proof. intros H s. apply H. Qed.

Lemma keeps_bind {A B : Type} (m : Async S A) (k : A -> Async S B) :
  keeps observe m -> (forall a, keeps observe (k a)) -> keeps observe (m ≫= k).
Proof.
  intros Hm Hk s. unfold mbind, Async_bind, Async.bind.
  specialize (Hm s). destruct (m s) as [[a | e] s1]; cbn in *.
  - rewrite Hk. exact Hm.
  - exact Hm.
Qed.

Lemma keeps_try_catch {A : Type} (body : Async S A) (handler : string -> Async S A) :
  keeps observe body -> (forall e, keeps observe (handler e)) ->
  keeps observe (Async.try_catch body handler).
Proof.
  intros Hb Hh s. unfold Async.try_catch.
  specialize (Hb s). destruct (body s) as [[a | e] s1]; cbn in *.
  - exact Hb.
  - rewrite Hh. exact Hb.
Qed.

Lemma keeps_finally {A : Type} (body : Async S A) (cleanup : Async S unit) :
  keeps observe body -> keeps observe cleanup ->
  keeps observe (Async.finally body cleanup).
Proof.
  intros Hb Hc s. unfold Async.finally.
  specialize (Hb s). destruct (body s) as [r s1]. cbn in *.
  specialize (Hc s1). destruct (cleanup s1) as [[[] | e] s2]; cbn in *; congruence.
Qed.

End Rules.

Section SessionRules.

Context {X : Type} (observe : Session.t -> X).

Lemma keeps_dateNow : keeps observe Session.dateNow.
Proof. intros s. reflexivity. Qed.

Lemma keeps_set (f : AppState.t -> AppState.t) :
  (forall s, observe (Session.with_app f s) = observe s) -> keeps observe (App.set f).
Proof. intros H s. apply H. Qed.

Lemma keeps_form (f : GeneratorState.t -> GeneratorState.t) :
  (forall s, observe (Session.with_form f s) = observe s) ->
  keeps observe (ImageGenerator.set f).
Proof. intros H s. apply H. Qed.

End SessionRules.

(** A ledger call leaves the state cells of [App] alone. *)
Lemma keeps_call {A X : Type} (view : AppState.t -> X) (m : Async World.t A) :
  keeps (fun s => view (Session.app s)) (Session.call m).
Proof. intros s. unfold Session.call. destruct (m (Session.world s)). reflexivity. Qed.

(** What a service keeps of the world, its call keeps of the session. *)
Lemma keeps_call_world {A X : Type} (view : World.t -> X) (m : Async World.t A) :
  keeps view m -> keeps (fun s => view (Session.world s)) (Session.call m).
Proof.
  intros H s. unfold Session.call. specialize (H (Session.world s)).
  destruct (m (Session.world s)). exact H.
Qed.

(** A round trip only consumes its entry of the outage script. *)
Lemma keeps_remote {X : Type} (view : World.t -> X) (what : string) :
  (forall o w, view (World.set_outages o w) = view w) -> keeps view (World.remote what).
Proof.
  intros H w. unfold World.remote.
  destruct (World.outages w) as [| [|] rest]; cbn; auto.
Qed.

(** *** When a computation returns *)

Lemma bind_returns {S A B : Type} (m : Async S A) (k : A -> Async S B)
      (s s' : S) (b : B) :
  (m ≫= k) s = (Returns b, s') ->
  exists a s1, m s = (Returns a, s1) /\ k a s1 = (Returns b, s').
Proof.
  unfold mbind, Async_bind, Async.bind.
  destruct (m s) as [[a | e] s1]; [eauto | discriminate].
Qed.

Lemma bind_runs {S A B : Type} (m : Async S A) (k : A -> Async S B)
      (s s' : S) (r : outcome B) :
  (m ≫= k) s = (r, s') ->
  (exists a s1, m s = (Returns a, s1) /\ k a s1 = (r, s'))
  \/ (exists e, m s = (Throws e, s') /\ r = Throws e).
Proof.
  unfold mbind, Async_bind, Async.bind.
  destruct (m s) as [[a | e] s1]; [eauto |].
  intros [= <- <-]. eauto.
Qed.

Lemma try_catch_returns {S A : Type} (body : Async S A) (handler : string -> Async S A)
      (s s' : S) (a : A) :
  Async.try_catch body handler s = (Returns a, s') ->
  body s = (Returns a, s')
  \/ exists e s1, body s = (Throws e, s1) /\ handler e s1 = (Returns a, s').
Proof.
  unfold Async.try_catch. destruct (body s) as [[a' | e] s1]; eauto.
Qed.

End Frame.

Create HintDb frame.

#[global] Hint Resolve Frame.keeps_ret Frame.keeps_get Frame.keeps_throw
  Frame.keeps_of_outcome Frame.keeps_dateNow Frame.keeps_call : frame.

(** Walks a handler along its binds and branches. *)
Ltac frame :=
  repeat first
    [ progress unfold_setters
    | apply Frame.keeps_bind; [| intros ?]
    | apply Frame.keeps_try_catch; [| intros ?]
    | apply Frame.keeps_finally
    | apply Frame.keeps_set; intros ?; reflexivity
    | apply Frame.keeps_form; intros ?; reflexivity
    | solve [auto with frame]
    | match goal with
      | |- Spec.keeps _ (match ?x with _ => _ end) => destruct x
      | |- Spec.keeps _ (if ?b then _ else _) => destruct b
      end ].

(** Walks a service along its binds and branches. *)
Ltac world_frame :=
  repeat first
    [ apply Frame.keeps_bind; [| intros ?]
    | apply Frame.keeps_get
    | apply Frame.keeps_ret
    | apply Frame.keeps_throw
    | apply Frame.keeps_remote; intros ? ?; reflexivity
    | apply Frame.keeps_modify; intros ?; reflexivity
    | match goal with
      | |- Spec.keeps _ (match ?x with _ => _ end) => destruct x
      end ].

Module Ledger.

Import Spec.

Lemma remote_reliable (what : string) (w : World.t) :
  World.outages w = [] -> World.remote what w = (Returns tt, w).
Proof. intros H. unfold World.remote. rewrite H. reflexivity. Qed.

Lemma getUserProfile_reliable (uid : string) (w : World.t) :
  World.outages w = [] ->
  userService.getUserProfile uid w = (Returns (profileOf <$> World.users w !! uid), w).
Proof.
  intros H. unfold userService.getUserProfile. unfold_async.
  rewrite (remote_reliable _ _ H). cbv beta iota.
  destruct (World.users w !! uid); reflexivity.
Qed.

Lemma updateUserCredits_reliable (uid : string) (amount : Z) (reason : string)
      (w : World.t) (doc : User.t) :
  World.outages w = [] -> World.users w !! uid = Some doc ->
  let doc' := adjusted amount reason (World.now w) doc in
  userService.updateUserCredits uid amount reason w
  = (Returns (Some (profileOf doc')), World.set_users (<[uid := doc']> (World.users w)) w).
Proof.
  intros Hout Hdoc doc'. unfold userService.updateUserCredits. unfold_async.
  cbv beta iota. rewrite (remote_reliable _ _ Hout). cbv beta iota. rewrite Hdoc.
  rewrite getUserProfile_reliable by exact Hout.
  cbn [World.users World.set_users]. rewrite lookup_insert_eq. reflexivity.
Qed.

Lemma deduct_insufficient (amount : Z) (reason : string) (s : Session.t) (u : User.t) :
  AppState.currentUser (Session.app s) = Some u -> User.credits u < amount ->
  App.handleDeductCredits amount reason s
  = (Returns false,
     Session.with_app
       (fun a => AppState.with_appMode AppMode.pricing
                   (AppState.with_error
                      (Some (insufficientCredits amount (User.credits u))) a)) s).
Proof.
  intros Hu Hlt. unfold App.handleDeductCredits. unfold_async. cbv beta iota.
  rewrite Hu. apply Z.ltb_lt in Hlt. rewrite Hlt. reflexivity.
Qed.

Lemma deduct_reliable (amount : Z) (reason : string) (s : Session.t) (u doc : User.t) :
  AppState.currentUser (Session.app s) = Some u -> amount <= User.credits u ->
  reliable s -> World.users (Session.world s) !! User.uid u = Some doc ->
  App.handleDeductCredits amount reason s
  = (Returns true,
     afterAdjust (User.uid u)
       (adjusted (- amount) reason (World.now (Session.world s)) doc) s).
Proof.
  intros Hu Hle Hout Hdoc. unfold App.handleDeductCredits. unfold_async. cbv beta iota.
  rewrite Hu. apply Z.ltb_ge in Hle. rewrite Hle.
  unfold Session.call.
  rewrite (updateUserCredits_reliable _ _ _ _ doc Hout Hdoc).
  reflexivity.
Qed.

Section GenericEdit.

Variables (edited : outcome string) (cost : Z) (reason fileSuffix : string).
Variables (s : Session.t) (current : File.t) (u doc : User.t).

Hypothesis Himage : AppState.currentImage (Session.app s) = Some current.
Hypothesis Huser : AppState.currentUser (Session.app s) = Some u.
Hypothesis Hdoc : World.users (Session.world s) !! User.uid u = Some doc.
Hypothesis Hafford : cost <= User.credits u.
Hypothesis Hreliable : reliable s.

Let today := World.now (Session.world s).
Let debited := adjusted (- cost) reason today doc.
Let refunded := adjusted cost ("Refund: " ++ reason) today debited.

Lemma edit_committed (file : File.t) :
  artifactOf edited (editName fileSuffix s) = Returns file ->
  App.handleGenericEdit edited cost reason fileSuffix s
  = (Returns (Some true),
     Session.with_app
       (fun a =>
          AppState.with_isLoading false
            (AppState.with_completedCrop None
               (AppState.with_crop None
                  (AppState.with_historyIndex
                     (Z.of_nat (length (Js.slice0 (sequence s) (cursor s + 1) ++ [file])) - 1)
                     (AppState.with_history
                        (Js.slice0 (sequence s) (cursor s + 1) ++ [file])
                        (AppState.with_error None a))))))
       (afterAdjust (User.uid u) debited s)).
Proof.
  intros Hfile. unfold App.handleGenericEdit. unfold_async. cbv beta iota.
  rewrite Himage.
  rewrite (deduct_reliable _ _ _ _ doc Huser Hafford Hreliable Hdoc).
  cbv beta iota. unfold_setters. unfold App.addImageToHistory. unfold_async.
  cbv beta iota.
  unfold artifactOf, editName in Hfile.
  destruct edited as [url | e]; [| discriminate].
  cbn. cbn in Hfile. rewrite Hfile. reflexivity.
Qed.

Lemma edit_refunded (e : string) :
  artifactOf edited (editName fileSuffix s) = Throws e ->
  exists s',
    App.handleGenericEdit edited cost reason fileSuffix s = (Returns (Some false), s')
    /\ World.users (Session.world s') !! User.uid u = Some refunded
    /\ AppState.currentUser (Session.app s') = Some (profileOf refunded)
    /\ sequence s' = sequence s /\ cursor s' = cursor s
    /\ hotspot s' = hotspot s /\ hotspotMarker s' = hotspotMarker s
    /\ AppState.error (Session.app s')
       = Some ("Failed to " ++ Js.toLowerCase reason ++ ". " ++ e).
Proof.
  intros Hfile. unfold App.handleGenericEdit. unfold_async. cbv beta iota.
  rewrite Himage.
  rewrite (deduct_reliable _ _ _ _ doc Huser Hafford Hreliable Hdoc).
  cbv beta iota. unfold_setters. unfold App.addImageToHistory, App.uidOf. unfold_async.
  cbv beta iota. rewrite Huser.
  unfold artifactOf, editName in Hfile.
  assert (Hrefund :
    userService.updateUserCredits (User.uid u) cost ("Refund: " ++ reason)
      (World.set_users (<[User.uid u := debited]> (World.users (Session.world s)))
         (Session.world s))
    = (Returns (Some (profileOf refunded)),
       World.set_users
         (<[User.uid u := refunded]>
            (<[User.uid u := debited]> (World.users (Session.world s))))
         (World.set_users (<[User.uid u := debited]> (World.users (Session.world s)))
            (Session.world s)))).
  { apply updateUserCredits_reliable; [exact Hreliable |].
    cbn. apply lookup_insert_eq. }
  unfold debited, today in Hrefund.
  destruct edited as [url | e'].
  - cbn. cbn in Hfile. rewrite Hfile. cbn.
    unfold Session.call. cbn. unfold afterAdjust in *. cbn in *.
    rewrite Hrefund. cbn.
    eexists. split; [reflexivity |].
    cbn. rewrite lookup_insert_eq. repeat split.
  - injection Hfile as ->. cbn.
    unfold Session.call. cbn. rewrite Hrefund. cbn.
    eexists. split; [reflexivity |].
    cbn. rewrite lookup_insert_eq. repeat split.
Qed.

End GenericEdit.

Lemma orName_upscaled (image : GeneratedImage.t) (file : File.t) :
  userService.orName (Some ("upscaled-" ++ GeneratedImage.id image ++ ".jpeg")) file
  = upscaledName image.
Proof. reflexivity. Qed.

Section Upscale.

Variables (image : GeneratedImage.t)
          (reply : outcome geminiService.GenerateContentResponse).
Variables (s : Session.t) (u doc : User.t).

Hypothesis Huser : AppState.currentUser (Session.app s) = Some u.
Hypothesis Hdoc : World.users (Session.world s) !! User.uid u = Some doc.
Hypothesis Hafford : 1 <= User.credits u.
Hypothesis Hreliable : reliable s.

Let today := World.now (Session.world s).
Let id := GeneratedImage.id image.
Let debited := adjusted (Z.opp 1) ("Upscale: " ++ id) today doc.
Let refunded := adjusted 1 ("Refund: Upscale " ++ id) today debited.

Lemma upscale_committed (file : File.t) (gdoc : GalleryDoc.t) :
  upscaledArtifact image reply = Returns file ->
  World.gallery (Session.world s) !! (User.uid u, id) = Some gdoc ->
  let updated :=
    GalleryDoc.with_id id
      (GalleryDoc.update gdoc
         (GalleryDoc.mkPartial (Some (upscaledUrl (User.uid u) image s)) None
            (Some true) None)) in
  exists s',
    App.handleUpscaleImage image reply s = (Returns (Some updated), s')
    /\ World.users (Session.world s') !! User.uid u = Some debited
    /\ AppState.currentUser (Session.app s') = Some (profileOf debited)
    /\ World.gallery (Session.world s') !! (User.uid u, id)
       = Some (GalleryDoc.of_image updated)
    /\ AppState.allGeneratedImages (Session.app s')
       = replaceEntry updated (AppState.allGeneratedImages (Session.app s)).
Proof.
  intros Hfile Hg updated. unfold App.handleUpscaleImage. unfold_async. cbv beta iota.
  rewrite Huser. cbv zeta.
  rewrite (deduct_reliable _ _ _ _ doc Huser Hafford Hreliable Hdoc).
  cbv beta iota. unfold_setters.
  unfold upscaledArtifact, artifactOf, upscaledName in Hfile.
  destruct (geminiService.upscaleImage (GeneratedImage.url image) reply)
    as [url | e]; [| discriminate].
  cbn. rewrite Hfile. cbn.
  unfold Session.call, userService.uploadImage, userService.updateGalleryImage.
  rewrite orName_upscaled.
  unfold_async. cbn.
  rewrite !remote_reliable by exact Hreliable. cbn.
  fold id. rewrite Hg. cbn.
  rewrite !remote_reliable by exact Hreliable. cbn.
  rewrite lookup_insert_eq.
  eexists. split; [reflexivity |].
  cbn. rewrite !lookup_insert_eq. repeat split.
Qed.

Lemma upscale_refunded (e : string) :
  upscaledArtifact image reply = Throws e ->
  exists s',
    App.handleUpscaleImage image reply s = (Returns (Some image), s')
    /\ World.users (Session.world s') !! User.uid u = Some refunded
    /\ AppState.currentUser (Session.app s') = Some (profileOf refunded)
    /\ World.gallery (Session.world s') = World.gallery (Session.world s)
    /\ AppState.allGeneratedImages (Session.app s')
       = AppState.allGeneratedImages (Session.app s)
    /\ AppState.error (Session.app s') = Some ("Failed to upscale image. " ++ e).
Proof.
  intros Hfile. unfold App.handleUpscaleImage. unfold_async. cbv beta iota.
  rewrite Huser. cbv zeta.
  rewrite (deduct_reliable _ _ _ _ doc Huser Hafford Hreliable Hdoc).
  cbv beta iota. unfold_setters.
  unfold upscaledArtifact, artifactOf, upscaledName in Hfile.
  assert (Hrefund :
    userService.updateUserCredits (User.uid u) 1 ("Refund: Upscale " ++ id)
      (World.set_users (<[User.uid u := debited]> (World.users (Session.world s)))
         (Session.world s))
    = (Returns (Some (profileOf refunded)),
       World.set_users
         (<[User.uid u := refunded]>
            (<[User.uid u := debited]> (World.users (Session.world s))))
         (World.set_users (<[User.uid u := debited]> (World.users (Session.world s)))
            (Session.world s)))).
  { apply updateUserCredits_reliable; [exact Hreliable |].
    cbn. apply lookup_insert_eq. }
  unfold debited, today, id in Hrefund.
  destruct (geminiService.upscaleImage (GeneratedImage.url image) reply)
    as [url | e'].
  - cbn. rewrite Hfile. cbn.
    unfold Session.call. cbn. unfold afterAdjust in *. cbn in *.
    rewrite Hrefund. cbn.
    eexists. split; [reflexivity |].
    cbn. rewrite lookup_insert_eq. repeat split.
  - injection Hfile as ->. cbn.
    unfold Session.call. cbn. rewrite Hrefund. cbn.
    eexists. split; [reflexivity |].
    cbn. rewrite lookup_insert_eq. repeat split.
Qed.

End Upscale.

Section Generation.

Variables (reply : outcome geminiService.GenerateImagesResponse) (docId : string).
Variables (s : Session.t) (u doc : User.t).

Hypothesis Huser : AppState.currentUser (Session.app s) = Some u.
Hypothesis Hdoc : World.users (Session.world s) !! User.uid u = Some doc.
Hypothesis Hafford : 2 <= User.credits u.
Hypothesis Hreliable : reliable s.
Hypothesis Hprompt : Js.truthy (Js.trim (GeneratorState.prompt (Session.form s))) = true.

Let debited := adjusted (Z.opp 2) "Image Generation" (World.now (Session.world s)) doc.

Lemma generation_failed (e : string) :
  geminiService.generateImage reply = Throws e ->
  ImageGenerator.handleGenerate reply docId s
  = (Returns tt,
     Session.with_form
       (fun g => GeneratorState.with_isLoading false
                   (GeneratorState.with_error (Some e)
                      (GeneratorState.with_error None
                         (GeneratorState.with_isLoading true g))))
       (afterAdjust (User.uid u) debited s)).
Proof.
  intros Hgen. unfold ImageGenerator.handleGenerate. unfold_async. cbv beta iota zeta.
  rewrite Hprompt. cbn [negb].
  rewrite (deduct_reliable _ _ _ _ doc Huser Hafford Hreliable Hdoc).
  cbv beta iota. unfold_setters. unfold_async. rewrite Hgen. reflexivity.
Qed.

End Generation.

(** Saving a generated image touches neither the stored profiles nor the
    profile of the session. *)
Lemma saving_keeps_profiles (imageDataUrl generationPrompt docId : string) :
  keeps (fun s => World.users (Session.world s))
        (App.handleImageGenerated imageDataUrl generationPrompt docId).
Proof.
  unfold App.handleImageGenerated. frame.
  all: apply (Frame.keeps_call_world World.users).
  - unfold userService.uploadImage. world_frame.
  - unfold userService.addImageToGallery. world_frame.
Qed.

Lemma saving_keeps_user (imageDataUrl generationPrompt docId : string) :
  keeps (fun s => AppState.currentUser (Session.app s))
        (App.handleImageGenerated imageDataUrl generationPrompt docId).
Proof. unfold App.handleImageGenerated. frame. Qed.

(** Image generation ends on the debited ledger whatever the model call and
    the saving of the image do. *)
Lemma generation_ledger
      (reply : outcome geminiService.GenerateImagesResponse) (docId : string)
      (s : Session.t) (u doc : User.t) :
  AppState.currentUser (Session.app s) = Some u ->
  World.users (Session.world s) !! User.uid u = Some doc ->
  2 <= User.credits u ->
  reliable s ->
  Js.truthy (Js.trim (GeneratorState.prompt (Session.form s))) = true ->
  let s' := Async.exec (ImageGenerator.handleGenerate reply docId) s in
  let debited := adjusted (Z.opp 2) "Image Generation" (World.now (Session.world s)) doc in
  World.users (Session.world s') !! User.uid u = Some debited
  /\ AppState.currentUser (Session.app s') = Some (profileOf debited).
Proof.
  intros Huser Hdoc Hafford Hreliable Hprompt s' debited. subst s'. unfold Async.exec.
  destruct (ImageGenerator.handleGenerate reply docId s) as [r s'] eqn:Hrun. cbn [snd].
  unfold ImageGenerator.handleGenerate in Hrun.
  apply Frame.bind_runs in Hrun as [(snap & s0 & [= <- <-] & Hrun) | (e & [=] & _)].
  cbv zeta in Hrun. rewrite Hprompt in Hrun. cbn [negb] in Hrun.
  apply Frame.bind_runs in Hrun as [(deducted & s1 & Hdeduct & Hrun) | (e & Hdeduct & _)];
    rewrite (deduct_reliable _ _ _ _ doc Huser Hafford Hreliable Hdoc) in Hdeduct;
    [| discriminate].
  injection Hdeduct as <- <-. cbn [negb] in Hrun.
  match type of Hrun with
  | ?rest ?s1 = _ =>
      assert (Hw : keeps (fun s => World.users (Session.world s)) rest)
        by (frame; apply (Frame.keeps_call_world World.users);
            [unfold userService.uploadImage | unfold userService.addImageToGallery];
            world_frame);
      assert (Ha : keeps (fun s => AppState.currentUser (Session.app s)) rest)
        by frame;
      specialize (Hw s1); specialize (Ha s1)
  end.
  rewrite Hrun in Hw, Ha. cbn in Hw, Ha. rewrite Hw, Ha.
  split; [apply lookup_insert_eq | reflexivity].
Qed.

(** The balances after an adjustment. *)
Lemma adjusted_credits (amount : Z) (reason : string) (today : Z) (doc : User.t) :
  User.credits (adjusted amount reason today doc) = User.credits doc + amount.
Proof. reflexivity. Qed.

Lemma profileOf_credits (doc : User.t) : User.credits (profileOf doc) = User.credits doc.
Proof. reflexivity. Qed.

Lemma balances_of (s : Session.t) (uid : string) (doc : User.t) (balance : Z) :
  World.users (Session.world s) !! uid = Some doc ->
  AppState.currentUser (Session.app s) = Some (profileOf doc) ->
  User.credits doc = balance ->
  ledgerBalance uid s = Some balance /\ shownBalance s = Some balance.
Proof.
  intros Hw Ha <-. unfold ledgerBalance, shownBalance. rewrite Hw, Ha. split; reflexivity.
Qed.

(** Ledger conservation on the paths that refund: an edit (local edit,
    filter, adjustment all run [handleGenericEdit]) ends on the initial
    balance minus the cost when its artifact is produced, and on the initial
    balance when the operation fails. *)
Lemma edit_conservation (edited : outcome string) (cost : Z) (reason fileSuffix : string)
      (s : Session.t) (current : File.t) (u doc : User.t) :
  AppState.currentImage (Session.app s) = Some current ->
  AppState.currentUser (Session.app s) = Some u ->
  World.users (Session.world s) !! User.uid u = Some doc ->
  cost <= User.credits u -> reliable s ->
  let s' := Async.exec (App.handleGenericEdit edited cost reason fileSuffix) s in
  match artifactOf edited (editName fileSuffix s) with
  | Returns _ =>
      ledgerBalance (User.uid u) s' = Some (User.credits doc - cost)
      /\ shownBalance s' = Some (User.credits doc - cost)
  | Throws _ =>
      ledgerBalance (User.uid u) s' = Some (User.credits doc)
      /\ shownBalance s' = Some (User.credits doc)
  end.
Proof.
  intros Himage Huser Hdoc Hafford Hreliable s'. subst s'. unfold Async.exec.
  destruct (artifactOf edited (editName fileSuffix s)) as [file | e] eqn:Hart.
  - rewrite (edit_committed edited cost reason fileSuffix s current u doc
               Himage Huser Hdoc Hafford Hreliable file Hart).
    eapply balances_of.
    + cbn. apply lookup_insert_eq.
    + reflexivity.
    + rewrite adjusted_credits. lia.
  - destruct (edit_refunded edited cost reason fileSuffix s current u doc
                Himage Huser Hdoc Hafford Hreliable e Hart)
      as (s' & -> & Hw & Ha & _).
    eapply balances_of; [exact Hw | exact Ha |].
    rewrite !adjusted_credits. lia.
Qed.

(** The same for the upscale of a gallery entry. *)
Lemma upscale_conservation (image : GeneratedImage.t)
      (reply : outcome geminiService.GenerateContentResponse)
      (s : Session.t) (u doc : User.t) (gdoc : GalleryDoc.t) :
  AppState.currentUser (Session.app s) = Some u ->
  World.users (Session.world s) !! User.uid u = Some doc ->
  1 <= User.credits u -> reliable s ->
  World.gallery (Session.world s) !! (User.uid u, GeneratedImage.id image) = Some gdoc ->
  let s' := Async.exec (App.handleUpscaleImage image reply) s in
  match upscaledArtifact image reply with
  | Returns _ =>
      ledgerBalance (User.uid u) s' = Some (User.credits doc - 1)
      /\ shownBalance s' = Some (User.credits doc - 1)
  | Throws _ =>
      ledgerBalance (User.uid u) s' = Some (User.credits doc)
      /\ shownBalance s' = Some (User.credits doc)
  end.
Proof.
  intros Huser Hdoc Hafford Hreliable Hg s'. subst s'. unfold Async.exec.
  destruct (upscaledArtifact image reply) as [file | e] eqn:Hart.
  - destruct (upscale_committed image reply s u doc Huser Hdoc Hafford Hreliable
                file gdoc Hart Hg)
      as (s' & -> & Hw & Ha & _).
    eapply balances_of; [exact Hw | exact Ha |].
    rewrite adjusted_credits. lia.
  - destruct (upscale_refunded image reply s u doc Huser Hdoc Hafford Hreliable e Hart)
      as (s' & -> & Hw & Ha & _).
    eapply balances_of; [exact Hw | exact Ha |].
    rewrite !adjusted_credits. lia.
Qed.

Lemma exec_then_ret {A : Type} (m : Async Session.t A) (s : Session.t) :
  Async.exec (m ;; mret tt) s = Async.exec m s.
Proof.
  unfold Async.exec, mbind, Async_bind, Async.bind.
  destruct (m s) as [[a | e] s1]; reflexivity.
Qed.

Lemma local_edit_balances (edited : outcome string) (s : Session.t) (uid : string) :
  requestReady (LocalEdit edited) s ->
  let s' := Async.exec (App.handleGenerate edited) s in
  let s1 := Async.exec (App.handleGenericEdit edited 2 "AI Local Edit" "edited") s in
  ledgerBalance uid s' = ledgerBalance uid s1 /\ shownBalance s' = shownBalance s1.
Proof.
  intros (_ & Hprompt & Hspot). unfold App.handleGenerate, Async.exec. unfold_async.
  cbv beta iota zeta. rewrite Hprompt. rewrite bool_decide_true by exact Hspot.
  cbn [negb orb].
  destruct (App.handleGenericEdit edited 2 "AI Local Edit" "edited" s)
    as [[[[|] |] | e] s1]; split; reflexivity.
Qed.

(** The balance every guarded operation ends on, with the balance covering
    the cost and the ledger answering: the ledger is conserved by the edits
    and by the upscale; a failed image generation keeps the debit. *)
Lemma guarded_balances (op : GuardedOp) (s : Session.t) (u doc : User.t) :
  AppState.currentUser (Session.app s) = Some u ->
  World.users (Session.world s) !! User.uid u = Some doc ->
  cost op <= User.credits u ->
  reliable s ->
  requestReady op s ->
  (forall image reply, op = GalleryUpscale image reply ->
     is_Some (World.gallery (Session.world s) !! (User.uid u, GeneratedImage.id image))) ->
  let s' := Async.exec (invoke op) s in
  ledgerBalance (User.uid u) s' = Some (finalBalance (User.credits doc) op s)
  /\ shownBalance s' = Some (finalBalance (User.credits doc) op s).
Proof.
  intros Huser Hdoc Hafford Hreliable Hready Hentry s'. subst s'.
  unfold finalBalance.
  destruct op as [edited | filtered | adjusted | image reply | reply docId];
    cbn [invoke cost attempt requestReady] in *.
  - destruct Hready as ([current Himage] & Hprompt & Hspot).
    destruct (local_edit_balances edited s (User.uid u)) as [-> ->];
      [repeat split; eauto |].
    pose proof (edit_conservation edited 2 "AI Local Edit" "edited" s current u doc
                  Himage Huser Hdoc Hafford Hreliable) as H.
    cbv zeta in H. destruct (artifactOf edited (editName "edited" s)); exact H.
  - destruct Hready as [current Himage].
    unfold App.handleApplyFilter. rewrite exec_then_ret.
    pose proof (edit_conservation filtered 2 "AI Filter" "filtered" s current u doc
                  Himage Huser Hdoc Hafford Hreliable) as H.
    cbv zeta in H. destruct (artifactOf filtered (editName "filtered" s)); exact H.
  - destruct Hready as [current Himage].
    unfold App.handleApplyAdjustment. rewrite exec_then_ret.
    pose proof (edit_conservation adjusted 2 "AI Prompt Edit" "adjusted" s current u doc
                  Himage Huser Hdoc Hafford Hreliable) as H.
    cbv zeta in H. destruct (artifactOf adjusted (editName "adjusted" s)); exact H.
  - destruct (Hentry image reply eq_refl) as [gdoc Hg].
    rewrite exec_then_ret.
    pose proof (upscale_conservation image reply s u doc gdoc
                  Huser Hdoc Hafford Hreliable Hg) as H.
    cbv zeta in H. destruct (upscaledArtifact image reply); exact H.
  - destruct (generation_ledger reply docId s u doc Huser Hdoc Hafford Hreliable Hready)
      as [Hw Ha].
    assert (Hfinal : forall r : outcome unit,
               match r with Returns _ | _ => User.credits doc - 2 end
               = User.credits doc - 2) by (intros []; reflexivity).
    rewrite Hfinal.
    eapply balances_of; [exact Hw | exact Ha |]. rewrite adjusted_credits. lia.
Qed.

(** C1 (ledger conservation), where the code departs from it.  An image
    generation whose AI operation fails, run with every ledger write going
    through and a balance that covers the cost, ends on the initial balance
    minus 2: the debit is kept and no compensating refund is written. *)
Theorem generation_failure_keeps_debit
        (reply : outcome geminiService.GenerateImagesResponse) (docId : string)
        (s : Session.t) (u doc : User.t) (e : string) :
  AppState.currentUser (Session.app s) = Some u ->
  World.users (Session.world s) !! User.uid u = Some doc ->
  cost (Generation reply docId) <= User.credits u ->
  reliable s ->
  requestReady (Generation reply docId) s ->
  geminiService.generateImage reply = Throws e ->
  let s' := Async.exec (invoke (Generation reply docId)) s in
  ledgerBalance (User.uid u) s = Some (User.credits doc)
  /\ ledgerBalance (User.uid u) s' = Some (User.credits doc - 2)
  /\ shownBalance s' = Some (User.credits doc - 2)
  /\ User.creditHistory <$> World.users (Session.world s') !! User.uid u
     = Some (userService.arrayUnion (User.creditHistory doc)
               (CreditTransaction.mk "Image Generation" (-2)
                  (World.now (Session.world s)))).
Proof.
  intros Huser Hdoc Hafford Hreliable Hready Hgen s'. subst s'.
  cbn [invoke cost requestReady] in *. unfold Async.exec.
  rewrite (generation_failed reply docId s u doc Huser Hdoc Hafford Hreliable Hready e Hgen).
  unfold ledgerBalance, shownBalance. rewrite Hdoc. cbn.
  rewrite lookup_insert_eq. cbn.
  repeat split; f_equal; lia.
Qed.

(** A failing gateway under the generator, balance 10. *)
Lemma generation_failure_keeps_debit_witness :
  let s := Scenario.editing 10 [Scenario.original] 0 in
  let s' := Async.exec (invoke (Generation (Throws "fake gateway") "g2")) s in
  ledgerBalance "u1" s = Some 10
  /\ ledgerBalance "u1" s' = Some 8
  /\ shownBalance s' = Some 8.
Proof.
  pose proof (generation_failure_keeps_debit (Throws "fake gateway") "g2"
                (Scenario.editing 10 [Scenario.original] 0)
                (Scenario.alice 10) (Scenario.alice 10)
                "Failed to generate image. fake gateway"
                eq_refl eq_refl ltac:(vm_compute; discriminate) eq_refl eq_refl eq_refl)
    as (H0 & H1 & H2 & _).
  exact (conj H0 (conj H1 H2)).
Defined.

End Ledger.

Module GuardedOperation.

Import Spec.

Lemma deduct_keeps {X : Type} (view : AppState.t -> X) (amount : Z) (reason : string) :
  (forall v a, view (AppState.with_error v a) = view a) ->
  (forall v a, view (AppState.with_appMode v a) = view a) ->
  (forall v a, view (AppState.with_currentUser v a) = view a) ->
  keeps (fun s => view (Session.app s)) (App.handleDeductCredits amount reason).
Proof.
  intros He Hm Hu. unfold App.handleDeductCredits. frame.
  all: try (apply Frame.keeps_set; intros ?; cbn; auto).
Qed.

(** A generic edit writes the history, the error, the loading flag, the
    crop and the profile; a view of the other cells is kept. *)
Lemma generic_edit_keeps {X : Type} (view : AppState.t -> X)
      (edited : outcome string) (cost : Z) (reason fileSuffix : string) :
  (forall v a, view (AppState.with_error v a) = view a) ->
  (forall v a, view (AppState.with_appMode v a) = view a) ->
  (forall v a, view (AppState.with_currentUser v a) = view a) ->
  (forall v a, view (AppState.with_isLoading v a) = view a) ->
  (forall v a, view (AppState.with_history v a) = view a) ->
  (forall v a, view (AppState.with_historyIndex v a) = view a) ->
  (forall v a, view (AppState.with_crop v a) = view a) ->
  (forall v a, view (AppState.with_completedCrop v a) = view a) ->
  keeps (fun s => view (Session.app s))
        (App.handleGenericEdit edited cost reason fileSuffix).
Proof.
  intros He Hm Hu Hl Hh Hi Hc Hcc.
  unfold App.handleGenericEdit, App.addImageToHistory, App.uidOf. frame.
  all: try (apply deduct_keeps; assumption).
  all: try (apply Frame.keeps_set; intros ?; cbn; auto).
Qed.

Lemma local_edit_hotspot (edited : outcome string) (s : Session.t) :
  let s' := Async.exec (App.handleGenerate edited) s in
  (hotspot s' = if localEditSucceeds edited s then None else hotspot s)
  /\ (hotspotMarker s' = if localEditSucceeds edited s then None else hotspotMarker s).
Proof.
  unfold localEditSucceeds, Async.exec, Async.result, App.handleGenerate.
  unfold_async. cbv beta iota zeta.
  destruct (Js.truthy (Js.trim (AppState.prompt (Session.app s)))); cbn [negb orb andb];
    [| split; reflexivity].
  destruct (AppState.editHotspot (Session.app s)) as [h |] eqn:Hh;
    [| split; reflexivity].
  rewrite bool_decide_true by eauto. cbn [negb andb].
  pose proof (generic_edit_keeps AppState.editHotspot edited 2 "AI Local Edit" "edited"
                ltac:(reflexivity) ltac:(reflexivity) ltac:(reflexivity)
                ltac:(reflexivity) ltac:(reflexivity) ltac:(reflexivity)
                ltac:(reflexivity) ltac:(reflexivity) s) as Hedit.
  pose proof (generic_edit_keeps AppState.displayHotspot edited 2 "AI Local Edit" "edited"
                ltac:(reflexivity) ltac:(reflexivity) ltac:(reflexivity)
                ltac:(reflexivity) ltac:(reflexivity) ltac:(reflexivity)
                ltac:(reflexivity) ltac:(reflexivity) s) as Hmark.
  cbv beta in Hedit, Hmark. unfold hotspot, hotspotMarker.
  destruct (App.handleGenericEdit edited 2 "AI Local Edit" "edited" s)
    as [[[[|] |] | e] s1]; cbn in *; rewrite <- ?Hh; auto.
Qed.

(** C4, as amended (hotspot clearing).  An undo that is available clears the
    hotspot and its marker, and so does a redo that is available; one that
    is not available changes nothing.  A local edit clears them when it is
    attempted and succeeds; when it fails, or is not attempted, they stay. *)
Theorem hotspot_clearing (edited : outcome string) (s : Session.t) :
  (hotspot (Async.exec App.handleUndo s)
     = if AppState.canUndo (Session.app s) then None else hotspot s)
  /\ (hotspotMarker (Async.exec App.handleUndo s)
        = if AppState.canUndo (Session.app s) then None else hotspotMarker s)
  /\ (hotspot (Async.exec App.handleRedo s)
        = if AppState.canRedo (Session.app s) then None else hotspot s)
  /\ (hotspotMarker (Async.exec App.handleRedo s)
        = if AppState.canRedo (Session.app s) then None else hotspotMarker s)
  /\ (hotspot (Async.exec (invoke (LocalEdit edited)) s)
        = if localEditSucceeds edited s then None else hotspot s)
  /\ (hotspotMarker (Async.exec (invoke (LocalEdit edited)) s)
        = if localEditSucceeds edited s then None else hotspotMarker s).
Proof.
  rewrite EditHistory.undo_spec, EditHistory.redo_spec.
  destruct (local_edit_hotspot edited s) as [Hh Hm].
  repeat split; try assumption.
  all: destruct (AppState.canUndo (Session.app s)), (AppState.canRedo (Session.app s));
    reflexivity.
Qed.

(** C4, as stated, fails: a local edit whose AI operation fails leaves the
    hotspot in place. *)
Lemma failed_local_edit_keeps_hotspot :
  let s := Scenario.editing 10 [Scenario.original] 0 in
  let s' := Async.exec (invoke (LocalEdit (Throws "fake gateway"))) s in
  hotspot s = Some (AppState.mkHotspot 10 20)
  /\ hotspot s' = Some (AppState.mkHotspot 10 20)
  /\ AppState.error (Session.app s')
     = Some "Failed to ai local edit. fake gateway".
Proof. repeat split. Qed.

(** With the usual preconditions in place, the success of a local edit is
    the success of its AI operation and of the conversion of its payload. *)
Lemma local_edit_succeeds_iff (edited : outcome string) (s : Session.t)
      (current : File.t) (u doc : User.t) :
  requestReady (LocalEdit edited) s ->
  AppState.currentImage (Session.app s) = Some current ->
  AppState.currentUser (Session.app s) = Some u ->
  World.users (Session.world s) !! User.uid u = Some doc ->
  2 <= User.credits u -> reliable s ->
  localEditSucceeds edited s
  = match artifactOf edited (editName "edited" s) with
    | Returns _ => true
    | Throws _ => false
    end.
Proof.
  intros (_ & Hprompt & Hspot) Himage Huser Hdoc Hafford Hreliable.
  unfold localEditSucceeds, Async.result. rewrite Hprompt.
  rewrite bool_decide_true by exact Hspot. cbn [andb].
  destruct (artifactOf edited (editName "edited" s)) as [file | e] eqn:Hart.
  - rewrite (Ledger.edit_committed edited 2 "AI Local Edit" "edited" s current u doc
               Himage Huser Hdoc Hafford Hreliable file Hart).
    reflexivity.
  - destruct (Ledger.edit_refunded edited 2 "AI Local Edit" "edited" s current u doc
                Himage Huser Hdoc Hafford Hreliable e Hart) as (s' & -> & _).
    reflexivity.
Qed.

Lemma generic_edit_insufficient (edited : outcome string) (cost : Z)
      (reason fileSuffix : string) (s : Session.t) (u : User.t) :
  AppState.currentUser (Session.app s) = Some u -> User.credits u < cost ->
  App.handleGenericEdit edited cost reason fileSuffix s
  = (Returns None,
     match AppState.currentImage (Session.app s) with
     | None => Session.with_app (AppState.with_error (Some "No image loaded to edit.")) s
     | Some _ =>
         Session.with_app
           (fun a => AppState.with_appMode AppMode.pricing
                       (AppState.with_error
                          (Some (insufficientCredits cost (User.credits u))) a)) s
     end).
Proof.
  intros Hu Hlt. unfold App.handleGenericEdit. unfold_async. cbv beta iota.
  destruct (AppState.currentImage (Session.app s)); [| reflexivity].
  rewrite (Ledger.deduct_insufficient cost reason s u Hu Hlt). reflexivity.
Qed.

(** Closes the frame part of a goal, and the report part on the paths
    where the request was not ready. *)
Ltac not_ready :=
  repeat split; intros;
  repeat match goal with
         | H : _ /\ _ |- _ => destruct H
         | H : is_Some None |- _ => destruct H as [? [=]]
         end;
  try discriminate; try reflexivity.

(** C3 (insufficient credits is non-mutating).  A guarded operation invoked
    with a balance below its cost writes nothing to the remote stores, so no
    debit is made; it leaves the balance and the edit history as they were;
    and, the request being ready to run, it reports the insufficient-credits
    condition with the required and the available amounts and routes to the
    purchase flow. *)
Theorem insufficient_credits_non_mutating (op : GuardedOp) (s : Session.t) (u : User.t) :
  AppState.currentUser (Session.app s) = Some u ->
  User.credits u < cost op ->
  let s' := Async.exec (invoke op) s in
  Session.world s' = Session.world s
  /\ AppState.currentUser (Session.app s') = Some u
  /\ sequence s' = sequence s /\ cursor s' = cursor s
  /\ (requestReady op s ->
      AppState.error (Session.app s')
      = Some (insufficientCredits (cost op) (User.credits u))
      /\ AppState.appMode (Session.app s') = AppMode.pricing).
Proof.
  intros Hu Hlt s'. subst s'. unfold Async.exec, sequence, cursor.
  destruct op as [edited | filtered | adjusted | image reply | reply docId];
    cbn [invoke cost requestReady] in *.
  - unfold App.handleGenerate. unfold_async. cbv beta iota zeta.
    destruct (Js.truthy (Js.trim (AppState.prompt (Session.app s)))) eqn:Hp;
      cbn [negb orb]; [| cbn; rewrite Hu; not_ready].
    destruct (AppState.editHotspot (Session.app s)) as [h |] eqn:Hh;
      [| cbn; rewrite Hu; not_ready].
    rewrite bool_decide_true by eauto. cbn [negb].
    rewrite (generic_edit_insufficient edited 2 _ _ s u Hu Hlt).
    destruct (AppState.currentImage (Session.app s)) eqn:Hi; cbn; rewrite Hu; not_ready.
  - unfold App.handleApplyFilter. unfold_async.
    rewrite (generic_edit_insufficient filtered 2 _ _ s u Hu Hlt).
    destruct (AppState.currentImage (Session.app s)) eqn:Hi; cbn; rewrite Hu; not_ready.
  - unfold App.handleApplyAdjustment. unfold_async.
    rewrite (generic_edit_insufficient adjusted 2 _ _ s u Hu Hlt).
    destruct (AppState.currentImage (Session.app s)) eqn:Hi; cbn; rewrite Hu; not_ready.
  - unfold App.handleUpscaleImage. unfold_async. cbv beta iota zeta. rewrite Hu.
    rewrite (Ledger.deduct_insufficient 1 _ s u Hu Hlt). cbn. rewrite Hu.
    not_ready.
  - unfold ImageGenerator.handleGenerate. unfold_async. cbv beta iota zeta.
    destruct (Js.truthy (Js.trim (GeneratorState.prompt (Session.form s)))) eqn:Hp;
      cbn [negb]; [| cbn; rewrite Hu; not_ready].
    rewrite (Ledger.deduct_insufficient 2 _ s u Hu Hlt). cbn. rewrite Hu.
    not_ready.
Qed.

(** Scenario A: balance 1, cost 2, local edit. *)
Lemma scenario_A :
  let s := Scenario.editing 1 [Scenario.original] 0 in
  let s' := Async.exec (invoke (LocalEdit (Returns "data:image/png;base64,aGVsbG8="))) s in
  ledgerBalance "u1" s' = Some 1
  /\ shownBalance s' = Some 1
  /\ sequence s' = [Scenario.original]
  /\ AppState.error (Session.app s')
     = Some "You need 2 credits for this action, but you only have 1. Please purchase more.".
Proof.
  pose proof (insufficient_credits_non_mutating
                (LocalEdit (Returns "data:image/png;base64,aGVsbG8="))
                (Scenario.editing 1 [Scenario.original] 0) (Scenario.alice 1)
                eq_refl ltac:(vm_compute; reflexivity))
    as (Hw & Hu & Hs & _ & Hreport).
  cbv zeta. unfold ledgerBalance, shownBalance. rewrite Hw, Hu, Hs.
  destruct Hreport as [He _].
  { repeat split; eexists; reflexivity. }
  rewrite He. repeat split.
Defined.

End GuardedOperation.

Module SignUp.

Import Spec.

(** C9 (sign-up profile).  When the store answers, creating a profile
    returns and stores, under the identity of the account, a profile with
    that identity, the given name and the e-mail of the account, a balance of
    exactly 25 and a credit history of exactly one transaction, of reason
    "Sign-up bonus" and amount +25 and dated now, so that the balance is the
    sum of the recorded amounts; the profile read back next is that profile;
    and no other profile changes.  When the store is unavailable the creation
    throws and no profile is stored.  The gallery and the blobs are untouched
    either way. *)
Theorem sign_up_profile (userAuth : userService.AuthUser) (name : string) (w : World.t) :
  let r := fst (userService.createUserProfile userAuth name w) in
  let w' := snd (userService.createUserProfile userAuth name w) in
  let uid := userService.auth_uid userAuth in
  match World.outages w with
  | true :: _ => (exists e, r = Throws e) /\ World.users w' = World.users w
  | _ =>
      r = Returns tt
      /\ (exists profile,
            World.users w' !! uid = Some profile
            /\ User.uid profile = uid
            /\ User.name profile = name
            /\ User.email profile = userService.auth_email userAuth
            /\ User.credits profile = 25
            /\ User.creditHistory profile
               = [CreditTransaction.mk "Sign-up bonus" 25 (World.now w)]
            /\ User.credits profile = sumAmounts (User.creditHistory profile)
            /\ (World.outages w' = [] ->
                fst (userService.getUserProfile uid w') = Returns (Some profile)))
      /\ (forall other, other <> uid -> World.users w' !! other = World.users w !! other)
  end
  /\ World.gallery w' = World.gallery w
  /\ World.storage w' = World.storage w.
Proof.
  intros r w' uid. subst r w' uid.
  assert (Hstored : forall w1 : World.t,
             World.now w1 = World.now w ->
             let w' := World.set_users
                         (<[userService.auth_uid userAuth
                            := userService.newUser userAuth name (World.now w)]>
                            (World.users w)) w1 in
             (exists profile,
                World.users w' !! userService.auth_uid userAuth = Some profile
                /\ User.uid profile = userService.auth_uid userAuth
                /\ User.name profile = name
                /\ User.email profile = userService.auth_email userAuth
                /\ User.credits profile = 25
                /\ User.creditHistory profile
                   = [CreditTransaction.mk "Sign-up bonus" 25 (World.now w)]
                /\ User.credits profile = sumAmounts (User.creditHistory profile)
                /\ (World.outages w' = [] ->
                    fst (userService.getUserProfile (userService.auth_uid userAuth) w')
                    = Returns (Some profile)))
             /\ (forall other,
                   other <> userService.auth_uid userAuth ->
                   World.users w' !! other = World.users w !! other)).
  { intros w1 Hnow w'. subst w'. split.
    - exists (userService.newUser userAuth name (World.now w)).
      cbn [World.users World.set_users]. rewrite lookup_insert_eq.
      repeat (split; [reflexivity |]).
      intros Hout. rewrite Ledger.getUserProfile_reliable by exact Hout.
      cbn [World.users World.set_users fst]. rewrite lookup_insert_eq. reflexivity.
    - intros other Hne. cbn [World.users World.set_users].
      apply lookup_insert_ne. congruence. }
  unfold userService.createUserProfile, World.remote. unfold_async. cbv beta iota.
  destruct (World.outages w) as [| [|] rest] eqn:Hout; cbn [fst snd].
  - split; [| split; reflexivity]. split; [reflexivity |].
    apply (Hstored w eq_refl).
  - split; [| split; reflexivity]. split; [eauto | reflexivity].
  - split; [| split; reflexivity]. split; [reflexivity |].
    apply (Hstored (World.set_outages rest w) eq_refl).
Qed.

End SignUp.

Module Gateway.

Import Spec.
Import geminiService.

Lemma truthy_spec (s : string) : Js.truthy s = true <-> s <> "".
Proof. destruct s; cbn; split; congruence. Qed.

Lemma blocked_spec (r : GenerateContentResponse) :
  truthyField (promptFeedback r ≫= blockReason) = true <-> blocked r.
Proof.
  unfold blocked, truthyField. split.
  - destruct (promptFeedback r) as [feedback |]; cbn; [| discriminate].
    destruct (blockReason feedback) as [reason |] eqn:Hr; [| discriminate].
    intros Ht. exists feedback, reason. rewrite <- truthy_spec. auto.
  - intros (feedback & reason & -> & Hr & Hne). cbn. rewrite Hr.
    apply truthy_spec, Hne.
Qed.

Lemma find_inline (l : list Part) :
  is_Some (List.find (fun part => bool_decide (is_Some (inlineData part))) l ≫= inlineData)
  <-> exists part, part ∈ l /\ is_Some (inlineData part).
Proof.
  induction l as [| p l IH]; cbn.
  - split; [intros [? [=]] | intros (part & Hin & _); inversion Hin].
  - destruct (inlineData p) as [i |] eqn:Hp.
    + rewrite bool_decide_true by eauto. cbn. rewrite Hp. split; [| eauto].
      intros _. exists p. split; [left | rewrite Hp; eauto].
    + rewrite bool_decide_false by (intros [? [=]]). rewrite IH. split.
      * intros (part & Hin & Hsome). exists part. split; [right; exact Hin | exact Hsome].
      * intros (part & Hin & Hsome). inversion Hin; subst.
        -- rewrite Hp in Hsome. destruct Hsome as [? [=]].
        -- eauto.
Qed.

Lemma image_spec (r : GenerateContentResponse) :
  is_Some (imagePart r ≫= inlineData) <-> hasInlineImage r.
Proof.
  unfold hasInlineImage, partsOf, imagePart, firstCandidate.
  destruct (candidates r) as [[| candidate rest] |]; cbn.
  1, 3: split; [intros [? [=]] | intros (part & Hin & _); inversion Hin].
  destruct (content candidate) as [c |]; cbn.
  2: split; [intros [? [=]] | intros (part & Hin & _); inversion Hin].
  destruct (parts c) as [l |]; cbn.
  2: split; [intros [? [=]] | intros (part & Hin & _); inversion Hin].
  apply find_inline.
Qed.

Lemma stopped_spec (r : GenerateContentResponse) :
  (truthyField (firstCandidate r ≫= finishReason)
   && negb (String.eqb (render (firstCandidate r ≫= finishReason)) "STOP")) = true
  <-> stoppedEarly r.
Proof.
  unfold stoppedEarly, firstCandidate, truthyField. split.
  - destruct (candidates r) as [[| candidate rest] |]; cbn; try discriminate.
    destruct (finishReason candidate) as [reason |] eqn:Hf; cbn; [| discriminate].
    intros [Ht Hne]%andb_prop. exists candidate, rest, reason.
    repeat split; [exact Hf | apply truthy_spec, Ht |].
    intros ->. discriminate.
  - intros (candidate & rest & reason & -> & Hf & Hne & Hstop). cbn. rewrite Hf. cbn.
    apply andb_true_intro. split; [apply truthy_spec, Hne |].
    destruct (String.eqb_spec reason "STOP"); [contradiction | reflexivity].
Qed.

Lemma classification_unique (r : GenerateContentResponse) (c c' : Classification) :
  classifies r c -> classifies r c' -> c = c'.
Proof. intros H H'. destruct H; destruct H'; try reflexivity; contradiction. Qed.

(** C6, as amended (response classification).  Every response falls in
    exactly one of the four classes.  The gateway returns an image payload,
    the data URL made of the inline part, exactly when the response carries
    no block reason and the first candidate contains an inline image part.
    In the three other classes it throws one error: for a blocked response
    the message carries the block reason and the block message and does not
    depend on the operation context; for an early stop it carries the
    context and the finish reason; for a missing image it carries the
    context and a detail. *)
Theorem response_classification (r : GenerateContentResponse) (context : string) :
  (exists c,
      classifies r c
      /\ (forall c', classifies r c' -> c' = c)
      /\ match c with
         | Blocked =>
             exists feedback reason,
               promptFeedback r = Some feedback
               /\ blockReason feedback = Some reason
               /\ handleApiResponse r context
                  = Throws ("Request was blocked. Reason: " ++ reason ++ ". "
                              ++ orEmpty (blockReasonMessage feedback))
         | Success =>
             exists part image,
               part ∈ partsOf r /\ inlineData part = Some image
               /\ handleApiResponse r context
                  = Returns ("data:" ++ render (mimeType image) ++ ";base64,"
                               ++ render (data image))
         | ModelStoppedEarly =>
             exists reason,
               firstCandidate r ≫= finishReason = Some reason
               /\ handleApiResponse r context
                  = Throws ("Image generation for " ++ context
                              ++ " stopped unexpectedly. Reason: " ++ reason
                              ++ ". This often relates to safety settings.")
         | NoImageReturned =>
             exists detail,
               handleApiResponse r context
               = Throws ("The AI model did not return an image for the " ++ context
                           ++ ". " ++ detail)
         end)
  /\ ((exists payload, handleApiResponse r context = Returns payload)
      <-> ~ blocked r /\ hasInlineImage r).
Proof.
  pose proof (blocked_spec r) as Hb.
  pose proof (image_spec r) as Hi.
  pose proof (stopped_spec r) as Hs.
  unfold handleApiResponse.
  destruct (truthyField (promptFeedback r ≫= blockReason)) eqn:Eb.
  { assert (Hblocked : blocked r) by (apply Hb; reflexivity).
    split.
    - exists Blocked. split; [constructor; exact Hblocked |].
      split; [intros c' Hc'; eapply classification_unique; eauto using classifies |].
      destruct Hblocked as (feedback & reason & Hf & Hr & Hne).
      exists feedback, reason. rewrite Hf. cbn. rewrite Hr. cbn. auto.
    - split; [intros [? [=]] | intros [Hnb _]; contradiction]. }
  assert (Hnb : ~ blocked r) by (intros H; apply Hb in H; discriminate).
  destruct (imagePart r ≫= inlineData) as [image |] eqn:Ei.
  { assert (Himage : hasInlineImage r) by (apply Hi; eauto).
    split.
    - exists Success. split; [constructor; assumption |].
      split; [intros c' Hc'; eapply classification_unique; eauto using classifies |].
      destruct (imagePart r) as [part |] eqn:Ep; [| discriminate]. cbn in Ei.
      exists part, image. repeat split; [| exact Ei].
      unfold imagePart, partsOf, firstCandidate in *.
      destruct (candidates r) as [[| candidate rest] |]; try discriminate. cbn in Ep.
      destruct (content candidate) as [c |]; [| discriminate]. cbn in Ep.
      destruct (parts c) as [l |]; [| discriminate]. cbn in Ep.
      apply list_elem_of_In. eapply List.find_some, Ep.
    - split; eauto. }
  assert (Hni : ~ hasInlineImage r) by (intros H; apply Hi in H; destruct H as [? [=]]).
  split; [| split; [intros [? H] | intros [_ H]; contradiction]].
  2: { destruct (_ && _) in H; discriminate. }
  destruct (truthyField (firstCandidate r ≫= finishReason)
            && negb (String.eqb (render (firstCandidate r ≫= finishReason)) "STOP"))
    eqn:Es.
  - assert (Hstop : stoppedEarly r) by (apply Hs; reflexivity).
    exists ModelStoppedEarly. split; [constructor; assumption |].
    split; [intros c' Hc'; eapply classification_unique; eauto using classifies |].
    destruct (firstCandidate r ≫= finishReason) as [reason |]; [| discriminate].
    exists reason. split; reflexivity.
  - assert (Hns : ~ stoppedEarly r) by (intros H; apply Hs in H; discriminate).
    exists NoImageReturned. split; [constructor; assumption |].
    split; [intros c' Hc'; eapply classification_unique; eauto using classifies |].
    eexists. reflexivity.
Qed.

(** C6, as stated, fails: the error of a blocked response does not carry the
    operation context. *)
Lemma blocked_error_omits_context :
  classifies Scenario.blockedResponse Blocked
  /\ handleApiResponse Scenario.blockedResponse "upscale"
     = Throws "Request was blocked. Reason: SAFETY. "
  /\ mentions "upscale" "Request was blocked. Reason: SAFETY. " = false.
Proof.
  split; [| split; reflexivity].
  constructor. exists (mkPromptFeedback (Some "SAFETY") None), "SAFETY".
  repeat split. discriminate.
Qed.

End Gateway.

Module ArtifactStore.

Import Spec.

Lemma append_nil (s : string) : "" ++ s = s.
Proof. reflexivity. Qed.

Lemma append_cons (a : ascii) (h t : string) : String a h ++ t = String a (h ++ t).
Proof. reflexivity. Qed.

Ltac scbn := rewrite ?append_cons, ?append_nil; cbn.
Ltac scbn_in H := rewrite ?append_cons, ?append_nil in H; cbn in H.
Ltac snorm := rewrite ?append_cons, ?append_nil in *.

(** *** Splitting at commas *)

Lemma occurs_dec (c : ascii) (s : string) : {occurs c s} + {~ occurs c s}.
Proof.
  induction s as [| a s IH]; scbn; [right; tauto |].
  destruct (ascii_dec c a) as [-> | Hne]; [left; left; reflexivity |].
  destruct IH as [Hin | Hout]; [left; right; exact Hin | right; tauto].
Defined.

Lemma occurs_first (c : ascii) (s : string) :
  occurs c s -> exists h t, s = h ++ String c t /\ ~ occurs c h.
Proof.
  induction s as [| a s IH]; scbn; [tauto |]. intros Hin.
  destruct (ascii_dec c a) as [-> | Hne].
  - exists "", s. split; [reflexivity | tauto].
  - destruct Hin as [-> | Hin]; [contradiction |].
    destruct (IH Hin) as (h & t & -> & Hh).
    exists (String a h), t. split; [reflexivity |]. scbn. tauto.
Qed.

Lemma occurs_app (c : ascii) (h t : string) : occurs c (h ++ String c t).
Proof. induction h as [| a h IH]; scbn; [left; reflexivity | right; exact IH]. Qed.

Lemma split_nonempty (sep : ascii) (s : string) : Js.split sep s <> [].
Proof.
  induction s as [| a s IH]; scbn; [discriminate |].
  destruct (Ascii.eqb a sep); [discriminate |].
  destruct (Js.split sep s); discriminate.
Qed.

Lemma split_without (sep : ascii) (s : string) :
  ~ occurs sep s -> Js.split sep s = [s].
Proof.
  induction s as [| a s IH]; scbn; intros H; [reflexivity |].
  destruct (Ascii.eqb_spec a sep) as [-> | Hne]; [tauto |].
  rewrite IH by tauto. reflexivity.
Qed.

Lemma split_at_first (sep : ascii) (h t : string) :
  ~ occurs sep h -> Js.split sep (h ++ String sep t) = h :: Js.split sep t.
Proof.
  induction h as [| a h IH]; scbn; intros H.
  - rewrite ?Ascii.eqb_refl. reflexivity.
  - destruct (Ascii.eqb_spec a sep) as [-> | Hne]; [tauto |].
    rewrite IH by tauto. reflexivity.
Qed.

Lemma split_headerBody (payload header body : string) :
  headerBody payload header body ->
  exists rest, Js.split "," payload = header :: body :: rest.
Proof.
  intros (Hh & Hb & [-> | [rest ->]]).
  - exists []. rewrite ?append_cons, ?append_nil. rewrite split_at_first, split_without by assumption.
    reflexivity.
  - exists (Js.split "," rest). rewrite ?append_cons, ?append_nil.
    rewrite !split_at_first by assumption. reflexivity.
Qed.

Lemma headerBody_exists (payload : string) :
  hasComma payload -> exists header body, headerBody payload header body.
Proof.
  intros Hc. destruct (occurs_first _ _ Hc) as (h & t & -> & Hh).
  destruct (occurs_dec "," t) as [Ht | Ht].
  - destruct (occurs_first _ _ Ht) as (b & rest & -> & Hb).
    exists h, b. repeat split; [assumption .. |]. right. exists rest. reflexivity.
  - exists h, t. repeat split; [assumption .. |]. left. reflexivity.
Qed.

Lemma headerBody_hasComma (payload header body : string) :
  headerBody payload header body -> hasComma payload.
Proof. intros (_ & _ & [-> | [rest ->]]); apply occurs_app. Qed.

(** *** The pattern that selects the MIME segment *)

Lemma lazy_sound (s g : string) :
  Js.lazy_until_semicolon s = Some g ->
  oneLine g /\ ~ occurs ";" g /\ exists post, s = g ++ String ";" post.
Proof.
  revert g. induction s as [| a s IH]; scbn; intros g H; [discriminate |].
  destruct (Ascii.eqb_spec a ";") as [-> | Hne].
  - injection H as <-. scbn. repeat split; [tauto | exists s; reflexivity].
  - destruct (Js.isLineTerminator a) eqn:Hlt; [discriminate |].
    destruct (Js.lazy_until_semicolon s) as [g' |]; [| discriminate].
    injection H as <-. destruct (IH g' eq_refl) as (Hone & Hsemi & post & ->).
    scbn. repeat split; [assumption .. | | exists post; reflexivity].
    intros [Heq | Hin]; [congruence | tauto].
Qed.

Lemma lazy_some (m post : string) :
  oneLine m -> is_Some (Js.lazy_until_semicolon (m ++ String ";" post)).
Proof.
  induction m as [| a m IH]; scbn; intros Hone.
  - rewrite ?Ascii.eqb_refl. eauto.
  - destruct (Ascii.eqb a ";"); [eauto |].
    destruct Hone as [-> Hone]. destruct (IH Hone) as [g ->]. scbn. eauto.
Qed.

Lemma lazy_complete (m post : string) :
  oneLine m -> ~ occurs ";" m ->
  Js.lazy_until_semicolon (m ++ String ";" post) = Some m.
Proof.
  induction m as [| a m IH]; scbn; intros Hone Hsemi.
  - rewrite ?Ascii.eqb_refl. reflexivity.
  - destruct (Ascii.eqb_spec a ";") as [-> | Hne]; [tauto |].
    destruct Hone as [-> Hone]. rewrite IH by tauto. reflexivity.
Qed.

Lemma match_sound (header mime : string) :
  Js.match_colon_semicolon header = Some mime -> mimeSegment header mime.
Proof.
  induction header as [| a h IH]; scbn; intros H; [discriminate |].
  assert (Hlater : Js.match_colon_semicolon h = Some mime ->
                   (a = ":"%char -> Js.lazy_until_semicolon h = None) ->
                   mimeSegment (String a h) mime).
  { intros Hm Hnone. destruct (IH Hm) as (pre & post & -> & Hone & Hsemi & Hleft).
    exists (String a pre), post. repeat split; [assumption .. |].
    intros [| c pre'] mime' post' Heq Hone'; snorm.
    - injection Heq as -> Heq.
      specialize (Hnone eq_refl). rewrite Heq in Hnone.
      destruct (lazy_some mime' post' Hone') as [g Hg]. congruence.
    - injection Heq as _ Heq. scbn. apply le_n_S.
      apply (Hleft pre' mime' post'); [exact Heq | exact Hone']. }
  destruct (Ascii.eqb_spec a ":") as [-> | Hne].
  - destruct (Js.lazy_until_semicolon h) as [g |] eqn:Hlazy.
    + injection H as <-. destruct (lazy_sound _ _ Hlazy) as (Hone & Hsemi & post & ->).
      exists "", post. repeat split; [assumption .. |]. intros. scbn. lia.
    + apply Hlater; auto.
  - apply Hlater; [exact H | contradiction].
Qed.

Lemma match_complete (header mime : string) :
  mimeSegment header mime -> Js.match_colon_semicolon header = Some mime.
Proof.
  intros (pre & post & -> & Hone & Hsemi & Hleft).
  induction pre as [| a pre IH]; scbn.
  - rewrite ?Ascii.eqb_refl. scbn. rewrite lazy_complete by assumption. reflexivity.
  - assert (Hrest : Js.match_colon_semicolon
                      (pre ++ String ":" (mime ++ String ";" post)) = Some mime).
    { apply IH. intros pre' mime' post' Heq Hone'.
      specialize (Hleft (String a pre') mime' post'). scbn_in Hleft.
      scbn_in Heq. rewrite Heq in Hleft. specialize (Hleft eq_refl Hone'). lia. }
    destruct (Ascii.eqb_spec a ":") as [-> | Hne]; [| exact Hrest].
    destruct (Js.lazy_until_semicolon (pre ++ String ":" (mime ++ String ";" post)))
      as [g |] eqn:Hlazy; [| exact Hrest].
    destruct (lazy_sound _ _ Hlazy) as (Hg & _ & post' & Heq).
    specialize (Hleft "" g post'). scbn_in Hleft. scbn_in Heq. rewrite Heq in Hleft.
    specialize (Hleft eq_refl Hg). lia.
Qed.

Lemma parsable_spec (header : string) :
  parsableMime header
  <-> exists mime, Js.match_colon_semicolon header = Some mime /\ Js.truthy mime = true.
Proof.
  split; intros (mime & Hm & Hne); exists mime.
  - split; [apply match_complete, Hm | destruct mime; [contradiction | reflexivity]].
  - split; [apply match_sound, Hm | intros ->; discriminate].
Qed.

(** *** The byte array *)

Lemma get_lookup (s : string) (n : nat) :
  String.get n s = list_ascii_of_string s !! n.
Proof.
  revert n. induction s as [| a s IH]; intros [| n]; scbn; try reflexivity. apply IH.
Qed.

Lemma bytesOf_length (s : string) : length (bytesOf s) = String.length s.
Proof.
  unfold bytesOf. rewrite length_map.
  induction s as [| a s IH]; scbn; [reflexivity | f_equal; exact IH].
Qed.

Lemma bytesOf_lookup (s : string) (n : nat) :
  (n < String.length s)%nat ->
  bytesOf s !! n = Some (byte_of_ascii (default Ascii.zero (String.get n s))).
Proof.
  intros Hn. unfold bytesOf. rewrite list_lookup_fmap, get_lookup.
  destruct (list_ascii_of_string s !! n) as [a |] eqn:Hl; [reflexivity |].
  apply lookup_ge_None in Hl.
  pose proof (bytesOf_length s) as Hlen. unfold bytesOf in Hlen.
  rewrite length_map in Hlen. lia.
Qed.

Lemma fillBytes_spec (bstr : string) (n : nat) (u8arr : list Byte.byte) :
  length u8arr = String.length bstr -> (n <= String.length bstr)%nat ->
  App.fillBytes bstr n u8arr = (take n (bytesOf bstr) ++ drop n u8arr)%list.
Proof.
  revert u8arr. induction n as [| n IH]; intros u8arr Hlen Hn; cbn [App.fillBytes].
  - rewrite take_0, drop_0. reflexivity.
  - rewrite IH by (rewrite ?length_insert; lia).
    rewrite (take_S_r _ _ _ (bytesOf_lookup bstr n ltac:(lia))).
    rewrite <- app_assoc. f_equal. cbn [app].
    rewrite insert_take_drop by lia.
    rewrite drop_app_length' by (rewrite length_take; lia). reflexivity.
Qed.

Lemma u8arr_spec (bstr : string) :
  App.fillBytes bstr (String.length bstr) (replicate (String.length bstr) Byte.x00)
  = bytesOf bstr.
Proof.
  rewrite fillBytes_spec by (rewrite ?length_replicate; lia).
  rewrite take_ge by (rewrite bytesOf_length; lia).
  rewrite drop_ge by (rewrite length_replicate; lia).
  apply app_nil_r.
Qed.

(** *** The conversion *)

(** *** The type of the file *)

Lemma allPrintableAscii_spec (s : string) :
  Js.allPrintableAscii s = true <-> printable s.
Proof.
  unfold printable. induction s as [| a s IH]; cbn.
  - split; [intros _ c [] | reflexivity].
  - rewrite andb_true_iff, IH. unfold Js.isPrintableAscii.
    rewrite andb_true_iff, !N.leb_le. split.
    + intros [Ha Hs] c [-> | Hc]; [exact Ha | apply Hs, Hc].
    + intros H. split.
      * exact (H a (or_introl eq_refl)).
      * intros c Hc. apply H. right. exact Hc.
Qed.

Lemma asciiLowercase_id (s : string) : noUpperCase s -> Js.asciiLowercase s = s.
Proof.
  unfold noUpperCase. induction s as [| a s IH]; cbn; [reflexivity |].
  intros H. rewrite IH by (intros c Hc; apply H; right; exact Hc).
  unfold Js.asciiLowerChar.
  specialize (H a (or_introl eq_refl)).
  destruct ((65 <=? Js.code a) && (Js.code a <=? 90))%N eqn:Hup; [| reflexivity].
  exfalso. apply H. apply andb_true_iff in Hup as [H1 H2].
  apply N.leb_le in H1, H2. split; assumption.
Qed.

(** The type of a file: lower-cased when printable, empty when not; a
    printable type without upper-case letters is kept as it is. *)
Lemma fileType_spec (t : string) :
  (printable t -> Js.fileType t = Js.asciiLowercase t)
  /\ (~ printable t -> Js.fileType t = "")
  /\ (printable t -> noUpperCase t -> Js.fileType t = t).
Proof.
  unfold Js.fileType.
  destruct (Js.allPrintableAscii t) eqn:Hp.
  - apply allPrintableAscii_spec in Hp.
    split; [reflexivity |]. split; [contradiction |].
    intros _ Hl. apply asciiLowercase_id, Hl.
  - assert (Hn : ~ printable t).
    { intros H. apply allPrintableAscii_spec in H. congruence. }
    split; [contradiction |]. split; [reflexivity | contradiction].
Qed.

(** *** The parts of the payload *)

Lemma conversion_of_parts (payload name header body : string) (rest : list string) :
  Js.split "," payload = header :: body :: rest ->
  App.dataURLtoFile payload name
  = match Js.match_colon_semicolon header with
    | Some mime =>
        if Js.truthy mime then
          match Js.atob body with
          | Some bstr => Returns (File.mk (bytesOf bstr) name (Js.fileType mime))
          | None => Throws Js.invalidCharacterError
          end
        else Throws "Could not parse MIME type from data URL"
    | None => Throws "Could not parse MIME type from data URL"
    end.
Proof.
  intros Hsplit. unfold App.dataURLtoFile. rewrite Hsplit. cbn.
  destruct (Js.match_colon_semicolon header) as [mime |]; [| reflexivity].
  destruct (Js.truthy mime); [| reflexivity]. cbn.
  destruct (Js.atob body) as [bstr |]; [| reflexivity].
  rewrite u8arr_spec. reflexivity.
Qed.

Lemma conversion_without_comma (payload name : string) :
  ~ hasComma payload -> App.dataURLtoFile payload name = Throws "Invalid data URL".
Proof.
  intros Hc. unfold App.dataURLtoFile. rewrite split_without by exact Hc. reflexivity.
Qed.

(** C7, as amended (artifact conversion).  The conversion fails exactly when
    the payload has no comma, or the header before the first comma has no
    parsable MIME segment between ':' and ';', or the body after that comma
    is not decodable base64.  It fails with one of the two malformed-payload
    errors exactly in the first two cases; in the third the error is the one
    of the decoder.  On every other payload it returns the file of the given
    name whose bytes are those of the decoded body and whose type is the
    extracted segment as a file takes it: in ASCII lower case when all its
    characters are in U+0020..U+007E, and empty otherwise; so the type is the
    segment itself when that is printable and has no upper-case letter. *)
Theorem conversion_outcomes (payload name : string) :
  (~ hasComma payload ->
   App.dataURLtoFile payload name = Throws "Invalid data URL")
  /\ (forall header body,
        headerBody payload header body ->
        (~ parsableMime header ->
         App.dataURLtoFile payload name
         = Throws "Could not parse MIME type from data URL")
        /\ (forall mime,
              mimeSegment header mime -> mime <> "" ->
              match Js.atob body with
              | Some bstr =>
                  exists type,
                    App.dataURLtoFile payload name
                    = Returns (File.mk (bytesOf bstr) name type)
                    /\ (printable mime -> type = Js.asciiLowercase mime)
                    /\ (~ printable mime -> type = "")
                    /\ (printable mime -> noUpperCase mime -> type = mime)
              | None =>
                  exists e,
                    App.dataURLtoFile payload name = Throws e
                    /\ e <> "Invalid data URL"
                    /\ e <> "Could not parse MIME type from data URL"
              end))
  /\ ((exists e, App.dataURLtoFile payload name = Throws e)
      <-> ~ hasComma payload
          \/ exists header body,
               headerBody payload header body
               /\ (~ parsableMime header \/ Js.atob body = None))
  /\ (App.dataURLtoFile payload name = Throws "Invalid data URL"
      \/ App.dataURLtoFile payload name = Throws "Could not parse MIME type from data URL"
      <-> ~ hasComma payload
          \/ exists header body, headerBody payload header body /\ ~ parsableMime header).
Proof.
  assert (Hparts : forall header body,
             headerBody payload header body ->
             (~ parsableMime header ->
              App.dataURLtoFile payload name
              = Throws "Could not parse MIME type from data URL")
             /\ (forall mime,
                   mimeSegment header mime -> mime <> "" ->
                   App.dataURLtoFile payload name
                   = match Js.atob body with
                     | Some bstr => Returns (File.mk (bytesOf bstr) name (Js.fileType mime))
                     | None => Throws Js.invalidCharacterError
                     end)).
  { intros header body Hhb. destruct (split_headerBody _ _ _ Hhb) as [rest Hsplit].
    rewrite (conversion_of_parts _ name _ _ _ Hsplit). split.
    - intros Hno. destruct (Js.match_colon_semicolon header) as [mime |] eqn:Hm;
        [| reflexivity].
      destruct (Js.truthy mime) eqn:Ht; [| reflexivity].
      exfalso. apply Hno, parsable_spec. eauto.
    - intros mime Hm Hne. rewrite (match_complete _ _ Hm).
      destruct mime; [contradiction | reflexivity]. }
  assert (Hparsed : forall header body,
             headerBody payload header body -> parsableMime header ->
             App.dataURLtoFile payload name
             = match Js.atob body with
               | Some bstr =>
                   Returns (File.mk (bytesOf bstr) name
                              (Js.fileType (default "" (Js.match_colon_semicolon header))))
               | None => Throws Js.invalidCharacterError
               end).
  { intros header body Hhb (mime & Hm & Hne).
    rewrite (proj2 (Hparts _ _ Hhb) mime Hm Hne), (match_complete _ _ Hm). reflexivity. }
  split; [apply conversion_without_comma |]. split; [| split].
  - intros header body Hhb. split; [apply (Hparts _ _ Hhb) |].
    intros mime Hm Hne. rewrite (proj2 (Hparts _ _ Hhb) mime Hm Hne).
    destruct (Js.atob body) as [bstr |].
    + exists (Js.fileType mime). split; [reflexivity |]. apply fileType_spec.
    + exists Js.invalidCharacterError. repeat split; discriminate.
  - split.
    + intros [e He]. destruct (occurs_dec "," payload) as [Hc | Hc]; [| left; exact Hc].
      right. destruct (headerBody_exists _ Hc) as (header & body & Hhb).
      exists header, body. split; [exact Hhb |].
      destruct (Js.match_colon_semicolon header) as [mime |] eqn:Hm.
      * destruct (Js.truthy mime) eqn:Ht.
        -- right. destruct (Hparts _ _ Hhb) as [_ Hok].
           rewrite (Hok mime) in He
             by (try apply match_sound; auto; intros ->; discriminate).
           destruct (Js.atob body); [discriminate | reflexivity].
        -- left. intros (mime' & Hm' & Hne)%parsable_spec. congruence.
      * left. intros (mime' & Hm' & Hne)%parsable_spec. congruence.
    + intros [Hc | (header & body & Hhb & [Hno | Hbody])].
      * eexists. apply conversion_without_comma, Hc.
      * eexists. apply (Hparts _ _ Hhb), Hno.
      * destruct (split_headerBody _ _ _ Hhb) as [rest Hsplit].
        rewrite (conversion_of_parts _ name _ _ _ Hsplit), Hbody.
        destruct (Js.match_colon_semicolon header) as [mime |]; [| eauto].
        destruct (Js.truthy mime); eauto.
  - split.
    + intros Hmal. destruct (occurs_dec "," payload) as [Hc | Hc]; [| left; exact Hc].
      right. destruct (headerBody_exists _ Hc) as (header & body & Hhb).
      exists header, body. split; [exact Hhb |].
      intros Hp. rewrite (Hparsed _ _ Hhb Hp) in Hmal.
      destruct (Js.atob body); destruct Hmal as [H | H]; discriminate H.
    + intros [Hc | (header & body & Hhb & Hno)].
      * left. apply conversion_without_comma, Hc.
      * right. apply (Hparts _ _ Hhb), Hno.
Qed.

(** Closes [~ occurs c s] on a literal [s]. *)
Ltac absent := cbn; intuition discriminate.

(** C7, as stated, fails twice.  A payload with a comma and a parsable MIME
    segment whose body is not base64 is not converted; and a well-formed
    payload whose segment has upper-case letters is converted to a file whose
    type is not that segment. *)
Lemma undecodable_body_fails :
  let payload := "data:image/png;base64,@" in
  let shouted := "data:IMAGE/PNG;base64,aGk=" in
  (hasComma payload
   /\ headerBody payload "data:image/png;base64" "@"
   /\ parsableMime "data:image/png;base64"
   /\ exists e, App.dataURLtoFile payload "edited-1.png" = Throws e)
  /\ (headerBody shouted "data:IMAGE/PNG;base64" "aGk="
      /\ mimeSegment "data:IMAGE/PNG;base64" "IMAGE/PNG"
      /\ App.dataURLtoFile shouted "edited-1.png"
         = Returns (File.mk [Byte.x68; Byte.x69] "edited-1.png" "image/png")).
Proof.
  assert (Hhb : headerBody "data:image/png;base64,@" "data:image/png;base64" "@").
  { split; [absent |]. split; [absent |]. left. reflexivity. }
  assert (Hhb' : headerBody "data:IMAGE/PNG;base64,aGk=" "data:IMAGE/PNG;base64" "aGk=").
  { split; [absent |]. split; [absent |]. left. reflexivity. }
  split.
  - split; [exact (headerBody_hasComma _ _ _ Hhb) |].
    split; [exact Hhb |].
    split; [| eexists; reflexivity].
    apply parsable_spec. exists "image/png". split; reflexivity.
  - split; [exact Hhb' |]. split; [| reflexivity].
    apply match_sound. reflexivity.
Qed.

(** A type with a character outside U+0020..U+007E, here a TAB, is dropped. *)
Example conversion_of_unprintable_type :
  App.dataURLtoFile ("data:image/p" ++ String "009"%char "ng;base64,aGk=") "edited-1.png"
  = Returns (File.mk [Byte.x68; Byte.x69] "edited-1.png" "").
Proof. reflexivity. Qed.

(** A well-formed data URL is converted. *)
Example conversion_of_hello :
  App.dataURLtoFile "data:image/png;base64,aGVsbG8=" "edited-1.png"
  = Returns (File.mk [Byte.x68; Byte.x65; Byte.x6c; Byte.x6c; Byte.x6f]
               "edited-1.png" "image/png").
Proof. reflexivity. Qed.

End ArtifactStore.

Module Gallery.

Import Spec.

(** *** Under any pattern of outages *)

Lemma credits_keep_gallery (uid : string) (amount : Z) (reason : string) :
  keeps World.gallery (userService.updateUserCredits uid amount reason).
Proof. unfold userService.updateUserCredits, userService.getUserProfile. world_frame. Qed.

Lemma upload_keeps_gallery (uid : string) (file : File.t) (fileName : option string) :
  keeps World.gallery (userService.uploadImage uid file fileName).
Proof. unfold userService.uploadImage. world_frame. Qed.

Lemma deduct_keeps_gallery (amount : Z) (reason : string) :
  keeps (fun s => World.gallery (Session.world s)) (App.handleDeductCredits amount reason).
Proof.
  unfold App.handleDeductCredits. frame.
  apply (Frame.keeps_call_world World.gallery), credits_keep_gallery.
Qed.

Lemma call_returns {A : Type} (m : Async World.t A) (s s' : Session.t) (r : outcome A) :
  Session.call m s = (r, s') ->
  m (Session.world s) = (r, Session.world s') /\ Session.app s' = Session.app s.
Proof.
  unfold Session.call. destruct (m (Session.world s)) as [r' w'].
  intros [= -> <-]. split; reflexivity.
Qed.

Lemma updateGalleryImage_returns (uid imageId : string) (data : GalleryDoc.partial)
      (w w' : World.t) (g : GeneratedImage.t) :
  userService.updateGalleryImage uid imageId data w = (Returns g, w') ->
  exists gdoc,
    World.gallery w !! (uid, imageId) = Some gdoc
    /\ g = GalleryDoc.with_id imageId (GalleryDoc.update gdoc data).
Proof.
  unfold userService.updateGalleryImage. intros H.
  apply Frame.bind_returns in H as ([] & w1 & Hremote & H).
  assert (Hg1 : World.gallery w1 = World.gallery w).
  { pose proof (Frame.keeps_remote World.gallery "update"
                  ltac:(intros ? ?; reflexivity) w) as Hk.
    rewrite Hremote in Hk. exact Hk. }
  apply Frame.bind_returns in H as (w1' & w1'' & [= <- <-] & H).
  rewrite Hg1 in H.
  destruct (World.gallery w !! (uid, imageId)) as [gdoc |]; [| discriminate].
  exists gdoc. split; [reflexivity |].
  apply Frame.bind_returns in H as ([] & w2 & [= <-] & H).
  apply Frame.bind_returns in H as ([] & w3 & Hremote' & H).
  assert (Hg3 : World.gallery w3
                = <[(uid, imageId) := GalleryDoc.update gdoc data]> (World.gallery w)).
  { pose proof (Frame.keeps_remote World.gallery "get"
                  ltac:(intros ? ?; reflexivity)
                  (World.set_gallery
                     (<[(uid, imageId) := GalleryDoc.update gdoc data]> (World.gallery w))
                     w1)) as Hk.
    rewrite Hremote' in Hk. exact Hk. }
  apply Frame.bind_returns in H as (w3' & w3'' & [= <- <-] & H).
  rewrite Hg3, lookup_insert_eq in H. injection H as <- _. reflexivity.
Qed.

(** Whatever the stores do, an entry that [handleUpscaleImage] returns is the
    original one or differs from it in the reference and the flag only. *)
Lemma upscale_returns (image : GeneratedImage.t)
      (reply : outcome geminiService.GenerateContentResponse)
      (s : Session.t) (u : User.t) (returned : GeneratedImage.t) :
  AppState.currentUser (Session.app s) = Some u ->
  stored (User.uid u) image s ->
  Async.result (App.handleUpscaleImage image reply) s = Returns (Some returned) ->
  returned = image
  \/ exists reference,
       returned = GeneratedImage.mk (GeneratedImage.id image) reference
                    (GeneratedImage.prompt image) true (GeneratedImage.createdAt image).
Proof.
  intros Huser Hstored Hret. unfold Async.result, stored in *.
  destruct (App.handleUpscaleImage image reply s) as [r s'] eqn:Hrun.
  cbn in Hret. subst r. unfold App.handleUpscaleImage in Hrun.
  apply Frame.bind_returns in Hrun as (snap & s0 & [= <- <-] & Hrun).
  rewrite Huser in Hrun. cbv zeta in Hrun.
  apply Frame.bind_returns in Hrun as (deducted & s1 & Hdeduct & Hrun).
  assert (Hg1 : World.gallery (Session.world s1) = World.gallery (Session.world s)).
  { pose proof (deduct_keeps_gallery 1 ("Upscale: " ++ GeneratedImage.id image) s) as Hk.
    cbv beta in Hk. rewrite Hdeduct in Hk. exact Hk. }
  destruct deducted; cbn [negb] in Hrun; [| discriminate].
  apply Frame.try_catch_returns in Hrun as [Hbody | (e & s2 & _ & Hhandler)].
  - right.
    apply Frame.bind_returns in Hbody as (upscaledUrl & s2 & [= _ <-] & Hbody).
    apply Frame.bind_returns in Hbody as (upscaledFile & s3 & [= _ <-] & Hbody).
    apply Frame.bind_returns in Hbody as (newDownloadUrl & s4 & Hupload & Hbody).
    apply call_returns in Hupload as [Hupload _].
    assert (Hg4 : World.gallery (Session.world s4) = World.gallery (Session.world s)).
    { pose proof (upload_keeps_gallery (User.uid u) upscaledFile
                    (Some ("upscaled-" ++ GeneratedImage.id image ++ ".jpeg"))
                    (Session.world s1)) as Hk.
      rewrite Hupload in Hk. cbn in Hk. congruence. }
    apply Frame.bind_returns in Hbody as (updatedImage & s5 & Hupdate & Hbody).
    apply call_returns in Hupdate as [Hupdate _].
    apply updateGalleryImage_returns in Hupdate as (gdoc & Hgdoc & ->).
    rewrite Hg4, Hstored in Hgdoc. injection Hgdoc as <-.
    apply Frame.bind_returns in Hbody as ([] & s6 & _ & [= <- _]).
    eexists. reflexivity.
  - left.
    apply Frame.bind_returns in Hhandler as ([] & s3 & _ & Hhandler).
    apply Frame.bind_returns in Hhandler as (refundedUser & s4 & _ & Hhandler).
    apply Frame.bind_returns in Hhandler as ([] & s5 & _ & [= <- _]).
    reflexivity.
Qed.

(** C10 (gallery upscale frame condition).  For an entry of the gallery, held
    in memory as it is stored.  Whatever the stores do, an entry that the
    upscale returns is the original one or differs from it in the reference
    and the flag only, the flag being set.  With the balance covering the cost
    and the stores answering: when the upscale succeeds the entry returned
    keeps the id, the originating prompt and the creation timestamp, has its
    flag set and carries the new reference, and it takes the place of the
    entry in memory and in the store; when the upscale fails the entry
    returned is the original one, and memory and store keep it. *)
Theorem upscale_frame_condition (image : GeneratedImage.t)
        (reply : outcome geminiService.GenerateContentResponse)
        (s : Session.t) (u : User.t) :
  AppState.currentUser (Session.app s) = Some u ->
  stored (User.uid u) image s ->
  let returned := Async.result (App.handleUpscaleImage image reply) s in
  let s' := Async.exec (App.handleUpscaleImage image reply) s in
  (forall entry,
      returned = Returns (Some entry) ->
      entry = image
      \/ exists reference,
           entry = GeneratedImage.mk (GeneratedImage.id image) reference
                     (GeneratedImage.prompt image) true (GeneratedImage.createdAt image))
  /\ (forall doc,
        World.users (Session.world s) !! User.uid u = Some doc ->
        1 <= User.credits u ->
        reliable s ->
        match upscaledArtifact image reply with
        | Returns _ =>
            exists updated,
              returned = Returns (Some updated)
              /\ GeneratedImage.id updated = GeneratedImage.id image
              /\ GeneratedImage.prompt updated = GeneratedImage.prompt image
              /\ GeneratedImage.createdAt updated = GeneratedImage.createdAt image
              /\ GeneratedImage.isUpscaled updated = true
              /\ GeneratedImage.url updated = upscaledUrl (User.uid u) image s
              /\ stored (User.uid u) updated s'
              /\ AppState.allGeneratedImages (Session.app s')
                 = replaceEntry updated (AppState.allGeneratedImages (Session.app s))
        | Throws _ =>
            returned = Returns (Some image)
            /\ stored (User.uid u) image s'
            /\ AppState.allGeneratedImages (Session.app s')
               = AppState.allGeneratedImages (Session.app s)
        end).
Proof.
  intros Huser Hstored returned s'. subst returned s'.
  split; [intros entry Hret; exact (upscale_returns image reply s u entry Huser Hstored Hret) |].
  intros doc Hdoc Hafford Hreliable.
  unfold Async.result, Async.exec, stored in *.
  destruct (upscaledArtifact image reply) as [file | e] eqn:Hart.
  - destruct (Ledger.upscale_committed image reply s u doc Huser Hdoc Hafford Hreliable
                file _ Hart Hstored) as (s' & -> & _ & _ & Hg & Hmem).
    eexists. split; [reflexivity |]. cbn [fst snd].
    repeat split; [exact Hg | exact Hmem].
  - destruct (Ledger.upscale_refunded image reply s u doc Huser Hdoc Hafford Hreliable
                e Hart) as (s' & -> & _ & _ & Hg & Hmem & _).
    cbn [fst snd]. rewrite Hg. repeat split; assumption.
Qed.

(** An upscale that succeeds, and one that fails, on the stored entry. *)
Lemma upscale_frame_condition_witness :
  let s := Scenario.editing 10 [Scenario.original] 0 in
  Async.result (App.handleUpscaleImage Scenario.entry (Returns Scenario.imageResponse)) s
  = Returns (Some (GeneratedImage.mk "g1"
                     "https://blobs.example.org/users/u1/generated/upscaled-g1.jpeg"
                     "a cat" true 5))
  /\ Async.result (App.handleUpscaleImage Scenario.entry (Throws "fake gateway")) s
     = Returns (Some Scenario.entry).
Proof.
  pose proof (upscale_frame_condition Scenario.entry (Returns Scenario.imageResponse)
                (Scenario.editing 10 [Scenario.original] 0) (Scenario.alice 10)
                eq_refl eq_refl) as [_ Hok].
  pose proof (upscale_frame_condition Scenario.entry (Throws "fake gateway")
                (Scenario.editing 10 [Scenario.original] 0) (Scenario.alice 10)
                eq_refl eq_refl) as [_ Hfail].
  specialize (Hok (Scenario.alice 10) eq_refl ltac:(vm_compute; discriminate) eq_refl).
  specialize (Hfail (Scenario.alice 10) eq_refl ltac:(vm_compute; discriminate) eq_refl).
  cbv zeta in *.
  split.
  - destruct Hok as (updated & -> & Hid & Hprompt & Hdate & Hflag & Hurl & _).
    destruct updated as [i r p f c]. cbn in *. subst. reflexivity.
  - exact (proj1 Hfail).
Defined.

(** The gateway reads the reference of the entry as a data URL: on an entry
    whose reference has no comma the upscale fails before any model call, and
    the original entry comes back. *)
Lemma upscale_needs_data_url (image : GeneratedImage.t)
      (reply : outcome geminiService.GenerateContentResponse) :
  ~ hasComma (GeneratedImage.url image) ->
  upscaledArtifact image reply = Throws "Invalid data URL".
Proof.
  intros Hc. unfold upscaledArtifact, artifactOf, geminiService.upscaleImage,
    geminiService.dataUrlToPart.
  rewrite ArtifactStore.split_without by exact Hc. reflexivity.
Qed.

End Gallery.

(** ** The scenarios of section 8, evaluated *)

Module Scenarios.

Import Spec.

(** P1: history [A, B, C] at cursor 2, undo to 1, append D. *)
Example append_after_undo :
  let s := performAll [Upload Scenario.original; Append Scenario.second;
                       Append Scenario.third; Undo;
                       Append (File.mk [Byte.x04] "fourth.png" "image/png")]
             (emptyHistory (Scenario.editing 10 [] (-1))) in
  sequence s = [Scenario.original; Scenario.second;
                File.mk [Byte.x04] "fourth.png" "image/png"]
  /\ cursor s = 2
  /\ AppState.canUndo (Session.app s) = true
  /\ AppState.canRedo (Session.app s) = false.
Proof. repeat split. Qed.

(** Scenario C: a guarded operation succeeds. *)
Example scenario_C :
  let s := Scenario.editing 10 [Scenario.original] 0 in
  let s' := Async.exec (invoke (Filter (Returns "data:image/png;base64,aGVsbG8="))) s in
  ledgerBalance "u1" s' = Some 8
  /\ shownBalance s' = Some 8
  /\ User.creditHistory <$> World.users (Session.world s') !! "u1"
     = Some [CreditTransaction.mk "Sign-up bonus" 25 0;
             CreditTransaction.mk "AI Filter" (-2) 1000]
  /\ sequence s'
     = [Scenario.original;
        File.mk [Byte.x68; Byte.x65; Byte.x6c; Byte.x6c; Byte.x6f]
          "filtered-1000.png" "image/png"]
  /\ cursor s' = 1.
Proof. vm_compute. repeat split. Qed.

(** Scenario D: the gateway call of a guarded operation fails. *)
Example scenario_D :
  let s := Scenario.editing 10 [Scenario.original] 0 in
  let s' := Async.exec (invoke (Filter (Throws "fake gateway"))) s in
  ledgerBalance "u1" s' = Some 10
  /\ shownBalance s' = Some 10
  /\ User.creditHistory <$> World.users (Session.world s') !! "u1"
     = Some [CreditTransaction.mk "Sign-up bonus" 25 0;
             CreditTransaction.mk "AI Filter" (-2) 1000;
             CreditTransaction.mk "Refund: AI Filter" 2 1000]
  /\ sequence s' = [Scenario.original]
  /\ cursor s' = 0
  /\ AppState.error (Session.app s') = Some "Failed to ai filter. fake gateway".
Proof. vm_compute. repeat split. Qed.

(** Scenario E: an upscale asked on an entry that is already upscaled runs
    the guarded protocol all the same. *)
Example scenario_E :
  let upscaled := GeneratedImage.mk "g1" "data:image/jpeg;base64,aGVsbG8=" "a cat" true 5 in
  let s := Session.mk (Session.app (Scenario.editing 10 [Scenario.original] 0))
             (Session.form (Scenario.editing 10 [Scenario.original] 0))
             (World.set_gallery {[ ("u1", "g1") := GalleryDoc.of_image upscaled ]}
                (Scenario.world 10)) in
  let s' := Async.exec (App.handleUpscaleImage upscaled (Returns Scenario.imageResponse)) s in
  ledgerBalance "u1" s' = Some 9.
Proof. vm_compute. reflexivity. Qed.

End Scenarios.

(** * Further properties of the code *)

(** ** The ledger client: reading and adjusting profiles *)

Module LedgerClient.

Import Spec.

Lemma insert_perm (a : CreditTransaction.t) (l : list CreditTransaction.t) :
  userService.insertNewestFirst a l ≡ₚ a :: l.
Proof.
  induction l as [| b rest IH]; cbn; [reflexivity |].
  destruct (CreditTransaction.date a <? CreditTransaction.date b); [| reflexivity].
  rewrite IH. apply perm_swap.
Qed.

Lemma sort_perm (l : list CreditTransaction.t) : userService.sortNewestFirst l ≡ₚ l.
Proof.
  induction l as [| a rest IH]; cbn; [reflexivity |].
  rewrite insert_perm. f_equiv. exact IH.
Qed.

Lemma insert_sorted (a : CreditTransaction.t) (l : list CreditTransaction.t) :
  newestFirst l -> newestFirst (userService.insertNewestFirst a l).
Proof.
  unfold newestFirst. induction 1 as [| b rest Hrest IH Hb]; cbn.
  - repeat constructor.
  - destruct (Z.ltb_spec (CreditTransaction.date a) (CreditTransaction.date b)).
    + constructor; [exact IH |].
      rewrite insert_perm. constructor; [lia | exact Hb].
    + constructor; [constructor; assumption |].
      constructor; [lia |].
      eapply Forall_impl; [exact Hb |]. cbn. intros; lia.
Qed.

Lemma sort_sorted (l : list CreditTransaction.t) :
  newestFirst (userService.sortNewestFirst l).
Proof.
  induction l as [| a rest IH]; cbn; [constructor | apply insert_sorted, IH].
Qed.

(** The sort is stable: a history that is newest first already is returned
    as it is, transactions of one date in their recorded order. *)
Lemma sort_of_sorted (l : list CreditTransaction.t) :
  newestFirst l -> userService.sortNewestFirst l = l.
Proof.
  unfold newestFirst, userService.sortNewestFirst.
  induction 1 as [| a rest Hrest IH Ha]; cbn; [reflexivity |].
  rewrite IH. destruct Ha as [| b rest' Hb _]; cbn; [reflexivity |].
  destruct (Z.ltb_spec (CreditTransaction.date a) (CreditTransaction.date b));
    [lia | reflexivity].
Qed.

Lemma sumAmounts_perm (l l' : list CreditTransaction.t) :
  l ≡ₚ l' -> sumAmounts l = sumAmounts l'.
Proof. unfold sumAmounts. induction 1; cbn in *; lia. Qed.

Lemma sumAmounts_snoc (l : list CreditTransaction.t) (t : CreditTransaction.t) :
  sumAmounts (l ++ [t]) = sumAmounts l + CreditTransaction.amount t.
Proof. unfold sumAmounts. induction l as [| a l IH]; cbn in *; lia. Qed.

(** X1.  Reading a profile never writes: the stored profiles and gallery are
    as before.  When a profile is returned it is the stored one (identity,
    name, e-mail, balance) with the same transactions, newest first; no
    profile is returned exactly when none is stored; and the read throws only
    on an outage of the store. *)
Theorem profile_read (uid : string) (w : World.t) :
  let r := fst (userService.getUserProfile uid w) in
  let w' := snd (userService.getUserProfile uid w) in
  World.users w' = World.users w
  /\ World.gallery w' = World.gallery w
  /\ match r with
     | Returns (Some profile) =>
         exists doc,
           World.users w !! uid = Some doc
           /\ User.uid profile = User.uid doc
           /\ User.name profile = User.name doc
           /\ User.email profile = User.email doc
           /\ User.credits profile = User.credits doc
           /\ User.creditHistory profile ≡ₚ User.creditHistory doc
           /\ newestFirst (User.creditHistory profile)
     | Returns None => World.users w !! uid = None
     | Throws _ => exists rest, World.outages w = true :: rest
     end.
Proof.
  unfold userService.getUserProfile, World.remote. unfold_async.
  destruct (World.outages w) as [| [|] rest]; cbn.
  2: { repeat split. eauto. }
  all: destruct (World.users w !! uid) as [doc |] eqn:Hdoc; cbn; repeat split.
  all: exists doc; repeat split; [apply sort_perm | apply sort_sorted].
Qed.

(** The cases of an adjustment, by the outage script. *)
Lemma updateUserCredits_cases (uid : string) (amount : Z) (reason : string) (w : World.t) :
  let r := fst (userService.updateUserCredits uid amount reason w) in
  let w' := snd (userService.updateUserCredits uid amount reason w) in
  match r with
  | Returns profile =>
      exists doc,
        World.users w !! uid = Some doc
        /\ profile = Some (profileOf (adjusted amount reason (World.now w) doc))
        /\ World.users w'
           = <[uid := adjusted amount reason (World.now w) doc]> (World.users w)
  | Throws _ =>
      World.users w' = World.users w
      \/ exists doc rest,
           World.outages w = false :: true :: rest
           /\ World.users w !! uid = Some doc
           /\ World.users w'
              = <[uid := adjusted amount reason (World.now w) doc]> (World.users w)
  end.
Proof.
  unfold userService.updateUserCredits, userService.getUserProfile, World.remote.
  unfold_async.
  destruct (World.outages w) as [| [|] rest] eqn:Hout; cbn; rewrite ?Hout; cbn; auto.
  - destruct (World.users w !! uid) as [doc |] eqn:Hdoc; cbn; rewrite ?Hout; cbn; auto.
    rewrite lookup_insert_eq. exists doc. repeat split; reflexivity.
  - destruct (World.users w !! uid) as [doc |] eqn:Hdoc; cbn; auto.
    destruct rest as [| [|] rest']; cbn; rewrite ?lookup_insert_eq.
    + exists doc. repeat split; reflexivity.
    + right. exists doc, rest'. repeat split; reflexivity.
    + exists doc. repeat split; reflexivity.
Qed.

(** X2.  An adjustment either returns or throws.  When it returns, the
    profile existed, the returned profile is never null and is the stored one
    after the adjustment.  When it throws, either nothing was written, or the
    write was applied and it is the read back that failed: the caller sees a
    failure of an adjustment that the store holds. *)
Theorem adjust_outcomes (uid : string) (amount : Z) (reason : string) (w : World.t) :
  let r := fst (userService.updateUserCredits uid amount reason w) in
  let w' := snd (userService.updateUserCredits uid amount reason w) in
  match r with
  | Returns profile =>
      exists doc,
        World.users w !! uid = Some doc
        /\ profile = Some (profileOf (adjusted amount reason (World.now w) doc))
        /\ World.users w'
           = <[uid := adjusted amount reason (World.now w) doc]> (World.users w)
  | Throws _ =>
      World.users w' = World.users w
      \/ exists doc rest,
           World.outages w = false :: true :: rest
           /\ World.users w !! uid = Some doc
           /\ World.users w'
              = <[uid := adjusted amount reason (World.now w) doc]> (World.users w)
  end.
Proof. exact (updateUserCredits_cases uid amount reason w). Qed.

(** After an adjustment the books move together when the record is fresh: the
    balance changes by the amount and so does the sum of the recorded
    amounts.  A record identical to one already in the history (same reason,
    amount and date) is not added again, and then only the balance moves. *)
Lemma adjusted_books (amount : Z) (reason : string) (today : Z) (doc : User.t) :
  let doc' := adjusted amount reason today doc in
  User.credits doc' = User.credits doc + amount
  /\ sumAmounts (User.creditHistory doc')
     = sumAmounts (User.creditHistory doc)
       + (if decide (CreditTransaction.mk reason amount today ∈ User.creditHistory doc)
          then 0 else amount).
Proof.
  split; [reflexivity |]. cbn [adjusted User.creditHistory User.with_credits].
  unfold userService.arrayUnion.
  destruct (decide (CreditTransaction.mk reason amount today ∈ User.creditHistory doc)).
  - lia.
  - apply sumAmounts_snoc.
Qed.

(** X3.  Adjustments keep balanced books balanced.  For a stored profile
    whose balance is the sum of its recorded amounts and an adjustment whose
    record is not in the history yet: whatever the store does, the profile
    stored afterwards is balanced, and so is a profile that is returned, whose
    balance is the old one plus the amount. *)
Theorem adjust_keeps_books (uid : string) (amount : Z) (reason : string)
        (w : World.t) (doc : User.t) :
  World.users w !! uid = Some doc ->
  balanced doc ->
  CreditTransaction.mk reason amount (World.now w) ∉ User.creditHistory doc ->
  let r := fst (userService.updateUserCredits uid amount reason w) in
  let w' := snd (userService.updateUserCredits uid amount reason w) in
  (exists doc', World.users w' !! uid = Some doc' /\ balanced doc')
  /\ (forall profile,
        r = Returns (Some profile) ->
        balanced profile /\ User.credits profile = User.credits doc + amount).
Proof.
  intros Hdoc Hbal Hfresh r w'. subst r w'.
  pose proof (updateUserCredits_cases uid amount reason w) as H. cbv zeta in H.
  destruct (adjusted_books amount reason (World.now w) doc) as [Hc Hs]. cbv zeta in Hc, Hs.
  rewrite decide_False in Hs by exact Hfresh.
  assert (Hadj : balanced (adjusted amount reason (World.now w) doc)).
  { unfold balanced in *. lia. }
  destruct (userService.updateUserCredits uid amount reason w) as [[profile | e] w'];
    cbn [fst snd] in *.
  - destruct H as (doc0 & Hdoc0 & -> & ->). rewrite Hdoc in Hdoc0. injection Hdoc0 as <-.
    split; [eexists; split; [apply lookup_insert_eq | exact Hadj] |].
    intros profile [= <-]. split; [| exact Hc].
    unfold balanced, profileOf in *. cbn.
    rewrite (sumAmounts_perm _ _ (sort_perm _)). exact Hadj.
  - split; [| discriminate].
    destruct H as [-> | (doc0 & rest & _ & Hdoc0 & ->)].
    + eauto.
    + rewrite Hdoc in Hdoc0. injection Hdoc0 as <-.
      eexists; split; [apply lookup_insert_eq | exact Hadj].
Qed.

(** The sign-up profile adjusted once, twelve seconds later. *)
Lemma adjust_keeps_books_witness :
  let w := Scenario.world 25 in
  let r := fst (userService.updateUserCredits "u1" (-2) "AI Filter" w) in
  exists profile, r = Returns (Some profile) /\ balanced profile /\ User.credits profile = 23.
Proof.
  pose proof (adjust_keeps_books "u1" (-2) "AI Filter" (Scenario.world 25) (Scenario.alice 25)
                eq_refl eq_refl
                ltac:(intros H; apply list_elem_of_In in H; destruct H as [[=] | []]))
    as [_ H].
  cbv zeta in *. eexists. split; [reflexivity |].
  exact (H _ eq_refl).
Defined.

End LedgerClient.

Module GalleryStore.
Import Spec.

Lemma insertEntry_perm (a : GeneratedImage.t) (l : list GeneratedImage.t) :
  userService.insertEntry a l ≡ₚ a :: l.
Proof.
  induction l as [| b rest IH]; cbn; [reflexivity |].
  destruct (userService.before b a); [| reflexivity].
  rewrite IH. apply perm_swap.
Qed.

Lemma listing_perm (l : list GeneratedImage.t) : foldr userService.insertEntry [] l ≡ₚ l.
Proof.
  induction l as [| a rest IH]; cbn; [reflexivity |].
  rewrite insertEntry_perm. f_equiv. exact IH.
Qed.

Lemma before_newer (a b : GeneratedImage.t) :
  userService.before a b = true ->
  GeneratedImage.createdAt b <= GeneratedImage.createdAt a.
Proof.
  unfold userService.before. intros H.
  apply orb_true_iff in H as [H | H]; [lia |].
  apply andb_true_iff in H as [H _]. lia.
Qed.

Lemma not_before_newer (a b : GeneratedImage.t) :
  userService.before a b = false ->
  GeneratedImage.createdAt a <= GeneratedImage.createdAt b.
Proof.
  unfold userService.before. intros H.
  apply orb_false_iff in H as [H _]. lia.
Qed.

Lemma insertEntry_sorted (a : GeneratedImage.t) (l : list GeneratedImage.t) :
  newestEntryFirst l -> newestEntryFirst (userService.insertEntry a l).
Proof.
  unfold newestEntryFirst. induction 1 as [| b rest Hrest IH Hb]; cbn.
  - repeat constructor.
  - destruct (userService.before b a) eqn:Hba.
    + constructor; [exact IH |].
      rewrite insertEntry_perm. constructor; [apply before_newer, Hba | exact Hb].
    + apply not_before_newer in Hba.
      constructor; [constructor; assumption |].
      constructor; [exact Hba |].
      eapply Forall_impl; [exact Hb |]. cbn. intros; lia.
Qed.

Lemma listing_sorted (l : list GeneratedImage.t) :
  newestEntryFirst (foldr userService.insertEntry [] l).
Proof.
  induction l as [| a rest IH]; cbn; [constructor | apply insertEntry_sorted, IH].
Qed.

Lemma with_id_of_image (g : GeneratedImage.t) :
  GalleryDoc.with_id (GeneratedImage.id g) (GalleryDoc.of_image g) = g.
Proof. destruct g; reflexivity. Qed.

Lemma of_image_with_id (i : string) (d : GalleryDoc.t) :
  GalleryDoc.of_image (GalleryDoc.with_id i d) = d.
Proof. destruct d; reflexivity. Qed.

(** The documents read for [uid] are the ones stored under [uid]. *)
Lemma galleryDocs_spec (uid : string) (w : World.t) (g : GeneratedImage.t) :
  g ∈ userService.galleryDocs uid w <-> storedEntry uid g w.
Proof.
  unfold userService.galleryDocs, storedEntry. rewrite list_elem_of_omap. split.
  - intros ([[u i] d] & Hin & Hg). cbn in Hg.
    destruct (String.eqb_spec u uid) as [-> |]; [| discriminate].
    injection Hg as <-. apply elem_of_map_to_list in Hin.
    cbn. rewrite of_image_with_id. exact Hin.
  - intros H. exists ((uid, GeneratedImage.id g), GalleryDoc.of_image g). split.
    + apply elem_of_map_to_list, H.
    + cbn. rewrite String.eqb_refl, with_id_of_image. reflexivity.
Qed.

Lemma galleryDocs_ids (uid : string) (w : World.t) :
  NoDup (map GeneratedImage.id (userService.galleryDocs uid w)).
Proof.
  unfold userService.galleryDocs.
  pose proof (NoDup_fst_map_to_list (World.gallery w)) as Hkeys.
  induction (map_to_list (World.gallery w)) as [| [[u i] d] rest IH]; cbn; [constructor |].
  apply NoDup_cons in Hkeys as [Hfresh Hkeys]. specialize (IH Hkeys).
  destruct (String.eqb_spec u uid) as [-> |]; cbn; [| exact IH].
  constructor; [| exact IH].
  intros Hin. apply list_elem_of_fmap in Hin as (g & Hid & Hin).
  apply list_elem_of_omap in Hin as ([[u' i'] d'] & Hin & Hg). cbn in Hg.
  destruct (String.eqb_spec u' uid) as [-> |]; [| discriminate].
  injection Hg as <-. cbn in Hid. subst i'.
  apply Hfresh. apply list_elem_of_fmap. exists ((uid, i), d'). split; [reflexivity | exact Hin].
Qed.

(** The cases of a listing, by the outage script. *)
Lemma getGalleryImages_cases (uid : string) (w : World.t) :
  let r := fst (userService.getGalleryImages uid w) in
  let w' := snd (userService.getGalleryImages uid w) in
  World.users w' = World.users w
  /\ World.gallery w' = World.gallery w
  /\ World.storage w' = World.storage w
  /\ match r with
     | Returns images =>
         (forall g, g ∈ images <-> storedEntry uid g w)
         /\ NoDup (map GeneratedImage.id images)
         /\ newestEntryFirst images
     | Throws _ => exists rest, World.outages w = true :: rest
     end.
Proof.
  unfold userService.getGalleryImages, World.remote. unfold_async.
  assert (Hlist : (forall g, g ∈ foldr userService.insertEntry [] (userService.galleryDocs uid w)
                             <-> storedEntry uid g w)
                  /\ NoDup (map GeneratedImage.id
                              (foldr userService.insertEntry [] (userService.galleryDocs uid w)))
                  /\ newestEntryFirst
                       (foldr userService.insertEntry [] (userService.galleryDocs uid w))).
  { split; [| split].
    - intros g. rewrite (listing_perm _). apply galleryDocs_spec.
    - rewrite (listing_perm _). apply galleryDocs_ids.
    - apply listing_sorted. }
  destruct (World.outages w) as [| [|] rest] eqn:Hout; cbn; repeat split; eauto; apply Hlist.
Qed.

(** X4.  Listing a gallery never writes.  When it returns, the list holds
    exactly the documents stored for that user, each once and under its own
    id, newest first; it throws only when the store is unavailable. *)
Theorem gallery_listing (uid : string) (w : World.t) :
  let r := fst (userService.getGalleryImages uid w) in
  let w' := snd (userService.getGalleryImages uid w) in
  World.users w' = World.users w
  /\ World.gallery w' = World.gallery w
  /\ World.storage w' = World.storage w
  /\ match r with
     | Returns images =>
         (forall g, g ∈ images <-> storedEntry uid g w)
         /\ NoDup (map GeneratedImage.id images)
         /\ newestEntryFirst images
     | Throws _ => exists rest, World.outages w = true :: rest
     end.
Proof. exact (getGalleryImages_cases uid w). Qed.

(** X5.  Updating a gallery document leaves profiles, blobs and every other
    document alone, and never creates or deletes a document: one that is
    missing stays missing.  An entry that is returned is the old document with
    the update applied, and it is the one stored. *)
Theorem gallery_update (uid imageId : string) (data : GalleryDoc.partial) (w : World.t) :
  let r := fst (userService.updateGalleryImage uid imageId data w) in
  let w' := snd (userService.updateGalleryImage uid imageId data w) in
  World.users w' = World.users w
  /\ World.storage w' = World.storage w
  /\ (forall key, key <> (uid, imageId) -> World.gallery w' !! key = World.gallery w !! key)
  /\ (is_Some (World.gallery w' !! (uid, imageId))
      <-> is_Some (World.gallery w !! (uid, imageId)))
  /\ match r with
     | Returns g =>
         exists doc,
           World.gallery w !! (uid, imageId) = Some doc
           /\ g = GalleryDoc.with_id imageId (GalleryDoc.update doc data)
           /\ storedEntry uid g w'
     | Throws _ =>
         World.gallery w !! (uid, imageId) = None
         \/ exists flag rest, World.outages w = flag :: rest
     end.
Proof.
  unfold userService.updateGalleryImage, World.remote, storedEntry. unfold_async.
  assert (Hwritten : forall doc,
             World.gallery w !! (uid, imageId) = Some doc ->
             (forall key, key <> (uid, imageId) ->
                <[(uid, imageId) := GalleryDoc.update doc data]> (World.gallery w) !! key
                = World.gallery w !! key)
             /\ (is_Some (<[(uid, imageId) := GalleryDoc.update doc data]> (World.gallery w)
                          !! (uid, imageId))
                 <-> is_Some (World.gallery w !! (uid, imageId)))
             /\ exists doc0,
                  World.gallery w !! (uid, imageId) = Some doc0
                  /\ GalleryDoc.with_id imageId (GalleryDoc.update doc data)
                     = GalleryDoc.with_id imageId (GalleryDoc.update doc0 data)
                  /\ <[(uid, imageId) := GalleryDoc.update doc data]> (World.gallery w)
                       !! (uid, GeneratedImage.id
                                  (GalleryDoc.with_id imageId (GalleryDoc.update doc data)))
                     = Some (GalleryDoc.of_image
                               (GalleryDoc.with_id imageId (GalleryDoc.update doc data)))).
  { intros doc Hdoc. split; [| split].
    - intros key Hkey. apply lookup_insert_ne. congruence.
    - rewrite lookup_insert_eq, Hdoc. split; eauto.
    - exists doc. rewrite of_image_with_id. cbn. rewrite lookup_insert_eq. auto. }
  destruct (World.outages w) as [| [|] rest] eqn:Hout; cbn; rewrite ?Hout; cbn.
  - destruct (World.gallery w !! (uid, imageId)) as [doc |] eqn:Hdoc; cbn; rewrite ?Hout; cbn.
    + destruct (Hwritten doc eq_refl) as (Hothers & Hsame & Hentry).
      rewrite lookup_insert_eq. cbn. auto.
    + rewrite Hdoc. tauto.
  - split; [| split; [| split; [| split]]]; eauto; tauto.
  - destruct (World.gallery w !! (uid, imageId)) as [doc |] eqn:Hdoc; cbn.
    + destruct (Hwritten doc eq_refl) as (Hothers & Hsame & Hentry).
      destruct rest as [| [|] rest']; cbn; rewrite ?lookup_insert_eq; cbn;
        (split; [| split; [| split; [| split]]]); eauto; split; eauto.
    + rewrite Hdoc. split; [| split; [| split; [| split]]]; eauto; tauto.
Qed.

(** X6.  Adding then listing: with the store available, an image added under
    a new id is listed afterwards, with the id it was given, together with
    every entry that was stored before. *)
Theorem added_entry_listed (uid docId : string) (imageData : GalleryDoc.t) (w : World.t) :
  World.outages w = [] ->
  World.gallery w !! (uid, docId) = None ->
  exists images,
    fst ((userService.addImageToGallery uid imageData docId ;;
          userService.getGalleryImages uid) w) = Returns images
    /\ GalleryDoc.with_id docId imageData ∈ images
    /\ (forall g, storedEntry uid g w -> g ∈ images)
    /\ length images = S (length (userService.galleryDocs uid w)).
Proof.
  intros Hout Hnew.
  set (w1 := World.set_gallery (<[(uid, docId) := imageData]> (World.gallery w)) w).
  assert (Hrun : (userService.addImageToGallery uid imageData docId ;;
                  userService.getGalleryImages uid) w
                 = userService.getGalleryImages uid w1).
  { unfold userService.addImageToGallery, World.remote. unfold_async. rewrite Hout. reflexivity. }
  rewrite Hrun.
  pose proof (getGalleryImages_cases uid w1) as (_ & _ & _ & H). cbv zeta in H.
  assert (Hret : fst (userService.getGalleryImages uid w1)
                 = Returns (foldr userService.insertEntry [] (userService.galleryDocs uid w1))).
  { unfold userService.getGalleryImages, World.remote. unfold_async.
    replace (World.outages w1) with (@nil bool) by (symmetry; exact Hout). reflexivity. }
  rewrite Hret in H. destruct H as (Hmem & Hids & _).
  eexists. split; [exact Hret |]. split; [| split].
  - apply Hmem. unfold storedEntry. rewrite of_image_with_id. apply lookup_insert_eq.
  - intros g Hg. apply Hmem. unfold storedEntry in *. cbn.
    rewrite lookup_insert_ne; [exact Hg |]. intros [= Heq]. rewrite Heq in Hnew. congruence.
  - rewrite (listing_perm _). unfold userService.galleryDocs. cbn.
    rewrite map_to_list_insert by exact Hnew. cbn. rewrite String.eqb_refl. reflexivity.
Qed.

Lemma added_entry_listed_witness :
  exists images,
    fst ((userService.addImageToGallery "u1" (GalleryDoc.mk "https://x/y" "a dog" false 7) "g2" ;;
          userService.getGalleryImages "u1") (Scenario.world 25)) = Returns images
    /\ length images = 2%nat.
Proof.
  destruct (added_entry_listed "u1" "g2" (GalleryDoc.mk "https://x/y" "a dog" false 7)
              (Scenario.world 25) eq_refl eq_refl) as (images & Hret & _ & _ & Hlen).
  exists images. split; [exact Hret |]. rewrite Hlen. vm_compute. reflexivity.
Defined.

End GalleryStore.

Module Payloads.
Import Spec.

Ltac scbn := rewrite ?ArtifactStore.append_cons, ?ArtifactStore.append_nil; cbn.

Lemma append_assoc (a b c : string) : (a ++ b) ++ c = a ++ b ++ c.
Proof. induction a as [| x a IH]; scbn; [reflexivity | rewrite IH; reflexivity]. Qed.

Lemma append_empty (a : string) : a ++ "" = a.
Proof. induction a as [| x a IH]; scbn; [reflexivity | rewrite IH; reflexivity]. Qed.

Lemma occurs_append (c : ascii) (a b : string) :
  occurs c (a ++ b) <-> occurs c a \/ occurs c b.
Proof. induction a as [| x a IH]; scbn; [tauto | rewrite IH; tauto]. Qed.

(** *** The two readers of a data URL *)

(** X7.  The reader of the gateway and the converter of the editor take a
    data URL apart in the same way: what the one refuses the other refuses
    with the same error, and when the reader returns a part, its MIME type
    and data are the segment and the body that the converter uses, so that
    the conversion can then fail on the decoding only.  The file carries the
    segment as its type, the way a file takes a type. *)
Theorem readers_agree (payload name : string) :
  match geminiService.dataUrlToPart payload with
  | Returns part =>
      exists header body mime,
        headerBody payload header body
        /\ mimeSegment header mime /\ mime <> ""
        /\ part = geminiService.mkInlineData (Some mime) (Some body)
        /\ App.dataURLtoFile payload name
           = match Js.atob body with
             | Some bstr => Returns (File.mk (bytesOf bstr) name (Js.fileType mime))
             | None => Throws "The string to be decoded is not correctly encoded."
             end
  | Throws e => App.dataURLtoFile payload name = Throws e
  end.
Proof.
  destruct (ArtifactStore.occurs_dec "," payload) as [Hc | Hc].
  - destruct (ArtifactStore.headerBody_exists payload Hc) as (header & body & Hhb).
    destruct (ArtifactStore.split_headerBody _ _ _ Hhb) as [rest Hsplit].
    rewrite (ArtifactStore.conversion_of_parts _ name _ _ _ Hsplit).
    unfold geminiService.dataUrlToPart. rewrite Hsplit. cbn.
    destruct (Js.match_colon_semicolon header) as [mime |] eqn:Hm; [| reflexivity].
    destruct (Js.truthy mime) eqn:Ht; [| reflexivity]. cbn.
    exists header, body, mime.
    split; [exact Hhb |].
    split; [apply ArtifactStore.match_sound, Hm |].
    split; [apply Gateway.truthy_spec, Ht |].
    split; reflexivity.
  - rewrite (ArtifactStore.conversion_without_comma _ _ Hc).
    unfold geminiService.dataUrlToPart.
    rewrite ArtifactStore.split_without by exact Hc. reflexivity.
Qed.

(** *** From the gateway to the artifact store *)

Lemma data_url_split (mime d : string) :
  ~ occurs "," mime -> ~ occurs "," d ->
  Js.split "," ("data:" ++ mime ++ ";base64," ++ d) = ["data:" ++ mime ++ ";base64"; d].
Proof.
  intros Hm Hd.
  replace ("data:" ++ mime ++ ";base64," ++ d)
    with (("data:" ++ mime ++ ";base64") ++ String "," d).
  - rewrite ArtifactStore.split_at_first.
    + rewrite ArtifactStore.split_without by exact Hd. reflexivity.
    + rewrite !occurs_append. cbn. intros [H | [H | H]]; [| tauto |];
        repeat (destruct H as [[=] | H]); exact H.
  - rewrite !append_assoc. reflexivity.
Qed.

Lemma data_url_mime (mime : string) :
  oneLine mime -> ~ occurs ";" mime ->
  Js.match_colon_semicolon ("data:" ++ mime ++ ";base64") = Some mime.
Proof.
  intros Hone Hsemi. scbn.
  change (mime ++ ";base64") with (mime ++ String ";" "base64").
  rewrite ArtifactStore.lazy_complete by assumption. reflexivity.
Qed.

Lemma data_url_converts (mime d name : string) :
  oneLine mime -> ~ occurs ";" mime -> ~ occurs "," mime -> mime <> "" ->
  ~ occurs "," d ->
  App.dataURLtoFile ("data:" ++ mime ++ ";base64," ++ d) name
  = match Js.atob d with
    | Some bstr => Returns (File.mk (bytesOf bstr) name (Js.fileType mime))
    | None => Throws Js.invalidCharacterError
    end.
Proof.
  intros Hone Hsemi Hcomma Hne Hd.
  rewrite (ArtifactStore.conversion_of_parts _ name _ _ _ (data_url_split mime d Hcomma Hd)).
  rewrite data_url_mime by assumption.
  apply Gateway.truthy_spec in Hne. rewrite Hne. reflexivity.
Qed.

(** X8.  What the gateway returns, the artifact store converts.  For a
    response that is not blocked and whose first inline image has a MIME type
    on one line, not empty and free of commas and semicolons, and data free of
    commas: when the data decode, the payload built by the gateway converts to
    the file whose bytes are the decoded data and whose type is the MIME type
    as a file takes it, in ASCII lower case when all its characters are in
    U+0020..U+007E and empty otherwise, so that it is the MIME type itself
    when that is printable and has no upper-case letter; when the data do not
    decode, the conversion fails. *)
Theorem payload_converts (response : geminiService.GenerateContentResponse)
        (context name : string) (i : geminiService.InlineData) :
  ~ blocked response ->
  geminiService.imagePart response ≫= geminiService.inlineData = Some i ->
  let mime := geminiService.render (geminiService.mimeType i) in
  let d := geminiService.render (geminiService.data i) in
  oneLine mime -> ~ occurs ";" mime -> ~ occurs "," mime -> mime <> "" ->
  ~ occurs "," d ->
  match Js.atob d with
  | Some bstr =>
      exists type,
        artifactOf (geminiService.handleApiResponse response context) name
        = Returns (File.mk (bytesOf bstr) name type)
        /\ (printable mime -> type = Js.asciiLowercase mime)
        /\ (~ printable mime -> type = "")
        /\ (printable mime -> noUpperCase mime -> type = mime)
  | None =>
      exists e,
        artifactOf (geminiService.handleApiResponse response context) name = Throws e
  end.
Proof.
  intros Hnb Hi mime d Hone Hsemi Hcomma Hne Hd.
  unfold geminiService.handleApiResponse.
  destruct (geminiService.truthyField
              (geminiService.promptFeedback response ≫= geminiService.blockReason)) eqn:Hb.
  - apply Gateway.blocked_spec in Hb. contradiction.
  - rewrite Hi. cbn [artifactOf]. fold mime d.
    rewrite (data_url_converts mime d name) by assumption.
    destruct (Js.atob d) as [bstr |].
    + exists (Js.fileType mime). split; [reflexivity |]. apply ArtifactStore.fileType_spec.
    + eexists. reflexivity.
Qed.

Lemma payload_converts_witness :
  exists type,
    artifactOf (geminiService.handleApiResponse Scenario.imageResponse "edit") "edited-1.png"
    = Returns (File.mk (bytesOf "hello") "edited-1.png" type)
    /\ (printable "image/png" -> noUpperCase "image/png" -> type = "image/png").
Proof.
  destruct (payload_converts Scenario.imageResponse "edit" "edited-1.png"
              (geminiService.mkInlineData (Some "image/png") (Some "aGVsbG8="))
              ltac:(intros (feedback & reason & [=] & _))
              eq_refl
              ltac:(cbn; tauto)
              ltac:(cbn; intros H; repeat (destruct H as [[=] | H]); exact H)
              ltac:(cbn; intros H; repeat (destruct H as [[=] | H]); exact H)
              ltac:(discriminate)
              ltac:(cbn; intros H; repeat (destruct H as [[=] | H]); exact H))
    as (type & Hfile & _ & _ & Htype).
  exists type. split; [exact Hfile | exact Htype].
Defined.

(** X9.  Image generation returns only a JPEG data URL made of the bytes of
    the first image of the reply, which are not empty; every failure, of the
    call or of the reading, carries the same prefix.  When the bytes have no
    comma, the URL converts to a file of type image/jpeg or fails on the
    decoding. *)
Theorem generated_payload (reply : outcome geminiService.GenerateImagesResponse) :
  match geminiService.generateImage reply with
  | Returns url =>
      exists response first rest img bytes,
        reply = Returns response
        /\ geminiService.generatedImages response = Some (first :: rest)
        /\ geminiService.image first = Some img
        /\ geminiService.imageBytes img = Some bytes
        /\ bytes <> ""
        /\ url = "data:image/jpeg;base64," ++ bytes
        /\ forall name,
             ~ occurs "," bytes ->
             App.dataURLtoFile url name
             = match Js.atob bytes with
               | Some bstr => Returns (File.mk (bytesOf bstr) name "image/jpeg")
               | None => Throws "The string to be decoded is not correctly encoded."
               end
  | Throws e =>
      exists cause,
        e = "Failed to generate image. " ++ cause
        /\ (reply = Throws cause
            \/ exists response, reply = Returns response
                 /\ geminiService.generateImage_body response = Throws cause)
  end.
Proof.
  unfold geminiService.generateImage.
  destruct reply as [response | e]; [| eauto].
  destruct (geminiService.generateImage_body response) as [url | cause] eqn:Hbody;
    [| exists cause; split; [reflexivity | right; exists response; auto]].
  unfold geminiService.generateImage_body in Hbody.
  destruct (geminiService.generatedImages response) as [[| first rest] |] eqn:Himages;
    try discriminate.
  destruct (geminiService.image first) as [img |] eqn:Himg; [| discriminate].
  destruct (geminiService.imageBytes img) as [bytes |] eqn:Hbytes; cbn in Hbody;
    [| discriminate].
  destruct (Js.truthy bytes) eqn:Ht; [| discriminate].
  injection Hbody as <-.
  exists response, first, rest, img, bytes.
  do 4 (split; [reflexivity || assumption |]).
  split; [apply Gateway.truthy_spec, Ht |]. split; [reflexivity |].
  - intros name Hd.
    apply (data_url_converts "image/jpeg" bytes name); try assumption.
    + cbn. tauto.
    + cbn. intros H. repeat (destruct H as [[=] | H]). exact H.
    + cbn. intros H. repeat (destruct H as [[=] | H]). exact H.
    + discriminate.
Qed.

(** *** Trimming *)

Lemma blank_append (a b : string) : blank (a ++ b) <-> blank a /\ blank b.
Proof.
  unfold blank. split.
  - intros H. split; intros c Hc; apply H, occurs_append; tauto.
  - intros [Ha Hb] c Hc. apply occurs_append in Hc as [Hc | Hc]; auto.
Qed.

Lemma blank_cons (c : ascii) (s : string) :
  blank (String c s) <-> Js.isWhiteSpace c = true /\ blank s.
Proof.
  unfold blank. cbn. split.
  - intros H. split; [apply H; left; reflexivity | intros c' Hc'; apply H; right; exact Hc'].
  - intros [Hc Hs] c' [-> | Hc']; auto.
Qed.

Lemma blank_empty : blank "".
Proof. intros c []. Qed.

Lemma trimStart_spec (s : string) :
  exists pre, s = pre ++ Js.trimStart s /\ blank pre /\ startsClean (Js.trimStart s).
Proof.
  induction s as [| c s (pre & Heq & Hpre & Hclean)]; cbn.
  - exists "". repeat split. apply blank_empty.
  - destruct (Js.isWhiteSpace c) eqn:Hc.
    + exists (String c pre). scbn. rewrite <- Heq. repeat split; [| exact Hclean].
      apply blank_cons. auto.
    + exists "". repeat split; [apply blank_empty | exact Hc].
Qed.

Lemma trimEnd_spec (s : string) :
  exists post, s = Js.trimEnd s ++ post /\ blank post /\ endsClean (Js.trimEnd s).
Proof.
  induction s as [| c s (post & Heq & Hpost & Hclean)]; cbn.
  - exists "". repeat split. apply blank_empty.
  - destruct (Js.trimEnd s) as [| c' r] eqn:Hr.
    + destruct (Js.isWhiteSpace c) eqn:Hc.
      * exists (String c s). repeat split.
        apply blank_cons. split; [exact Hc |]. rewrite Heq. exact Hpost.
      * exists s. scbn. repeat split; [| exact Hc].
        rewrite Heq. exact Hpost.
    + exists post. split; [| split; [exact Hpost | exact Hclean]].
      rewrite ArtifactStore.append_cons. f_equal. exact Heq.
Qed.

Lemma trimEnd_start (s : string) : startsClean s -> startsClean (Js.trimEnd s).
Proof.
  destruct s as [| c s]; cbn; [trivial |].
  intros Hc. destruct (Js.trimEnd s); [rewrite Hc |]; exact Hc.
Qed.

(** [trim] removes white space from both ends and nothing else. *)
Lemma trim_spec (s : string) :
  exists pre post,
    s = pre ++ Js.trim s ++ post
    /\ blank pre /\ blank post
    /\ startsClean (Js.trim s) /\ endsClean (Js.trim s).
Proof.
  unfold Js.trim.
  destruct (trimStart_spec s) as (pre & Hs & Hpre & Hstart).
  destruct (trimEnd_spec (Js.trimStart s)) as (post & He & Hpost & Hend).
  exists pre, post. rewrite <- He. repeat split; try assumption.
  apply trimEnd_start, Hstart.
Qed.

Lemma trim_blank (s : string) : Js.trim s = "" <-> blank s.
Proof.
  split.
  - intros H. destruct (trim_spec s) as (pre & post & Hs & Hpre & Hpost & _).
    rewrite H in Hs. rewrite Hs. apply blank_append. split; [exact Hpre |].
    apply blank_append. split; [apply blank_empty | exact Hpost].
  - unfold Js.trim. induction s as [| c s IH]; cbn; [reflexivity |].
    intros H. apply blank_cons in H as [Hc Hs]. rewrite Hc. apply IH, Hs.
Qed.

(** The cases of a prompt improvement. *)
Lemma improvePrompt_cases (reply : outcome geminiService.GenerateContentResponse) :
  match geminiService.improvePrompt reply with
  | Returns improved =>
      improved <> "" /\ startsClean improved /\ endsClean improved
      /\ exists response t pre post,
           reply = Returns response
           /\ geminiService.text response = Some t
           /\ t = pre ++ improved ++ post /\ blank pre /\ blank post
  | Throws e =>
      exists cause,
        e = "Failed to improve prompt. " ++ cause
        /\ (reply = Throws cause
            \/ exists response,
                 reply = Returns response
                 /\ match geminiService.text response with
                    | Some t => blank t
                    | None => True
                    end)
  end.
Proof.
  unfold geminiService.improvePrompt, geminiService.improvePrompt_body.
  destruct reply as [response | e]; [| eauto].
  destruct (geminiService.text response) as [t |] eqn:Ht.
  - destruct (Js.truthy (Js.trim t)) eqn:Htrim; cbn.
    + destruct (trim_spec t) as (pre & post & Heq & Hpre & Hpost & Hstart & Hend).
      split; [apply Gateway.truthy_spec, Htrim |].
      split; [exact Hstart |]. split; [exact Hend |].
      exists response, t, pre, post. auto.
    + eexists. split; [reflexivity |]. right. exists response. split; [reflexivity |].
      rewrite Ht. apply trim_blank.
      destruct (Js.trim t); [reflexivity | discriminate].
  - eexists. split; [reflexivity |]. right. exists response. rewrite Ht. auto.
Qed.

(** X10.  An improved prompt is never empty: it is the text of the reply
    without the white space around it, so it neither starts nor ends with
    white space.  A failed call, a reply without text and a reply whose text
    is blank all end in an error with the same prefix. *)
Theorem improved_prompt (reply : outcome geminiService.GenerateContentResponse) :
  match geminiService.improvePrompt reply with
  | Returns improved =>
      improved <> "" /\ startsClean improved /\ endsClean improved
      /\ exists response t pre post,
           reply = Returns response
           /\ geminiService.text response = Some t
           /\ t = pre ++ improved ++ post /\ blank pre /\ blank post
  | Throws e =>
      exists cause,
        e = "Failed to improve prompt. " ++ cause
        /\ (reply = Throws cause
            \/ exists response,
                 reply = Returns response
                 /\ match geminiService.text response with
                    | Some t => blank t
                    | None => True
                    end)
  end.
Proof. exact (improvePrompt_cases reply). Qed.

End Payloads.

(** ** What holds across every event *)

Module Invariants.
Import Spec.

Section Rules.

Context {S : Type} (P : S -> Prop).

Lemma invariant_bind {A B : Type} (m : Async S A) (k : A -> Async S B) :
  invariant P m -> (forall a, invariant P (k a)) -> invariant P (m ≫= k).
Proof.
  intros Hm Hk s Hs. unfold mbind, Async_bind, Async.bind.
  specialize (Hm s Hs). destruct (m s) as [[a | e] s1]; cbn in *; [apply Hk |]; exact Hm.
Qed.

Lemma invariant_try_catch {A : Type} (body : Async S A) (handler : string -> Async S A) :
  invariant P body -> (forall e, invariant P (handler e)) ->
  invariant P (Async.try_catch body handler).
Proof.
  intros Hb Hh s Hs. unfold Async.try_catch.
  specialize (Hb s Hs). destruct (body s) as [[a | e] s1]; cbn in *; [| apply Hh]; exact Hb.
Qed.

Lemma invariant_finally {A : Type} (body : Async S A) (cleanup : Async S unit) :
  invariant P body -> invariant P cleanup -> invariant P (Async.finally body cleanup).
Proof.
  intros Hb Hc s Hs. unfold Async.finally.
  specialize (Hb s Hs). destruct (body s) as [r s1]. cbn in *.
  specialize (Hc s1 Hb). destruct (cleanup s1) as [[[] | e] s2]; exact Hc.
Qed.

(** What depends on an observation only is invariant under what keeps it. *)
Lemma invariant_of_keeps {A X : Type} (observe : S -> X) (m : Async S A) :
  (forall s s', observe s' = observe s -> P s -> P s') ->
  keeps observe m -> invariant P m.
Proof. intros Hobs Hm s Hs. exact (Hobs _ _ (Hm s) Hs). Qed.

(** A computation that ends in [P] from everywhere. *)
Lemma invariant_of_established {A : Type} (m : Async S A) :
  (forall s, P (snd (m s))) -> invariant P m.
Proof. intros H s _. apply H. Qed.

End Rules.

Lemma invariant_lift {A : Type} (P : Session.t -> Prop) (m : Async Session.t A) :
  invariant P m -> invariant (fun sh => P (Shell.session sh)) (Shell.lift m).
Proof.
  intros H sh Hsh. unfold Shell.lift. specialize (H (Shell.session sh) Hsh).
  destruct (m (Shell.session sh)). exact H.
Qed.

Lemma keeps_lift {A X : Type} (observe : Session.t -> X) (m : Async Session.t A) :
  keeps observe m -> keeps (fun sh => observe (Shell.session sh)) (Shell.lift m).
Proof.
  intros H sh. unfold Shell.lift. specialize (H (Shell.session sh)).
  destruct (m (Shell.session sh)). exact H.
Qed.

(** *** The cursor *)

Lemma cursorInRange_place (s s' : Session.t) :
  place (Session.app s') = place (Session.app s) -> cursorInRange s -> cursorInRange s'.
Proof.
  unfold place, cursorInRange, sequence, cursor. intros [= -> ->]. trivial.
Qed.

Lemma keeps_place_invariant {A : Type} (m : Async Session.t A) :
  keeps (fun s => place (Session.app s)) m -> invariant cursorInRange m.
Proof. apply invariant_of_keeps. exact cursorInRange_place. Qed.

Lemma added_in_range (snap : AppState.t) (file : File.t) :
  invariant cursorInRange (App.addImageToHistory snap file).
Proof.
  apply invariant_of_established. intros s. unfold cursorInRange, sequence, cursor.
  change (AppState.historyIndex (Session.app (snd (App.addImageToHistory snap file s))))
    with (Z.of_nat (length (Js.slice0 (AppState.history snap) (AppState.historyIndex snap + 1)
                              ++ [file])%list) - 1).
  change (AppState.history (Session.app (snd (App.addImageToHistory snap file s))))
    with (Js.slice0 (AppState.history snap) (AppState.historyIndex snap + 1) ++ [file])%list.
  destruct (Js.slice0 (AppState.history snap) (AppState.historyIndex snap + 1));
    cbn [app length]; lia.
Qed.

Lemma uploaded_in_range (file : File.t) :
  invariant cursorInRange (App.handleImageUpload file).
Proof.
  apply invariant_of_established. intros s. unfold cursorInRange, sequence, cursor.
  change (AppState.historyIndex (Session.app (snd (App.handleImageUpload file s)))) with 0.
  change (AppState.history (Session.app (snd (App.handleImageUpload file s)))) with [file].
  cbn [length]. lia.
Qed.

Lemma exec_in_range {A : Type} (m : Async Session.t A) :
  (forall s, cursorInRange s -> cursorInRange (Async.exec m s)) ->
  invariant cursorInRange m.
Proof. intros H s Hs. apply H, Hs. Qed.

Ltac place_frame :=
  solve [ apply keeps_place_invariant; frame;
          try (apply Frame.keeps_set; intros ?; reflexivity);
          try (apply (Frame.keeps_call place)) ].

Lemma generic_edit_in_range (editFunction : outcome string) (cost : Z)
      (reason fileSuffix : string) :
  invariant cursorInRange (App.handleGenericEdit editFunction cost reason fileSuffix).
Proof.
  unfold App.handleGenericEdit.
  apply invariant_bind; [place_frame | intros snap].
  destruct (AppState.currentImage (Session.app snap)); [| place_frame].
  apply invariant_bind; [| intros deducted].
  { apply keeps_place_invariant.
    apply (GuardedOperation.deduct_keeps place); intros; reflexivity. }
  destruct (negb deducted); [place_frame |].
  apply invariant_bind; [place_frame | intros _].
  apply invariant_bind; [place_frame | intros _].
  apply invariant_finally; [| place_frame].
  apply invariant_try_catch.
  - apply invariant_bind; [place_frame | intros resultUrl].
    apply invariant_bind; [place_frame | intros now].
    apply invariant_bind; [place_frame | intros newImageFile].
    apply invariant_bind; [apply added_in_range | intros _]. place_frame.
  - intros errorMessage. unfold App.uidOf. place_frame.
Qed.

Lemma handle_in_range (e : Event) : invariant cursorInRange (handle e).
Proof.
  destruct e; cbn [handle].
  - (* a file is chosen *)
    unfold App.handleFileSelect.
    destruct files as [[| file rest] |]; [place_frame | apply uploaded_in_range | place_frame].
  - (* local edit *)
    unfold App.handleGenerate.
    apply invariant_bind; [place_frame | intros snap].
    match goal with |- invariant _ (if ?b then _ else _) => destruct b end; [place_frame |].
    apply invariant_bind; [apply generic_edit_in_range | intros success].
    destruct success as [[|] |]; place_frame.
  - unfold App.handleApplyFilter.
    apply invariant_bind; [apply generic_edit_in_range | intros ?; place_frame].
  - unfold App.handleApplyAdjustment.
    apply invariant_bind; [apply generic_edit_in_range | intros ?; place_frame].
  - (* crop *)
    unfold App.handleApplyCrop.
    apply invariant_bind; [place_frame | intros snap].
    match goal with |- invariant _ (if ?b then _ else _) => destruct b end; [place_frame |].
    match goal with |- invariant _ (if ?b then _ else _) => destruct b end; [place_frame |].
    apply invariant_bind; [place_frame | intros now].
    apply invariant_bind; [place_frame | intros newImageFile].
    apply added_in_range.
  - apply exec_in_range. apply (EditHistory.perform_in_range Undo).
  - apply exec_in_range. apply (EditHistory.perform_in_range Redo).
  - apply exec_in_range. apply (EditHistory.perform_in_range ResetToOriginal).
  - (* home *)
    intros s Hs. unfold App.handleGoHome, cursorInRange, sequence, cursor. unfold_async.
    destruct (AppState.currentUser (Session.app s)) eqn:Hu; cbn.
    + reflexivity.
    + exact Hs.
  - unfold App.dismissError. place_frame.
  - unfold App.handleUpdateUser. place_frame.
  - unfold App.handlePurchaseCredits. place_frame.
  - unfold ImageGenerator.handlePresetClick. place_frame.
  - (* image generation *)
    unfold ImageGenerator.handleGenerate, App.handleImageGenerated.
    apply invariant_bind; [place_frame | intros snap].
    match goal with |- invariant _ (if ?b then _ else _) => destruct b end; [place_frame |].
    apply invariant_bind; [| intros deducted].
    { apply keeps_place_invariant.
      apply (GuardedOperation.deduct_keeps place); intros; reflexivity. }
    destruct (negb deducted); place_frame.
  - (* upscale *)
    unfold App.handleUpscaleImage.
    apply invariant_bind; [| intros ?; place_frame].
    apply invariant_bind; [place_frame | intros snap].
    destruct (AppState.currentUser (Session.app snap)); [| place_frame].
    apply invariant_bind; [| intros deducted].
    { apply keeps_place_invariant.
      apply (GuardedOperation.deduct_keeps place); intros; reflexivity. }
    destruct (negb deducted); place_frame.
Qed.

Lemma signed_out_in_range (user : option Shell.Identity) (sh : Shell.t) :
  match user with Some u => Shell.emailVerified u = false | None => True end ->
  cursorInRange (Shell.session (snd (App.onAuthStateChanged user sh))).
Proof.
  intros Hu. unfold App.onAuthStateChanged.
  destruct user as [u |]; [rewrite Hu |]; reflexivity.
Qed.

Lemma auth_change_in_range (user : option Shell.Identity) :
  invariant (fun sh => cursorInRange (Shell.session sh)) (App.onAuthStateChanged user).
Proof.
  destruct user as [u |]; [destruct (Shell.emailVerified u) eqn:Hv |].
  2, 3: intros sh _; apply signed_out_in_range; auto.
  unfold App.onAuthStateChanged. rewrite Hv.
  apply (invariant_of_keeps _ (fun sh => place (Session.app (Shell.session sh)))).
  { intros sh sh'. apply cursorInRange_place. }
  unfold App.setAuthUser, App.setAuthLoading.
  repeat first
    [ apply Frame.keeps_bind; [| intros ?]
    | apply Frame.keeps_modify; intros ?; reflexivity
    | apply Frame.keeps_ret
    | apply (keeps_lift (fun s => place (Session.app s))); frame;
      try (apply (Frame.keeps_call place))
    | match goal with
      | |- keeps _ (match ?x with _ => _ end) => destruct x
      end ].
Qed.

Lemma dispatch_in_range (e : ShellEvent) :
  invariant (fun sh => cursorInRange (Shell.session sh)) (dispatch e).
Proof.
  destruct e as [user | [[] | e] | e]; cbn [dispatch App.handleLogout].
  - apply auth_change_in_range.
  - apply auth_change_in_range.
  - apply (invariant_lift cursorInRange). unfold_setters.
    apply keeps_place_invariant. apply Frame.keeps_set. intros ?. reflexivity.
  - apply (invariant_lift cursorInRange), handle_in_range.
Qed.

(** X11.  The cursor stays in range across every run of events: file
    selection, the three AI edits, crop, undo, redo, reset, home, dismissal,
    profile change, purchase, preset, image generation, upscale, sign-in
    changes and log-out, whatever the model, the payloads and the stores
    answer, and whether a handler returns or throws.  On a non-empty history
    the cursor is within [0, length-1], on the empty one it is -1. *)
Theorem cursor_in_range_always (events : list ShellEvent) (sh : Shell.t) :
  cursorInRange (Shell.session sh) ->
  cursorInRange (Shell.session (run events sh)).
Proof.
  revert sh. induction events as [| e events IH]; intros sh Hsh; [exact Hsh |].
  cbn. apply IH. apply (dispatch_in_range e sh Hsh).
Qed.

(** From the state [App] mounts with: a file is chosen, an edit fails on its
    payload, the user steps back and logs out. *)
Lemma cursor_in_range_always_witness :
  cursorInRange
    (Shell.session
       (run [AuthStateChanged (Some (Shell.mkIdentity "u1" true));
             InSession (FilesSelected (Some [Scenario.original]));
             InSession (FilterRequested (Returns "data:image/png;base64,@"));
             InSession UndoClicked;
             LogoutClicked (Returns tt)]
            (Shell.initial
               (Session.mk AppState.initial (GeneratorState.mk "" false None)
                  (Scenario.world 25))))).
Proof. apply cursor_in_range_always. reflexivity. Defined.

End Invariants.

(** ** The handlers beside the guarded path *)

Module Sessions.
Import Spec.

(** X12.  A request that is not ready is refused before the credit check.
    A local edit without a prompt, a selected point or an image, a filter or
    an adjustment without an image, and an image generation without a prompt
    write nothing to the stores, leave the profile and the edit history as
    they were, and report an error. *)
Theorem unready_request_free (op : GuardedOp) (s : Session.t) :
  ~ requestReady op s ->
  let s' := Async.exec (invoke op) s in
  Async.result (invoke op) s = Returns tt
  /\ Session.world s' = Session.world s
  /\ AppState.currentUser (Session.app s') = AppState.currentUser (Session.app s)
  /\ sequence s' = sequence s /\ cursor s' = cursor s
  /\ exists message,
       AppState.error (Session.app s') = Some message
       \/ GeneratorState.error (Session.form s') = Some message.
Proof.
  intros Hnot s'. subst s'. unfold Async.exec, Async.result, sequence, cursor.
  destruct op as [edited | filtered | adjusted | image reply | reply docId];
    cbn [invoke requestReady] in *.
  - unfold App.handleGenerate. unfold_async. cbv beta iota zeta.
    destruct (Js.truthy (Js.trim (AppState.prompt (Session.app s)))) eqn:Hp;
      cbn [negb orb]; [| cbn; eauto 10].
    destruct (AppState.editHotspot (Session.app s)) as [h |] eqn:Hh; [| cbn; eauto 10].
    rewrite bool_decide_true by eauto. cbn [negb].
    unfold App.handleGenericEdit. unfold_async. cbv beta iota zeta.
    destruct (AppState.currentImage (Session.app s)) eqn:Hi; [| cbn; eauto 10].
    exfalso. apply Hnot. eauto.
  - unfold App.handleApplyFilter, App.handleGenericEdit. unfold_async. cbv beta iota zeta.
    destruct (AppState.currentImage (Session.app s)) eqn:Hi; [| cbn; eauto 10].
    exfalso. apply Hnot. eauto.
  - unfold App.handleApplyAdjustment, App.handleGenericEdit. unfold_async.
    cbv beta iota zeta.
    destruct (AppState.currentImage (Session.app s)) eqn:Hi; [| cbn; eauto 10].
    exfalso. apply Hnot. eauto.
  - tauto.
  - unfold ImageGenerator.handleGenerate. unfold_async. cbv beta iota zeta.
    destruct (Js.truthy (Js.trim (GeneratorState.prompt (Session.form s)))) eqn:Hp;
      [tauto |].
    cbn. eauto 10.
Qed.

(** A local edit asked with a prompt of white space only. *)
Lemma unready_request_free_witness :
  let s := Session.with_app (AppState.with_prompt "   ")
             (Scenario.editing 10 [Scenario.original] 0) in
  Session.world (Async.exec (invoke (LocalEdit (Returns "data:image/png;base64,aGk="))) s)
  = Session.world s.
Proof.
  intros s.
  refine (proj1 (proj2 (unready_request_free
                          (LocalEdit (Returns "data:image/png;base64,aGk=")) s _))).
  cbn. intros (_ & H & _). discriminate H.
Defined.

(** X13.  A crop costs nothing and calls no service: the stores and the
    profile are as before.  It returns either with an error and the history
    untouched (no completed selection, no image element or no drawing
    context), or with the converted payload appended after the cursor, the
    cursor on it and the crop selection cleared.  When the payload does not
    convert, the failure escapes the handler: the session is unchanged and no
    error is recorded. *)
Theorem crop_outcomes (imgRefCurrent canvasContext : bool) (croppedImageUrl : string)
        (s : Session.t) :
  let m := App.handleApplyCrop imgRefCurrent canvasContext croppedImageUrl in
  let name := "cropped-" ++ Js.showZ (World.now (Session.world s)) ++ ".png" in
  let s' := Async.exec m s in
  Session.world s' = Session.world s
  /\ AppState.currentUser (Session.app s') = AppState.currentUser (Session.app s)
  /\ match Async.result m s with
     | Throws e => App.dataURLtoFile croppedImageUrl name = Throws e /\ s' = s
     | Returns _ =>
         (exists message,
            AppState.error (Session.app s') = Some message
            /\ sequence s' = sequence s /\ cursor s' = cursor s
            /\ (AppState.completedCrop (Session.app s) = None
                \/ imgRefCurrent = false \/ canvasContext = false))
         \/ (exists file,
               App.dataURLtoFile croppedImageUrl name = Returns file
               /\ sequence s' = (Js.slice0 (sequence s) (cursor s + 1) ++ [file])%list
               /\ cursor s' = Z.of_nat (length (sequence s')) - 1
               /\ AppState.crop (Session.app s') = None
               /\ AppState.completedCrop (Session.app s') = None
               /\ AppState.error (Session.app s') = AppState.error (Session.app s))
     end.
Proof.
  intros m name s'. subst m name s'.
  unfold Async.exec, Async.result, App.handleApplyCrop, sequence, cursor. unfold_async.
  cbv beta iota zeta.
  destruct (AppState.completedCrop (Session.app s)) as [c |] eqn:Hc.
  2: { cbn. repeat split. left. eexists. repeat split; auto. }
  rewrite bool_decide_true by eauto. cbn [negb orb].
  destruct imgRefCurrent; cbn [negb].
  2: { cbn. repeat split. left. eexists. repeat split; auto. }
  destruct canvasContext; cbn [negb].
  2: { cbn. repeat split. left. eexists. repeat split; auto. }
  unfold Session.dateNow. cbv beta iota.
  destruct (App.dataURLtoFile croppedImageUrl
              ("cropped-" ++ Js.showZ (World.now (Session.world s)) ++ ".png"))
    as [file | e] eqn:Hfile; cbv beta iota.
  - repeat split. right. exists file. repeat split.
  - cbn. repeat split.
Qed.

(** X14.  A purchase of credits, with the stores available: the stored and
    the shown balance are the stored balance plus the amount, one transaction
    with the reason and the amount is recorded at the end of the stored
    history when no identical one is there, the application goes to the start
    screen, and the edit history and the gallery are untouched. *)
Theorem purchase_credits (creditAmount : Z) (reason : string) (s : Session.t)
        (u doc : User.t) :
  AppState.currentUser (Session.app s) = Some u ->
  World.users (Session.world s) !! User.uid u = Some doc ->
  reliable s ->
  let s' := Async.exec (App.handlePurchaseCredits creditAmount reason) s in
  Async.result (App.handlePurchaseCredits creditAmount reason) s = Returns tt
  /\ ledgerBalance (User.uid u) s' = Some (User.credits doc + creditAmount)
  /\ shownBalance s' = Some (User.credits doc + creditAmount)
  /\ World.users (Session.world s') !! User.uid u
     = Some (adjusted creditAmount reason (World.now (Session.world s)) doc)
  /\ AppState.appMode (Session.app s') = AppMode.start
  /\ sequence s' = sequence s /\ cursor s' = cursor s
  /\ World.gallery (Session.world s') = World.gallery (Session.world s).
Proof.
  intros Hu Hdoc Hrel s'. subst s'.
  unfold Async.exec, Async.result, App.handlePurchaseCredits. unfold_async.
  cbv beta iota zeta. rewrite Hu. unfold Session.call.
  rewrite (Ledger.updateUserCredits_reliable _ creditAmount reason _ doc Hrel Hdoc).
  unfold ledgerBalance, shownBalance, sequence, cursor. cbn.
  rewrite lookup_insert_eq. repeat split.
Qed.

Lemma purchase_credits_witness :
  let s := Scenario.editing 3 [Scenario.original] 0 in
  shownBalance (Async.exec (App.handlePurchaseCredits 100 "Purchase: Starter") s)
  = Some 103.
Proof.
  intros s.
  exact (proj1 (proj2 (proj2
           (purchase_credits 100 "Purchase: Starter" s (Scenario.alice 3) (Scenario.alice 3)
              eq_refl eq_refl eq_refl)))).
Defined.

(** *** Sign-in changes *)

(** X15.  When the sign-in listener is called with no identity, or with one
    whose e-mail is not verified, the session is cleared: no identity, no
    profile, no gallery entries, the empty edit history with the cursor on -1,
    the start mode, and the loading flag off, so that the sign-in screen is
    rendered.  No service is called. *)
Theorem signed_out_session (user : option Shell.Identity) (sh : Shell.t) :
  match user with Some u => Shell.emailVerified u = false | None => True end ->
  let sh' := Async.exec (App.onAuthStateChanged user) sh in
  let a' := Session.app (Shell.session sh') in
  Async.result (App.onAuthStateChanged user) sh = Returns tt
  /\ Shell.authUser sh' = None /\ Shell.authLoading sh' = false
  /\ AppState.currentUser a' = None
  /\ AppState.allGeneratedImages a' = []
  /\ AppState.history a' = [] /\ AppState.historyIndex a' = -1
  /\ AppState.appMode a' = AppMode.start
  /\ Session.world (Shell.session sh') = Session.world (Shell.session sh)
  /\ forall currentImageUrl, App.renderContent sh' currentImageUrl = App.AuthScreen.
Proof.
  intros Hu. unfold App.onAuthStateChanged.
  destruct user as [u |]; [rewrite Hu |]; repeat split.
Qed.

Lemma signed_out_session_witness :
  App.renderContent
    (Async.exec (App.onAuthStateChanged (Some (Shell.mkIdentity "u1" false)))
       (Shell.initial (Scenario.editing 10 [Scenario.original] 0)))
    (Some "blob:1")
  = App.AuthScreen.
Proof.
  destruct (signed_out_session (Some (Shell.mkIdentity "u1" false))
              (Shell.initial (Scenario.editing 10 [Scenario.original] 0)) eq_refl)
    as (_ & _ & _ & _ & _ & _ & _ & _ & _ & Hscreen).
  exact (Hscreen (Some "blob:1")).
Defined.

Lemma getGalleryImages_reliable (uid : string) (w : World.t) :
  World.outages w = [] ->
  userService.getGalleryImages uid w
  = (Returns (foldr userService.insertEntry [] (userService.galleryDocs uid w)), w).
Proof.
  intros H. unfold userService.getGalleryImages. unfold_async.
  rewrite (Ledger.remote_reliable _ _ H). reflexivity.
Qed.

(** X16.  When the listener is called with a verified identity and the
    stores are available: the identity is recorded and the loading flag goes
    off; if a profile is stored for it, the session holds that profile and
    exactly the gallery entries stored for it, newest first; if none is
    stored, the session is left as it was.  The stores and the edit history
    are untouched either way. *)
Theorem signed_in_session (u : Shell.Identity) (sh : Shell.t) :
  Shell.emailVerified u = true ->
  reliable (Shell.session sh) ->
  let sh' := Async.exec (App.onAuthStateChanged (Some u)) sh in
  let a' := Session.app (Shell.session sh') in
  let w := Session.world (Shell.session sh) in
  Async.result (App.onAuthStateChanged (Some u)) sh = Returns tt
  /\ Shell.authUser sh' = Some u /\ Shell.authLoading sh' = false
  /\ Session.world (Shell.session sh') = w
  /\ place a' = place (Session.app (Shell.session sh))
  /\ match World.users w !! Shell.uid u with
     | Some doc =>
         AppState.currentUser a' = Some (profileOf doc)
         /\ (forall g, g ∈ AppState.allGeneratedImages a' <-> storedEntry (Shell.uid u) g w)
         /\ newestEntryFirst (AppState.allGeneratedImages a')
     | None => Shell.session sh' = Shell.session sh
     end.
Proof.
  intros Hv Hrel sh' a' w. subst sh' a' w.
  unfold Async.exec, Async.result, App.onAuthStateChanged. rewrite Hv.
  unfold Shell.lift, Session.call, App.setAuthUser, App.setAuthLoading. unfold_async.
  cbn [Shell.session Shell.with_authUser].
  rewrite (Ledger.getUserProfile_reliable _ _ Hrel).
  destruct (World.users (Session.world (Shell.session sh)) !! Shell.uid u) as [doc |];
    cbn [fmap option_fmap option_map].
  - unfold_setters. unfold_async. cbn [Shell.session Session.world Session.with_app].
    rewrite (getGalleryImages_reliable _ _ Hrel). cbn.
    repeat (split; [reflexivity |]). split; [| apply GalleryStore.listing_sorted].
    intros g. rewrite (GalleryStore.listing_perm _). apply GalleryStore.galleryDocs_spec.
  - cbn. destruct sh as [au al [a f w]]. repeat split.
Qed.

Lemma signed_in_session_witness :
  let sh := Shell.initial
              (Session.mk AppState.initial (GeneratorState.mk "" false None)
                 (Scenario.world 25)) in
  Shell.authLoading (Async.exec (App.onAuthStateChanged (Some (Shell.mkIdentity "u1" true))) sh)
  = false.
Proof.
  intros sh.
  exact (proj1 (proj2 (proj2
           (signed_in_session (Shell.mkIdentity "u1" true) sh eq_refl eq_refl)))).
Defined.

(** X17.  When the profile cannot be read for a verified identity, the
    failure escapes the listener before the loading flag is cleared: the flag
    and the session are as before, so an application that was still loading
    keeps showing the spinner. *)
Theorem failed_profile_read (u : Shell.Identity) (sh : Shell.t) (rest : list bool) :
  Shell.emailVerified u = true ->
  World.outages (Session.world (Shell.session sh)) = true :: rest ->
  let sh' := Async.exec (App.onAuthStateChanged (Some u)) sh in
  (exists e, Async.result (App.onAuthStateChanged (Some u)) sh = Throws e)
  /\ Shell.authUser sh' = Some u
  /\ Shell.authLoading sh' = Shell.authLoading sh
  /\ Session.app (Shell.session sh') = Session.app (Shell.session sh)
  /\ (Shell.authLoading sh = true ->
      forall currentImageUrl, App.renderContent sh' currentImageUrl = App.SpinnerScreen).
Proof.
  intros Hv Hout sh'. subst sh'.
  unfold Async.exec, Async.result, App.onAuthStateChanged. rewrite Hv.
  unfold Shell.lift, Session.call, App.setAuthUser, App.setAuthLoading,
    userService.getUserProfile, World.remote. unfold_async.
  cbn [Shell.session Shell.with_authUser]. rewrite Hout. cbn.
  repeat split; eauto.
  intros Hl url. unfold App.renderContent. cbn. rewrite Hl. reflexivity.
Qed.

Lemma failed_profile_read_witness :
  let sh := Shell.initial
              (Session.mk AppState.initial (GeneratorState.mk "" false None)
                 (World.set_outages [true] (Scenario.world 25))) in
  App.renderContent
    (Async.exec (App.onAuthStateChanged (Some (Shell.mkIdentity "u1" true))) sh) None
  = App.SpinnerScreen.
Proof.
  intros sh.
  exact (proj2 (proj2 (proj2 (proj2
           (failed_profile_read (Shell.mkIdentity "u1" true) sh [] eq_refl eq_refl))))
           eq_refl None).
Defined.

(** X18.  A log-out that the auth service accepts clears the session as a
    sign-in change with no identity does; one that it rejects changes the
    error cell only: the identity, the profile, the histories and the stores
    stay. *)
Theorem logout_outcomes (signOut : outcome unit) (sh : Shell.t) :
  let sh' := Async.exec (App.handleLogout signOut) sh in
  let a := Session.app (Shell.session sh) in
  let a' := Session.app (Shell.session sh') in
  Async.result (App.handleLogout signOut) sh = Returns tt
  /\ Session.world (Shell.session sh') = Session.world (Shell.session sh)
  /\ match signOut with
     | Returns _ =>
         Shell.authUser sh' = None /\ Shell.authLoading sh' = false
         /\ AppState.currentUser a' = None
         /\ AppState.allGeneratedImages a' = []
         /\ AppState.history a' = [] /\ AppState.historyIndex a' = -1
         /\ AppState.appMode a' = AppMode.start
     | Throws _ =>
         Shell.authUser sh' = Shell.authUser sh
         /\ Shell.authLoading sh' = Shell.authLoading sh
         /\ a' = AppState.with_error (Some "Failed to sign out.") a
     end.
Proof. destruct signOut as [[] | e]; repeat split. Qed.

(** *** What is rendered *)

(** X19.  The screen.  While the sign-in is loading the spinner is rendered,
    and without a profile the sign-in screen, whatever the mode and the error
    cell hold.  The error panel is rendered exactly when a profile is held, an
    error is recorded that is not empty, and the mode is not pricing: in
    pricing mode the purchase screen is rendered even with an error recorded.
    The editor is rendered only in editor mode with no error shown and a
    non-empty URL for the current image. *)
Theorem rendered_screen (sh : Shell.t) (currentImageUrl : option string) :
  let a := Session.app (Shell.session sh) in
  let screen := App.renderContent sh currentImageUrl in
  (Shell.authLoading sh = true -> screen = App.SpinnerScreen)
  /\ (Shell.authLoading sh = false -> AppState.currentUser a = None ->
      screen = App.AuthScreen)
  /\ (forall message,
        screen = App.ErrorPanel message
        <-> Shell.authLoading sh = false
            /\ is_Some (AppState.currentUser a)
            /\ AppState.error a = Some message /\ message <> ""
            /\ AppState.appMode a <> AppMode.pricing)
  /\ (Shell.authLoading sh = false -> is_Some (AppState.currentUser a) ->
      AppState.appMode a = AppMode.pricing -> screen = App.PricingScreen)
  /\ (forall url,
        screen = App.EditorScreen url ->
        AppState.appMode a = AppMode.editor
        /\ App.errorShown a = None
        /\ currentImageUrl = Some url /\ url <> "").
Proof.
  intros a screen. subst a screen. unfold App.renderContent, App.renderEditor, App.errorShown.
  destruct (Shell.authLoading sh);
    destruct (AppState.currentUser (Session.app (Shell.session sh))) as [u |];
    destruct (AppState.error (Session.app (Shell.session sh))) as [[| c m] |];
    destruct (AppState.appMode (Session.app (Shell.session sh)));
    destruct currentImageUrl as [[| c' url'] |]; cbn;
    (split; [intros; congruence |]);
    (split; [intros; congruence |]);
    (split; [intros message; split;
               [intros H; try discriminate H; injection H as <-;
                repeat split; eauto; congruence
               | intros (H1 & [? H2] & H3 & H4 & H5); congruence] |]);
    (split; [intros ? [? ?] ?; congruence |]);
    intros url H; try discriminate H; injection H as <-; repeat split; congruence.
Qed.

End Sessions.

(** ** The forms of the components *)

Module Forms.
Import Spec.

(** *** components/ImageGenerator.tsx *)

Lemma endsWith_spec (suffix s : string) :
  Js.endsWith suffix s = true <-> exists stem, s = stem ++ suffix.
Proof.
  induction s as [| c s IH]; cbn [Js.endsWith].
  - rewrite orb_false_r. split.
    + intros H. apply String.eqb_eq in H as <-. exists "". reflexivity.
    + intros [[| c stem] H]; [| discriminate H].
      rewrite ArtifactStore.append_nil in H. subst suffix. reflexivity.
  - rewrite orb_true_iff, IH. split.
    + intros [H | [stem ->]].
      * apply String.eqb_eq in H as <-. exists "". reflexivity.
      * exists (String c stem). reflexivity.
    + intros [[| c' stem] H].
      * left. rewrite ArtifactStore.append_nil in H. subst suffix. apply String.eqb_refl.
      * right. rewrite ArtifactStore.append_cons in H. injection H as -> ->.
        exists stem. reflexivity.
Qed.

(** X20.  A style preset added to a prompt.  On a blank prompt the result is
    the preset alone.  Otherwise the result is the prompt without the white
    space around it, then the preset, and between the two exactly one comma
    and one space: a prompt that ends with a comma already does not get a
    second one. *)
Theorem preset_appended (presetPrompt currentPrompt : string) :
  let result := ImageGenerator.withPreset presetPrompt currentPrompt in
  let base := Js.trim currentPrompt in
  (blank currentPrompt -> result = presetPrompt)
  /\ (~ blank currentPrompt ->
      exists kept,
        result = kept ++ ", " ++ presetPrompt
        /\ (base = kept ++ "," \/ (base = kept /\ forall stem, base <> stem ++ ",")))
  /\ exists before, result = before ++ presetPrompt.
Proof.
  intros result base. subst result base. unfold ImageGenerator.withPreset.
  destruct (Js.trim currentPrompt) as [| c t] eqn:Htrim; cbn [Js.truthy negb].
  - split; [reflexivity |]. split; [| exists ""; reflexivity].
    intros Hnb. exfalso. apply Hnb, Payloads.trim_blank, Htrim.
  - assert (Hnb : ~ blank currentPrompt).
    { intros Hb. apply Payloads.trim_blank in Hb. congruence. }
    split; [tauto |].
    destruct (Js.endsWith "," (String c t)) eqn:Hends.
    + apply endsWith_spec in Hends as [stem Hstem]. rewrite Hstem.
      split.
      * intros _. exists stem. split; [| left; reflexivity].
        rewrite !Payloads.append_assoc. reflexivity.
      * exists (stem ++ ", "). rewrite !Payloads.append_assoc. reflexivity.
    + split.
      * intros _. exists (String c t). split; [reflexivity |]. right. split; [reflexivity |].
        intros stem Hstem.
        assert (Js.endsWith "," (String c t) = true) by (apply endsWith_spec; eauto).
        congruence.
      * exists (String c t ++ ", "). rewrite !Payloads.append_assoc. reflexivity.
Qed.

(** X21.  The cells of the prompt improvement.  For a blank prompt the model
    is not consulted: an error is recorded and the earlier suggestion stays.
    Otherwise the handler ends with the busy flag off and with exactly one of
    a suggestion and an error: a suggestion is not empty and has no white
    space around it, an error carries the prefix of the gateway. *)
Theorem improver_cells (prompt : string)
        (reply : outcome geminiService.GenerateContentResponse)
        (i : ImageGenerator.Improver) :
  let i' := ImageGenerator.handleImprovePrompt prompt reply i in
  (blank prompt ->
   ImageGenerator.improveError i' = Some "Please enter a prompt to improve."
   /\ ImageGenerator.enhancedPrompt i' = ImageGenerator.enhancedPrompt i
   /\ ImageGenerator.isImprovingPrompt i' = ImageGenerator.isImprovingPrompt i)
  /\ (~ blank prompt ->
      ImageGenerator.isImprovingPrompt i' = false
      /\ match ImageGenerator.enhancedPrompt i', ImageGenerator.improveError i' with
         | Some improved, None =>
             improved <> "" /\ startsClean improved /\ endsClean improved
         | None, Some e => exists cause, e = "Failed to improve prompt. " ++ cause
         | _, _ => False
         end).
Proof.
  intros i'. subst i'. unfold ImageGenerator.handleImprovePrompt.
  destruct (Js.trim prompt) as [| c t] eqn:Htrim; cbn [Js.truthy negb].
  - split; [intros _; repeat split |].
    intros Hnb. exfalso. apply Hnb, Payloads.trim_blank, Htrim.
  - split.
    { intros Hb. apply Payloads.trim_blank in Hb. congruence. }
    intros _. pose proof (Payloads.improvePrompt_cases reply) as H.
    destruct (geminiService.improvePrompt reply) as [improved | e]; cbn.
    + split; [reflexivity |]. tauto.
    + split; [reflexivity |]. destruct H as (cause & -> & _). eauto.
Qed.

(** *** components/GalleryScreen.tsx *)

Lemma listed_first (first : GeneratedImage.t) (rest : list GeneratedImage.t) :
  existsb (fun img => String.eqb (GeneratedImage.id img) (GeneratedImage.id first))
          (first :: rest) = true.
Proof. cbn. rewrite String.eqb_refl. reflexivity. Qed.

Lemma listed_spec (sel : GeneratedImage.t) (images : list GeneratedImage.t) :
  existsb (fun img => String.eqb (GeneratedImage.id img) (GeneratedImage.id sel)) images
  = true
  <-> GeneratedImage.id sel ∈ map GeneratedImage.id images.
Proof.
  rewrite existsb_exists, list_elem_of_fmap. split.
  - intros (img & Hin & Heq). apply String.eqb_eq in Heq.
    exists img. split; [congruence | apply list_elem_of_In, Hin].
  - intros (img & Heq & Hin). exists img.
    split; [apply list_elem_of_In, Hin | apply String.eqb_eq; congruence].
Qed.

(** X22.  The selection effect of the gallery.  After it has run, the
    gallery shows the images it was given; nothing is selected when there are
    none, and otherwise the selected image carries the id of a listed one: the
    earlier selection when its id is still listed, the first image when not.
    Running the effect again changes nothing, so the effect settles. *)
Theorem selection_synced (images : list GeneratedImage.t) (g : GalleryScreen.t) :
  let g' := GalleryScreen.syncSelection images g in
  GalleryScreen.currentImages g' = images
  /\ (images = [] -> GalleryScreen.selectedImage g' = None)
  /\ (images <> [] ->
      exists sel,
        GalleryScreen.selectedImage g' = Some sel
        /\ GeneratedImage.id sel ∈ map GeneratedImage.id images)
  /\ (forall sel,
        GalleryScreen.selectedImage g = Some sel ->
        GeneratedImage.id sel ∈ map GeneratedImage.id images ->
        GalleryScreen.selectedImage g' = Some sel)
  /\ (forall sel first rest,
        GalleryScreen.selectedImage g = Some sel ->
        images = first :: rest ->
        GeneratedImage.id sel ∉ map GeneratedImage.id images ->
        GalleryScreen.selectedImage g' = Some first)
  /\ GalleryScreen.syncSelection images g' = g'.
Proof.
  intros g'. subst g'. unfold GalleryScreen.syncSelection.
  destruct images as [| first rest].
  - cbn. repeat split; try congruence.
    intros sel _ Hin. inversion Hin.
  - cbn [GalleryScreen.currentImages GalleryScreen.selectedImage
         GalleryScreen.isUpscaling GalleryScreen.upscaleError].
    destruct (GalleryScreen.selectedImage g) as [sel |] eqn:Hsel.
    + destruct (existsb _ (first :: rest)) eqn:Hlisted.
      * pose proof (proj1 (listed_spec sel (first :: rest)) Hlisted) as Hin.
        split; [reflexivity |]. split; [congruence |].
        split; [intros _; exists sel; auto |].
        split; [intros sel' [= <-] _; reflexivity |].
        split; [intros sel' f r [= <-] _ Hout; contradiction |].
        rewrite Hlisted. reflexivity.
      * assert (Hout : GeneratedImage.id sel ∉ map GeneratedImage.id (first :: rest)).
        { intros Hin. apply listed_spec in Hin. congruence. }
        split; [reflexivity |]. split; [congruence |].
        split; [intros _; exists first; split; [reflexivity | left] |].
        split; [intros sel' [= <-] Hin; contradiction |].
        split; [intros sel' f r _ [= <- <-] _; reflexivity |].
        rewrite listed_first. reflexivity.
    + split; [reflexivity |]. split; [congruence |].
      split; [intros _; exists first; split; [reflexivity | left] |].
      split; [intros sel' [=] |]. split; [intros sel' f r [=] |].
      rewrite listed_first. reflexivity.
Qed.

Lemma deduct_never_declines (amount : Z) (reason : string) (s s' : Session.t) (u : User.t) :
  AppState.currentUser (Session.app s) = Some u ->
  amount <= User.credits u ->
  App.handleDeductCredits amount reason s <> (Returns false, s').
Proof.
  intros Hu Hle. unfold App.handleDeductCredits. unfold_async. cbv beta iota.
  rewrite Hu. destruct (Z.ltb_spec (User.credits u) amount) as [Hlt | _]; [lia |].
  unfold Session.call.
  pose proof (LedgerClient.updateUserCredits_cases (User.uid u) (- amount) reason
                (Session.world s)) as H. cbv zeta in H.
  destruct (userService.updateUserCredits (User.uid u) (- amount) reason (Session.world s))
    as [[profile | e] w']; cbn [fst snd] in H; [| discriminate].
  destruct H as (doc & _ & -> & _). discriminate.
Qed.

Lemma upscale_never_declines (image : GeneratedImage.t)
      (reply : outcome geminiService.GenerateContentResponse) (s : Session.t) (u : User.t) :
  AppState.currentUser (Session.app s) = Some u ->
  1 <= User.credits u ->
  Async.result (App.handleUpscaleImage image reply) s <> Returns None.
Proof.
  intros Hu Hle Hret. unfold Async.result in Hret.
  destruct (App.handleUpscaleImage image reply s) as [r s'] eqn:Hrun.
  cbn in Hret. subst r. unfold App.handleUpscaleImage in Hrun.
  apply Frame.bind_returns in Hrun as (snap & s0 & [= <- <-] & Hrun).
  rewrite Hu in Hrun. cbv zeta in Hrun.
  apply Frame.bind_returns in Hrun as (deducted & s1 & Hdeduct & Hrun).
  destruct deducted; cbn [negb] in Hrun.
  - apply Frame.try_catch_returns in Hrun as [Hbody | (e & s2 & _ & Hhandler)].
    + apply Frame.bind_returns in Hbody as (upscaledUrl & s2 & _ & Hbody).
      apply Frame.bind_returns in Hbody as (upscaledFile & s3 & _ & Hbody).
      apply Frame.bind_returns in Hbody as (newDownloadUrl & s4 & _ & Hbody).
      apply Frame.bind_returns in Hbody as (updatedImage & s5 & _ & Hbody).
      apply Frame.bind_returns in Hbody as ([] & s6 & _ & [=]).
    + apply Frame.bind_returns in Hhandler as ([] & s3 & _ & Hhandler).
      apply Frame.bind_returns in Hhandler as (refundedUser & s4 & _ & Hhandler).
      apply Frame.bind_returns in Hhandler as ([] & s5 & _ & [=]).
  - exact (deduct_never_declines _ _ _ _ _ Hu Hle Hdeduct).
Qed.

(** X23.  The upscale button of the gallery, for a selected entry that is
    stored and a balance that covers the cost.  Whatever the model and the
    stores do, the handler ends with the busy flag off and an entry selected
    that carries the id, the prompt and the creation time of the one that was
    selected: the entry itself, or the entry with a new reference and the
    upscaled flag set.  When the gallery records an error, the selection is
    the entry itself. *)
Theorem upscale_selection (reply : outcome geminiService.GenerateContentResponse)
        (g : GalleryScreen.t) (s : Session.t) (sel : GeneratedImage.t) (u : User.t) :
  GalleryScreen.selectedImage g = Some sel ->
  AppState.currentUser (Session.app s) = Some u ->
  1 <= User.credits u ->
  stored (User.uid u) sel s ->
  let g' := fst (GalleryScreen.handleUpscale (User.credits u) reply g s) in
  GalleryScreen.isUpscaling g' = false
  /\ GalleryScreen.currentImages g' = GalleryScreen.currentImages g
  /\ (exists x,
        GalleryScreen.selectedImage g' = Some x
        /\ (x = sel
            \/ exists reference,
                 x = GeneratedImage.mk (GeneratedImage.id sel) reference
                       (GeneratedImage.prompt sel) true (GeneratedImage.createdAt sel)))
  /\ (is_Some (GalleryScreen.upscaleError g') -> GalleryScreen.selectedImage g' = Some sel).
Proof.
  intros Hsel Hu Hle Hstored g'. subst g'. unfold GalleryScreen.handleUpscale.
  rewrite Hsel. destruct (Z.ltb_spec (User.credits u) 1) as [Hlt | _]; [lia |].
  pose proof (Gallery.upscale_returns sel reply s u) as Hret.
  pose proof (upscale_never_declines sel reply s u Hu Hle) as Hsome.
  unfold Async.result in Hret, Hsome.
  destruct (App.handleUpscaleImage sel reply s) as [[[x |] | e] s'];
    cbn [fst snd] in *.
  - repeat split; [| intros [? [=]]].
    exists x. split; [reflexivity |]. apply (Hret x Hu Hstored eq_refl).
  - congruence.
  - repeat split; eauto.
Qed.

Lemma upscale_selection_witness :
  let g := GalleryScreen.mk (Some Scenario.entry) false None [Scenario.entry] in
  let s := Scenario.editing 10 [Scenario.original] 0 in
  GalleryScreen.isUpscaling
    (fst (GalleryScreen.handleUpscale 10 (Returns Scenario.imageResponse) g s))
  = false.
Proof.
  intros g s.
  exact (proj1 (upscale_selection (Returns Scenario.imageResponse) g s Scenario.entry
                  (Scenario.alice 10) eq_refl eq_refl ltac:(cbn; lia) eq_refl)).
Defined.

(** *** components/AccountScreen.tsx *)

Lemma updateUserProfile_cases (uid : string) (data : User.partial) (w : World.t) :
  let r := fst (userService.updateUserProfile uid data w) in
  let w' := snd (userService.updateUserProfile uid data w) in
  World.gallery w' = World.gallery w
  /\ World.storage w' = World.storage w
  /\ (World.users w' = World.users w
      \/ exists doc,
           World.users w !! uid = Some doc
           /\ World.users w' = <[uid := User.update doc data]> (World.users w))
  /\ (World.outages w = [] ->
      match World.users w !! uid with
      | Some doc =>
          r = Returns (Some (profileOf (User.update doc data)))
          /\ World.users w' = <[uid := User.update doc data]> (World.users w)
      | None => exists e, r = Throws e
      end).
Proof.
  unfold userService.updateUserProfile, userService.getUserProfile, World.remote.
  unfold_async.
  destruct (World.outages w) as [| [|] rest] eqn:Hout; cbn; rewrite ?Hout; cbn.
  - destruct (World.users w !! uid) as [doc |] eqn:Hdoc; cbn; rewrite ?Hout; cbn.
    + rewrite lookup_insert_eq. cbn. repeat split; eauto.
    + repeat split; eauto.
  - repeat split; auto. discriminate.
  - destruct (World.users w !! uid) as [doc |] eqn:Hdoc; cbn.
    + destruct rest as [| [|] rest']; cbn; rewrite ?lookup_insert_eq; cbn;
        repeat split; eauto; discriminate.
    + repeat split; auto. discriminate.
Qed.

(** A profile update that names no balance and no history leaves the ledger
    alone. *)
Lemma handleUpdateUser_run (data : User.partial) (s : Session.t) :
  User.p_credits data = None ->
  User.p_creditHistory data = None ->
  let s' := Async.exec (App.handleUpdateUser data) s in
  (forall uid,
     User.credits <$> World.users (Session.world s') !! uid
     = User.credits <$> World.users (Session.world s) !! uid
     /\ User.creditHistory <$> World.users (Session.world s') !! uid
        = User.creditHistory <$> World.users (Session.world s) !! uid)
  /\ World.gallery (Session.world s') = World.gallery (Session.world s)
  /\ place (Session.app s') = place (Session.app s)
  /\ forall u doc,
       AppState.currentUser (Session.app s) = Some u ->
       World.users (Session.world s) !! User.uid u = Some doc ->
       reliable s ->
       World.users (Session.world s') !! User.uid u = Some (User.update doc data)
       /\ AppState.currentUser (Session.app s') = Some (profileOf (User.update doc data)).
Proof.
  intros Hc Hh s'. subst s'.
  unfold Async.exec, App.handleUpdateUser. unfold_async. cbv beta iota.
  destruct (AppState.currentUser (Session.app s)) as [cu |] eqn:Hcu.
  2: { cbn. repeat split. all: intros; discriminate. }
  unfold Session.call.
  pose proof (updateUserProfile_cases (User.uid cu) data (Session.world s))
    as (Hg & _ & Husers & Hrel). cbv zeta in Hg, Husers, Hrel.
  assert (Hledger : forall w',
             (World.users w' = World.users (Session.world s)
              \/ exists doc,
                   World.users (Session.world s) !! User.uid cu = Some doc
                   /\ World.users w'
                      = <[User.uid cu := User.update doc data]>
                          (World.users (Session.world s))) ->
             forall uid,
               User.credits <$> World.users w' !! uid
               = User.credits <$> World.users (Session.world s) !! uid
               /\ User.creditHistory <$> World.users w' !! uid
                  = User.creditHistory <$> World.users (Session.world s) !! uid).
  { intros w' [-> | (doc & Hdoc & ->)] uid; [split; reflexivity |].
    destruct (decide (uid = User.uid cu)) as [-> | Hne].
    - rewrite lookup_insert_eq, Hdoc. unfold User.update. rewrite Hc, Hh. split; reflexivity.
    - rewrite lookup_insert_ne by congruence. split; reflexivity. }
  destruct (userService.updateUserProfile (User.uid cu) data (Session.world s))
    as [[[profile |] | e] w'] eqn:Hcall; cbn [fst snd] in *.
  - split; [exact (Hledger w' Husers) |]. split; [exact Hg |]. split; [reflexivity |].
    intros u doc [= <-] Hdoc Hreliable. specialize (Hrel Hreliable). rewrite Hdoc in Hrel.
    destruct Hrel as [[= ->] Hw]. cbn. rewrite Hw, lookup_insert_eq. split; reflexivity.
  - split; [exact (Hledger w' Husers) |]. split; [exact Hg |]. split; [reflexivity |].
    intros u doc [= <-] Hdoc Hreliable. specialize (Hrel Hreliable). rewrite Hdoc in Hrel.
    destruct Hrel as [[=] _].
  - split; [exact (Hledger w' Husers) |]. split; [exact Hg |]. split; [reflexivity |].
    intros u doc [= <-] Hdoc Hreliable. specialize (Hrel Hreliable). rewrite Hdoc in Hrel.
    destruct Hrel as [[=] _].
Qed.

(** X24.  The profile form.  Saving it never touches the ledger: for every
    identity the stored balance and credit history are as before, as are the
    gallery and the edit history.  With an empty field or with nothing changed
    it reports an error and the session is as before.  Otherwise it reports
    success without waiting for the store, so the report does not depend on
    what the store does.  With the store available and the profile stored,
    the stored name and e-mail are those of the form and everything else of
    the profile is kept. *)
Theorem profile_edit (user : User.t) (f : AccountScreen.t) (s : Session.t) :
  let f' := fst (AccountScreen.handleProfileUpdate user f s) in
  let s' := snd (AccountScreen.handleProfileUpdate user f s) in
  let changed :=
    AccountScreen.name f <> "" /\ AccountScreen.email f <> ""
    /\ (AccountScreen.name f <> User.name user \/ AccountScreen.email f <> User.email user) in
  (forall uid,
     User.credits <$> World.users (Session.world s') !! uid
     = User.credits <$> World.users (Session.world s) !! uid
     /\ User.creditHistory <$> World.users (Session.world s') !! uid
        = User.creditHistory <$> World.users (Session.world s) !! uid)
  /\ World.gallery (Session.world s') = World.gallery (Session.world s)
  /\ place (Session.app s') = place (Session.app s)
  /\ (forall text, AccountScreen.message f' = Some (AccountScreen.error text) -> s' = s)
  /\ (AccountScreen.message f' = Some (AccountScreen.success "Profile updated successfully!")
      <-> changed)
  /\ (changed ->
      forall u doc,
        AppState.currentUser (Session.app s) = Some u ->
        World.users (Session.world s) !! User.uid u = Some doc ->
        reliable s ->
        World.users (Session.world s') !! User.uid u
        = Some (User.mk (User.uid doc) (AccountScreen.name f) (AccountScreen.email f)
                  (User.credits doc) (User.creditHistory doc))
        /\ AppState.currentUser (Session.app s')
           = Some (User.mk (User.uid doc) (AccountScreen.name f) (AccountScreen.email f)
                     (User.credits doc)
                     (userService.sortNewestFirst (User.creditHistory doc)))).
Proof.
  intros f' s' changed. subst f' s' changed. unfold AccountScreen.handleProfileUpdate.
  assert (Hsame : forall m : option AccountScreen.Message,
             (forall text, m <> Some (AccountScreen.success text)) ->
             ~ (AccountScreen.name f <> "" /\ AccountScreen.email f <> ""
                /\ (AccountScreen.name f <> User.name user
                    \/ AccountScreen.email f <> User.email user)) ->
             let f' := AccountScreen.mk (AccountScreen.name f) (AccountScreen.email f) m in
             (forall uid,
                User.credits <$> World.users (Session.world s) !! uid
                = User.credits <$> World.users (Session.world s) !! uid
                /\ User.creditHistory <$> World.users (Session.world s) !! uid
                   = User.creditHistory <$> World.users (Session.world s) !! uid)
             /\ World.gallery (Session.world s) = World.gallery (Session.world s)
             /\ place (Session.app s) = place (Session.app s)
             /\ (forall text, AccountScreen.message f' = Some (AccountScreen.error text) ->
                 s = s)
             /\ (AccountScreen.message f'
                 = Some (AccountScreen.success "Profile updated successfully!")
                 <-> AccountScreen.name f <> "" /\ AccountScreen.email f <> ""
                     /\ (AccountScreen.name f <> User.name user
                         \/ AccountScreen.email f <> User.email user))
             /\ (AccountScreen.name f <> "" /\ AccountScreen.email f <> ""
                 /\ (AccountScreen.name f <> User.name user
                     \/ AccountScreen.email f <> User.email user) ->
                 forall u doc,
                   AppState.currentUser (Session.app s) = Some u ->
                   World.users (Session.world s) !! User.uid u = Some doc ->
                   reliable s ->
                   World.users (Session.world s) !! User.uid u
                   = Some (User.mk (User.uid doc) (AccountScreen.name f)
                             (AccountScreen.email f) (User.credits doc)
                             (User.creditHistory doc))
                   /\ AppState.currentUser (Session.app s)
                      = Some (User.mk (User.uid doc) (AccountScreen.name f)
                                (AccountScreen.email f) (User.credits doc)
                                (userService.sortNewestFirst (User.creditHistory doc))))).
  { intros m Hm Hnot f'. subst f'. cbn [AccountScreen.message].
    split; [intros uid; split; reflexivity |]. split; [reflexivity |].
    split; [reflexivity |]. split; [reflexivity |].
    split; [split; [intros H; exfalso; exact (Hm _ H) | intros H; contradiction] |].
    intros H. contradiction. }
  destruct (Js.truthy (AccountScreen.name f)) eqn:Hname; cbn [negb orb].
  2: { apply Hsame; [discriminate |]. intros (H & _).
       apply Gateway.truthy_spec in H. congruence. }
  destruct (Js.truthy (AccountScreen.email f)) eqn:Hemail; cbn [negb orb].
  2: { apply Hsame; [discriminate |]. intros (_ & H & _).
       apply Gateway.truthy_spec in H. congruence. }
  destruct (String.eqb_spec (AccountScreen.name f) (User.name user)) as [Hn | Hn];
    [destruct (String.eqb_spec (AccountScreen.email f) (User.email user)) as [He | He] |];
    cbn [andb].
  { apply Hsame; [discriminate |]. intros (_ & _ & [H | H]); contradiction. }
  all: cbn [fst snd AccountScreen.message].
  all: apply Gateway.truthy_spec in Hname, Hemail.
  all: destruct (handleUpdateUser_run
                   (User.mkPartial None (Some (AccountScreen.name f))
                      (Some (AccountScreen.email f)) None None) s eq_refl eq_refl)
         as (Hledger & Hgallery & Hplace & Hstored).
  all: split; [exact Hledger |]; split; [exact Hgallery |]; split; [exact Hplace |].
  all: split; [intros text [=] |].
  all: split; [split; [intros _; tauto | reflexivity] |].
  all: intros _ u doc Hu Hdoc Hrel; exact (Hstored u doc Hu Hdoc Hrel).
Qed.

(** *** components/AuthScreen.tsx *)

(** X25.  The sign-up form writes at most the profile of the account just
    created.  A stored profile differs afterwards only if the form was valid
    (all fields filled, both passwords equal and of six characters or more,
    terms accepted), the account was created and the verification mail sent;
    it is then the sign-up profile of that account under the name of the
    form.  The form ends with exactly one of an error and a message; with the
    message it has switched to log-in with its fields cleared, and the profile
    is stored.  Gallery and blobs are untouched. *)
Theorem sign_up_writes (created : AuthScreen.UserCredential + AuthScreen.FirebaseError)
        (verificationSent : unit + AuthScreen.FirebaseError)
        (f : AuthScreen.t) (w : World.t) :
  let f' := fst (AuthScreen.signUp created verificationSent f w) in
  let w' := snd (AuthScreen.signUp created verificationSent f w) in
  let valid :=
    AuthScreen.name f <> "" /\ AuthScreen.email f <> "" /\ AuthScreen.password f <> ""
    /\ AuthScreen.password f = AuthScreen.confirmPassword f
    /\ (6 <= String.length (AuthScreen.password f))%nat
    /\ AuthScreen.termsAccepted f = true in
  World.gallery w' = World.gallery w
  /\ World.storage w' = World.storage w
  /\ (forall uid,
        World.users w' !! uid <> World.users w !! uid ->
        valid
        /\ exists credential,
             created = inl credential
             /\ verificationSent = inl tt
             /\ uid = userService.auth_uid (AuthScreen.user credential)
             /\ World.users w' !! uid
                = Some (userService.newUser (AuthScreen.user credential)
                          (AuthScreen.name f) (World.now w)))
  /\ (is_Some (AuthScreen.error f') <-> AuthScreen.message f' = None)
  /\ (is_Some (AuthScreen.message f') ->
      valid
      /\ AuthScreen.authMode f' = AuthScreen.login
      /\ AuthScreen.isLoading f' = false
      /\ AuthScreen.password f' = "" /\ AuthScreen.confirmPassword f' = ""
      /\ AuthScreen.termsAccepted f' = false
      /\ exists credential,
           created = inl credential
           /\ World.users w' !! userService.auth_uid (AuthScreen.user credential)
              = Some (userService.newUser (AuthScreen.user credential)
                        (AuthScreen.name f) (World.now w))).
Proof.
  intros f' w' valid. subst f' w' valid. unfold AuthScreen.signUp.
  assert (Hrefused : forall e : string,
             let f' := AuthScreen.mk (AuthScreen.authMode f) (AuthScreen.isLoading f) (Some e)
                         None (AuthScreen.name f) (AuthScreen.email f)
                         (AuthScreen.password f) (AuthScreen.confirmPassword f)
                         (AuthScreen.termsAccepted f) in
             (is_Some (AuthScreen.error f') <-> AuthScreen.message f' = None)
             /\ ~ is_Some (AuthScreen.message f')).
  { intros e. cbn. split; [split; eauto | intros [? [=]]]. }
  assert (Hfailed : forall e : string,
             (is_Some (AuthScreen.error (AuthScreen.failed e f))
              <-> AuthScreen.message (AuthScreen.failed e f) = None)
             /\ ~ is_Some (AuthScreen.message (AuthScreen.failed e f))).
  { intros e. cbn. split; [split; eauto | intros [? [=]]]. }
  destruct (Js.truthy (AuthScreen.name f)) eqn:Hname; cbn [negb orb].
  2: { cbn [fst snd]. destruct (Hrefused "All fields are required.") as [H1 H2].
       repeat split; try tauto; try apply H1; intros; contradiction. }
  destruct (Js.truthy (AuthScreen.email f)) eqn:Hemail; cbn [negb orb].
  2: { cbn [fst snd]. destruct (Hrefused "All fields are required.") as [H1 H2].
       repeat split; try tauto; try apply H1; intros; contradiction. }
  destruct (Js.truthy (AuthScreen.password f)) eqn:Hpassword; cbn [negb orb].
  2: { cbn [fst snd]. destruct (Hrefused "All fields are required.") as [H1 H2].
       repeat split; try tauto; try apply H1; intros; contradiction. }
  destruct (Js.truthy (AuthScreen.confirmPassword f)) eqn:Hconfirm; cbn [negb orb].
  2: { cbn [fst snd]. destruct (Hrefused "All fields are required.") as [H1 H2].
       repeat split; try tauto; try apply H1; intros; contradiction. }
  destruct (String.eqb_spec (AuthScreen.password f) (AuthScreen.confirmPassword f))
    as [Hequal | Hdiffer]; cbn [negb].
  2: { cbn [fst snd]. destruct (Hrefused "Passwords do not match.") as [H1 H2].
       repeat split; try tauto; try apply H1; intros; contradiction. }
  destruct (Nat.ltb_spec (String.length (AuthScreen.password f)) 6) as [Hshort | Hlong].
  { cbn [fst snd].
    destruct (Hrefused "Password must be at least 6 characters long.") as [H1 H2].
    repeat split; try tauto; try apply H1; intros; contradiction. }
  destruct (AuthScreen.termsAccepted f) eqn:Hterms; cbn [negb].
  2: { cbn [fst snd].
       destruct (Hrefused "You must accept the terms and conditions.") as [H1 H2].
       repeat split; try tauto; try apply H1; intros; contradiction. }
  apply Gateway.truthy_spec in Hname, Hemail, Hpassword.
  assert (Hvalid : AuthScreen.name f <> "" /\ AuthScreen.email f <> ""
                   /\ AuthScreen.password f <> ""
                   /\ AuthScreen.password f = AuthScreen.confirmPassword f
                   /\ (6 <= String.length (AuthScreen.password f))%nat
                   /\ true = true) by (repeat split; assumption).
  destruct created as [credential | e]; cbn [fst snd].
  2: { destruct (Hfailed (if AuthScreen.hasCode e "auth/email-already-in-use"
                          then "This email address is already in use. Please try logging in."
                          else AuthScreen.messageOr e
                                 "An unknown error occurred during signup.")) as [H1 H2].
       repeat split; try tauto; try apply H1; intros; contradiction. }
  destruct verificationSent as [[] | e]; cbn [fst snd].
  2: { destruct (Hfailed (if AuthScreen.hasCode e "auth/email-already-in-use"
                          then "This email address is already in use. Please try logging in."
                          else AuthScreen.messageOr e
                                 "An unknown error occurred during signup.")) as [H1 H2].
       repeat split; try tauto; try apply H1; intros; contradiction. }
  unfold userService.createUserProfile, World.remote. unfold_async. cbv beta iota.
  destruct (World.outages w) as [| [|] rest] eqn:Hout; cbn [fst snd].
  - cbn. split; [reflexivity |]. split; [reflexivity |].
    split.
    { intros uid Hne. split; [exact Hvalid |]. exists credential.
      destruct (decide (uid = userService.auth_uid (AuthScreen.user credential)))
        as [-> | Hother].
      - rewrite lookup_insert_eq. auto.
      - rewrite lookup_insert_ne in Hne by congruence. contradiction. }
    split; [split; [intros [? [=]] | discriminate] |].
    intros _. split; [exact Hvalid |]. repeat (split; [reflexivity |]).
    exists credential. rewrite lookup_insert_eq. auto.
  - destruct (Hfailed (AuthScreen.messageOr
                         (AuthScreen.mkError None "set: service unavailable")
                         "An unknown error occurred during signup.")) as [H1 H2].
    cbn. cbn in H1, H2.
    repeat split; try tauto; try apply H1; intros; contradiction.
  - cbn. split; [reflexivity |]. split; [reflexivity |].
    split.
    { intros uid Hne. split; [exact Hvalid |]. exists credential.
      destruct (decide (uid = userService.auth_uid (AuthScreen.user credential)))
        as [-> | Hother].
      - rewrite lookup_insert_eq. auto.
      - rewrite lookup_insert_ne in Hne by congruence. contradiction. }
    split; [split; [intros [? [=]] | discriminate] |].
    intros _. split; [exact Hvalid |]. repeat (split; [reflexivity |]).
    exists credential. rewrite lookup_insert_eq. auto.
Qed.

End Forms.

(** ** What the stores never lose *)

Module Retention.
Import Spec.

Lemma retains_refl (w : World.t) : retains w w.
Proof. unfold retains. repeat split; auto. Qed.

Lemma retains_trans (w0 w1 w2 : World.t) : retains w0 w1 -> retains w1 w2 -> retains w0 w2.
Proof.
  unfold retains. intros (Hu & Hg & Hs & Hn & Hd) (Hu' & Hg' & Hs' & Hn' & Hd').
  repeat split; try congruence; auto.
  - intros H. apply Hu, Hu', H.
  - intros H. apply Hu', Hu, H.
Qed.

Lemma retains_eq (w w' : World.t) :
  World.users w' = World.users w -> World.gallery w' = World.gallery w ->
  World.storage w' = World.storage w -> World.now w' = World.now w ->
  World.downloadURL w' = World.downloadURL w ->
  retains w w'.
Proof. unfold retains. intros -> -> -> -> ->. repeat split; auto. Qed.

Lemma retains_user (w w' : World.t) (uid : string) (doc doc' : User.t) :
  World.users w !! uid = Some doc ->
  World.users w' = <[uid := doc']> (World.users w) ->
  World.gallery w' = World.gallery w ->
  World.storage w' = World.storage w -> World.now w' = World.now w ->
  World.downloadURL w' = World.downloadURL w ->
  retains w w'.
Proof.
  unfold retains. intros Hdoc -> -> -> -> ->. repeat split; auto.
  - destruct (decide (uid0 = uid)) as [-> | Hne].
    + rewrite Hdoc. eauto.
    + rewrite lookup_insert_ne by congruence. auto.
  - destruct (decide (uid0 = uid)) as [-> | Hne].
    + rewrite lookup_insert_eq. eauto.
    + rewrite lookup_insert_ne by congruence. auto.
Qed.

Lemma retains_document (w w' : World.t) (key : string * string) (doc : GalleryDoc.t) :
  World.users w' = World.users w ->
  World.gallery w' = <[key := doc]> (World.gallery w) ->
  World.storage w' = World.storage w -> World.now w' = World.now w ->
  World.downloadURL w' = World.downloadURL w ->
  retains w w'.
Proof.
  unfold retains. intros -> -> -> -> ->. repeat split; auto.
  intros key' H. destruct (decide (key' = key)) as [-> | Hne].
  - rewrite lookup_insert_eq. eauto.
  - rewrite lookup_insert_ne by congruence. exact H.
Qed.

Lemma retains_blob (w w' : World.t) (path : string) (file : File.t) :
  World.users w' = World.users w ->
  World.gallery w' = World.gallery w ->
  World.storage w' = <[path := file]> (World.storage w) -> World.now w' = World.now w ->
  World.downloadURL w' = World.downloadURL w ->
  retains w w'.
Proof.
  unfold retains. intros -> -> -> -> ->. repeat split; auto.
  intros path' H. destruct (decide (path' = path)) as [-> | Hne].
  - rewrite lookup_insert_eq. eauto.
  - rewrite lookup_insert_ne by congruence. exact H.
Qed.

(** Runs a service through every outage script. *)
Ltac outages w :=
  unfold World.remote; unfold_async; cbv beta iota;
  repeat match goal with
         | |- context [World.outages w] =>
             let rest := fresh "rest" in
             let Hout := fresh "Hout" in
             destruct (World.outages w) as [| [|] rest] eqn:Hout; cbn
         | |- context [match ?rest with [] => _ | _ :: _ => _ end] =>
             is_var rest; destruct rest as [| [|] rest]; cbn
         end.

Lemma getUserProfile_retains (uid : string) (w : World.t) :
  retains w (snd (userService.getUserProfile uid w)).
Proof.
  unfold userService.getUserProfile. outages w.
  all: destruct (World.users w !! uid); cbn; apply retains_eq; reflexivity.
Qed.

Lemma getGalleryImages_retains (uid : string) (w : World.t) :
  retains w (snd (userService.getGalleryImages uid w)).
Proof.
  unfold userService.getGalleryImages. outages w.
  all: apply retains_eq; reflexivity.
Qed.

Lemma updateUserCredits_retains (uid : string) (amount : Z) (reason : string) (w : World.t) :
  retains w (snd (userService.updateUserCredits uid amount reason w)).
Proof.
  pose proof (LedgerClient.updateUserCredits_cases uid amount reason w) as H.
  pose proof (Gallery.credits_keep_gallery uid amount reason w) as Hg.
  assert (Hrest : World.storage (snd (userService.updateUserCredits uid amount reason w))
                  = World.storage w
                  /\ World.now (snd (userService.updateUserCredits uid amount reason w))
                     = World.now w
                  /\ World.downloadURL (snd (userService.updateUserCredits uid amount reason w))
                     = World.downloadURL w).
  { assert (Hk : keeps (fun w => (World.storage w, World.now w, World.downloadURL w))
                       (userService.updateUserCredits uid amount reason)).
    { unfold userService.updateUserCredits, userService.getUserProfile. world_frame. }
    specialize (Hk w). cbv beta in Hk. injection Hk as -> -> ->. auto. }
  destruct Hrest as (Hs & Hn & Hd). cbv zeta in H.
  destruct (userService.updateUserCredits uid amount reason w) as [[profile | e] w'];
    cbn [fst snd] in *.
  - destruct H as (doc & Hdoc & _ & Hw). eapply retains_user; eauto.
  - destruct H as [Hw | (doc & rest & _ & Hdoc & Hw)].
    + apply retains_eq; auto.
    + eapply retains_user; eauto.
Qed.

Lemma updateUserProfile_retains (uid : string) (data : User.partial) (w : World.t) :
  retains w (snd (userService.updateUserProfile uid data w)).
Proof.
  pose proof (Forms.updateUserProfile_cases uid data w) as (Hg & Hs & Husers & _).
  cbv zeta in Hg, Hs, Husers.
  assert (Hk : keeps (fun w => (World.now w, World.downloadURL w))
                     (userService.updateUserProfile uid data)).
  { unfold userService.updateUserProfile, userService.getUserProfile. world_frame. }
  specialize (Hk w). cbv beta in Hk. injection Hk as Hn Hd.
  destruct Husers as [Hw | (doc & Hdoc & Hw)].
  - apply retains_eq; auto.
  - eapply retains_user; eauto.
Qed.

Lemma uploadImage_retains (uid : string) (file : File.t) (fileName : option string)
      (w : World.t) :
  retains w (snd (userService.uploadImage uid file fileName w)).
Proof.
  unfold userService.uploadImage. outages w.
  all: first [ apply retains_eq; reflexivity
             | eapply retains_blob; reflexivity ].
Qed.

Lemma addImageToGallery_retains (uid : string) (imageData : GalleryDoc.t) (docId : string)
      (w : World.t) :
  retains w (snd (userService.addImageToGallery uid imageData docId w)).
Proof.
  unfold userService.addImageToGallery. outages w.
  all: first [ apply retains_eq; reflexivity
             | eapply retains_document; reflexivity ].
Qed.

Lemma updateGalleryImage_retains (uid imageId : string) (data : GalleryDoc.partial)
      (w : World.t) :
  retains w (snd (userService.updateGalleryImage uid imageId data w)).
Proof.
  unfold userService.updateGalleryImage. outages w.
  all: destruct (World.gallery w !! (uid, imageId)) as [doc |] eqn:Hdoc; cbn;
    rewrite ?Hout; cbn.
  all: repeat match goal with
              | |- context [match ?rest with [] => _ | _ :: _ => _ end] =>
                  is_var rest; destruct rest as [| [|] rest]; cbn
              end.
  all: rewrite ?lookup_insert_eq; cbn.
  all: first [ apply retains_eq; reflexivity
             | eapply retains_document; reflexivity ].
Qed.

(** *** From the services to the handlers *)

Lemma call_retains {A : Type} (m : Async World.t A) (w0 : World.t) :
  (forall w, retains w (snd (m w))) ->
  invariant (fun s => retains w0 (Session.world s)) (Session.call m).
Proof.
  intros H s Hs. unfold Session.call. specialize (H (Session.world s)).
  destruct (m (Session.world s)) as [r w']. cbn in *.
  exact (retains_trans _ _ _ Hs H).
Qed.

Lemma world_kept_retains {A : Type} (m : Async Session.t A) (w0 : World.t) :
  keeps Session.world m -> invariant (fun s => retains w0 (Session.world s)) m.
Proof. intros Hk s Hs. rewrite Hk. exact Hs. Qed.

Create HintDb retain.

#[global] Hint Resolve getUserProfile_retains getGalleryImages_retains
  updateUserCredits_retains updateUserProfile_retains uploadImage_retains
  addImageToGallery_retains updateGalleryImage_retains : retain.

(** Walks a handler along its binds and branches. *)
Ltac retain :=
  repeat first
    [ apply world_kept_retains; solve [frame]
    | apply call_retains; solve [auto with retain]
    | apply Invariants.invariant_bind; [| intros ?]
    | apply Invariants.invariant_try_catch; [| intros ?]
    | apply Invariants.invariant_finally
    | match goal with
      | |- invariant _ (match ?x with _ => _ end) => destruct x
      | |- invariant _ (if ?b then _ else _) => destruct b
      end ].

Lemma handle_retains (e : Event) (w0 : World.t) :
  invariant (fun s => retains w0 (Session.world s)) (handle e).
Proof.
  destruct e; cbn [handle].
  - unfold App.handleFileSelect, App.handleImageUpload. retain.
  - unfold App.handleGenerate, App.handleGenericEdit, App.handleDeductCredits,
      App.addImageToHistory, App.uidOf. retain.
  - unfold App.handleApplyFilter, App.handleGenericEdit, App.handleDeductCredits,
      App.addImageToHistory, App.uidOf. retain.
  - unfold App.handleApplyAdjustment, App.handleGenericEdit, App.handleDeductCredits,
      App.addImageToHistory, App.uidOf. retain.
  - unfold App.handleApplyCrop, App.addImageToHistory. retain.
  - unfold App.handleUndo. retain.
  - unfold App.handleRedo. retain.
  - unfold App.handleReset. retain.
  - unfold App.handleGoHome. retain.
  - unfold App.dismissError. retain.
  - unfold App.handleUpdateUser. retain.
  - unfold App.handlePurchaseCredits. retain.
  - unfold ImageGenerator.handlePresetClick. retain.
  - unfold ImageGenerator.handleGenerate, App.handleImageGenerated,
      App.handleDeductCredits. retain.
  - unfold App.handleUpscaleImage, App.handleDeductCredits. retain.
Qed.

Lemma dispatch_retains (e : ShellEvent) (w0 : World.t) :
  invariant (fun sh => retains w0 (Session.world (Shell.session sh))) (dispatch e).
Proof.
  assert (Hauth : forall user,
             invariant (fun sh => retains w0 (Session.world (Shell.session sh)))
                       (App.onAuthStateChanged user)).
  { intros user. unfold App.onAuthStateChanged, App.setAuthUser, App.setAuthLoading.
    repeat first
      [ apply Invariants.invariant_bind; [| intros ?]
      | apply (Invariants.invariant_lift (fun s => retains w0 (Session.world s))); retain
      | apply (Invariants.invariant_of_keeps _ (fun sh => Session.world (Shell.session sh)));
        [ intros ? ? Heq; rewrite Heq; trivial
        | first [ apply Frame.keeps_modify; intros ?; reflexivity | apply Frame.keeps_ret ] ]
      | match goal with
        | |- invariant _ (match ?x with _ => _ end) => destruct x
        | |- invariant _ (if ?b then _ else _) => destruct b
        end ]. }
  destruct e as [user | [[] | e] | e]; cbn [dispatch App.handleLogout].
  - apply Hauth.
  - apply Hauth.
  - apply (Invariants.invariant_lift (fun s => retains w0 (Session.world s))). retain.
  - apply (Invariants.invariant_lift (fun s => retains w0 (Session.world s))).
    apply handle_retains.
Qed.

(** X26.  No event loses what is stored.  After any run of events, whatever
    the model, the payloads and the stores answer: the identities that have a
    stored profile are the same, every gallery document and every blob that
    was stored still is, and the clock and the references of the blob store
    are untouched.  Profiles are neither created nor deleted once the user is
    in the application; gallery documents and blobs are only added or
    rewritten. *)
Theorem stores_retained (events : list ShellEvent) (sh : Shell.t) :
  retains (Session.world (Shell.session sh))
          (Session.world (Shell.session (run events sh))).
Proof.
  assert (H : forall w0 sh,
             retains w0 (Session.world (Shell.session sh)) ->
             retains w0 (Session.world (Shell.session (run events sh)))).
  { intros w0. induction events as [| e events IH]; intros sh0 H0; [exact H0 |].
    cbn. apply IH. apply (dispatch_retains e w0 sh0 H0). }
  apply H, retains_refl.
Qed.

End Retention.

(** ** Saving a generated image *)

Module Saving.
Import Spec.

Lemma dataURLtoFile_name (dataurl filename : string) (file : File.t) :
  App.dataURLtoFile dataurl filename = Returns file -> File.name file = filename.
Proof.
  unfold App.dataURLtoFile.
  destruct (length (Js.split "," dataurl) <? 2)%nat; [discriminate |].
  destruct (Js.match_colon_semicolon _) as [mime |]; [| discriminate].
  destruct (negb (Js.truthy mime)); [discriminate |].
  destruct (Js.atob _) as [bstr |]; [| discriminate].
  intros [= <-]. reflexivity.
Qed.

(** The run of [handleImageGenerated] with the stores available. *)
Lemma handleImageGenerated_reliable (imageDataUrl generationPrompt docId : string)
      (s : Session.t) (u : User.t) (file : File.t) :
  AppState.currentUser (Session.app s) = Some u ->
  reliable s ->
  let w := Session.world s in
  let name := "generated-" ++ Js.showZ (World.now w) ++ ".jpeg" in
  let path := "users/" ++ User.uid u ++ "/generated/" ++ name in
  let entry := GeneratedImage.mk docId (World.downloadURL w path) generationPrompt false
                 (World.now w) in
  App.dataURLtoFile imageDataUrl name = Returns file ->
  exists s',
    App.handleImageGenerated imageDataUrl generationPrompt docId s = (Returns tt, s')
    /\ AppState.allGeneratedImages (Session.app s')
       = entry :: AppState.allGeneratedImages (Session.app s)
    /\ AppState.appMode (Session.app s') = AppMode.gallery
    /\ AppState.isLoading (Session.app s') = false
    /\ AppState.error (Session.app s') = AppState.error (Session.app s)
    /\ AppState.currentUser (Session.app s') = Some u
    /\ place (Session.app s') = place (Session.app s)
    /\ World.users (Session.world s') = World.users w
    /\ World.gallery (Session.world s')
       = <[(User.uid u, docId) := GalleryDoc.of_image entry]> (World.gallery w)
    /\ World.storage (Session.world s') = <[path := file]> (World.storage w)
    /\ World.downloadURL (Session.world s') = World.downloadURL w
    /\ World.now (Session.world s') = World.now w
    /\ reliable s'.
Proof.
  intros Hu Hrel w name path entry Hfile. subst w name path entry.
  pose proof (dataURLtoFile_name _ _ _ Hfile) as Hname.
  unfold App.handleImageGenerated. unfold_async. cbv beta iota. rewrite Hu.
  unfold_setters. unfold_async. cbv beta iota.
  cbn [Session.world Session.with_app]. rewrite Hfile. cbv beta iota.
  unfold Session.call, userService.uploadImage, userService.addImageToGallery,
    userService.orName.
  unfold_async. cbn [Session.world Session.app Session.form].
  rewrite Hname.
  rewrite (Ledger.remote_reliable _ _ Hrel). cbv beta iota.
  rewrite Ledger.remote_reliable by exact Hrel. cbv beta iota.
  cbn [Session.world Session.app Session.form].
  rewrite Ledger.remote_reliable by exact Hrel. cbv beta iota.
  eexists. split; [reflexivity |].
  cbn. rewrite Hu. repeat split. exact Hrel.
Qed.

(** X27.  Saving a generated image, with a profile held and the stores
    available.  When the payload converts, the bytes are stored under the
    path of the user with the name made of the time, a gallery document with
    the reference of that blob, the prompt, the flag off and the time is
    stored under the given id, the entry is put in front of the entries in
    memory as it is stored, and the application goes to the gallery.  When the
    payload does not convert, nothing is stored and the error is recorded.
    The profiles and the edit history are untouched and the handler returns
    with the loading flag off. *)
Theorem image_saved (imageDataUrl generationPrompt docId : string)
        (s : Session.t) (u : User.t) :
  AppState.currentUser (Session.app s) = Some u ->
  reliable s ->
  let m := App.handleImageGenerated imageDataUrl generationPrompt docId in
  let s' := Async.exec m s in
  let w := Session.world s in
  let name := "generated-" ++ Js.showZ (World.now w) ++ ".jpeg" in
  let path := "users/" ++ User.uid u ++ "/generated/" ++ name in
  Async.result m s = Returns tt
  /\ AppState.isLoading (Session.app s') = false
  /\ World.users (Session.world s') = World.users w
  /\ place (Session.app s') = place (Session.app s)
  /\ match App.dataURLtoFile imageDataUrl name with
     | Returns file =>
         let entry := GeneratedImage.mk docId (World.downloadURL w path) generationPrompt
                        false (World.now w) in
         AppState.allGeneratedImages (Session.app s')
         = entry :: AppState.allGeneratedImages (Session.app s)
         /\ stored (User.uid u) entry s'
         /\ World.storage (Session.world s') !! path = Some file
         /\ AppState.appMode (Session.app s') = AppMode.gallery
     | Throws e =>
         Session.world s' = w
         /\ AppState.error (Session.app s')
            = Some ("Failed to save generated image. " ++ e)
         /\ AppState.allGeneratedImages (Session.app s')
            = AppState.allGeneratedImages (Session.app s)
         /\ AppState.appMode (Session.app s') = AppState.appMode (Session.app s)
     end.
Proof.
  intros Hu Hrel m s' w name path. subst m s' w name path.
  destruct (App.dataURLtoFile imageDataUrl
              ("generated-" ++ Js.showZ (World.now (Session.world s)) ++ ".jpeg"))
    as [file | e] eqn:Hfile.
  - destruct (handleImageGenerated_reliable imageDataUrl generationPrompt docId s u file
                Hu Hrel Hfile)
      as (s' & Hrun & Hall & Hmode & Hload & _ & _ & Hplace & Husers & Hg & Hst & _).
    unfold Async.result, Async.exec. rewrite Hrun. cbn [fst snd].
    split; [reflexivity |]. split; [exact Hload |]. split; [exact Husers |].
    split; [exact Hplace |]. cbv zeta.
    split; [exact Hall |].
    split; [unfold stored; rewrite Hg; apply lookup_insert_eq |].
    split; [rewrite Hst; apply lookup_insert_eq | exact Hmode].
  - unfold Async.result, Async.exec, App.handleImageGenerated. unfold_async.
    cbv beta iota. rewrite Hu. unfold_setters. unfold_async. cbv beta iota.
    cbn [Session.world Session.with_app]. rewrite Hfile. cbn. repeat split.
Qed.

Lemma image_saved_witness :
  let s := Scenario.editing 10 [Scenario.original] 0 in
  AppState.appMode
    (Session.app
       (Async.exec (App.handleImageGenerated "data:image/jpeg;base64,aGVsbG8=" "a dog" "g2") s))
  = AppMode.gallery.
Proof.
  intros s.
  pose proof (image_saved "data:image/jpeg;base64,aGVsbG8=" "a dog" "g2" s
                (Scenario.alice 10) eq_refl eq_refl) as H.
  cbv zeta in H. destruct H as (_ & _ & _ & _ & H).
  replace (App.dataURLtoFile "data:image/jpeg;base64,aGVsbG8="
             ("generated-" ++ Js.showZ (World.now (Session.world s)) ++ ".jpeg"))
    with (@Returns File.t
            (File.mk (bytesOf "hello") "generated-1000.jpeg" "image/jpeg")) in H
    by (vm_compute; reflexivity).
  exact (proj2 (proj2 (proj2 H))).
Defined.

(** X28.  An image saved by the application cannot be upscaled when the
    reference that the blob store hands out for it has no comma, as a web
    address has none: the gateway reads the reference of the entry as a data
    URL.  With the balance covering the cost and the stores available, the
    upscale of the saved entry fails before any model call, whatever the model
    would answer: the original entry comes back, the error is recorded, the
    credit is taken and given back, and the gallery is as it was. *)
Theorem saved_entry_upscale (imageDataUrl generationPrompt docId : string)
        (reply : outcome geminiService.GenerateContentResponse)
        (s : Session.t) (u doc : User.t) (file : File.t) :
  AppState.currentUser (Session.app s) = Some u ->
  World.users (Session.world s) !! User.uid u = Some doc ->
  1 <= User.credits u ->
  reliable s ->
  App.dataURLtoFile imageDataUrl
    ("generated-" ++ Js.showZ (World.now (Session.world s)) ++ ".jpeg") = Returns file ->
  ~ hasComma
      (World.downloadURL (Session.world s)
         ("users/" ++ User.uid u ++ "/generated/" ++ "generated-"
            ++ Js.showZ (World.now (Session.world s)) ++ ".jpeg")) ->
  let s1 := Async.exec (App.handleImageGenerated imageDataUrl generationPrompt docId) s in
  exists entry,
    AppState.allGeneratedImages (Session.app s1)
    = entry :: AppState.allGeneratedImages (Session.app s)
    /\ stored (User.uid u) entry s1
    /\ let s2 := Async.exec (App.handleUpscaleImage entry reply) s1 in
       Async.result (App.handleUpscaleImage entry reply) s1 = Returns (Some entry)
       /\ AppState.error (Session.app s2)
          = Some "Failed to upscale image. Invalid data URL"
       /\ ledgerBalance (User.uid u) s2 = Some (User.credits doc)
       /\ World.gallery (Session.world s2) = World.gallery (Session.world s1)
       /\ AppState.allGeneratedImages (Session.app s2)
          = AppState.allGeneratedImages (Session.app s1).
Proof.
  intros Hu Hdoc Hle Hrel Hfile Hurl s1. subst s1.
  destruct (handleImageGenerated_reliable imageDataUrl generationPrompt docId s u file
              Hu Hrel Hfile)
    as (s1 & Hrun & Hall & _ & _ & _ & Hu1 & _ & Husers & Hg & _ & _ & _ & Hrel1).
  assert (Hs1 : Async.exec (App.handleImageGenerated imageDataUrl generationPrompt docId) s
                = s1) by (unfold Async.exec; rewrite Hrun; reflexivity).
  cbv zeta. rewrite !Hs1.
  eexists. split; [exact Hall |].
  split; [unfold stored; rewrite Hg; apply lookup_insert_eq |].
  assert (Hdoc1 : World.users (Session.world s1) !! User.uid u = Some doc)
    by (rewrite Husers; exact Hdoc).
  match goal with
  | |- Async.result (App.handleUpscaleImage ?entry reply) s1 = _ /\ _ =>
      destruct (Ledger.upscale_refunded entry reply s1 u doc Hu1 Hdoc1 Hle Hrel1
                  "Invalid data URL"
                  (Gallery.upscale_needs_data_url entry reply Hurl))
        as (s2 & Hup & Hstored & _ & Hgallery & Hentries & Herror)
  end.
  unfold Async.result, Async.exec. rewrite Hup. cbn [fst snd].
  split; [reflexivity |]. split; [exact Herror |].
  split; [| split; assumption].
  unfold ledgerBalance. rewrite Hstored. cbn. f_equal. lia.
Qed.

Lemma saved_entry_upscale_witness :
  let s := Scenario.editing 10 [Scenario.original] 0 in
  let s1 := Async.exec
              (App.handleImageGenerated "data:image/jpeg;base64,aGVsbG8=" "a dog" "g2") s in
  exists entry,
    AppState.allGeneratedImages (Session.app s1)
    = entry :: AppState.allGeneratedImages (Session.app s)
    /\ Async.result (App.handleUpscaleImage entry (Returns Scenario.imageResponse)) s1
       = Returns (Some entry).
Proof.
  intros s s1.
  destruct (saved_entry_upscale "data:image/jpeg;base64,aGVsbG8=" "a dog" "g2"
              (Returns Scenario.imageResponse) s (Scenario.alice 10) (Scenario.alice 10)
              (File.mk (bytesOf "hello") "generated-1000.jpeg" "image/jpeg")
              eq_refl eq_refl ltac:(cbn; lia) eq_refl ltac:(vm_compute; reflexivity)
              ltac:(vm_compute; intros H; repeat (destruct H as [[=] | H]); exact H))
    as (entry & Hall & _ & Hres & _).
  exists entry. split; [exact Hall | exact Hres].
Defined.

End Saving.

(** ** Two corners of the ledger and of the sign-in form *)

Module Corners.
Import Spec.

(** X29.  An adjustment whose record is already in the history unbalances
    the books.  The store adds a transaction to the history only if no equal
    one (same reason, amount and date) is there.  So for a balanced profile,
    with the store available, an adjustment by a non-zero amount that repeats
    a recorded transaction moves the balance and leaves the history as it was:
    the stored profile and the returned one are no longer balanced. *)
Theorem repeated_record_unbalances (uid : string) (amount : Z) (reason : string)
        (w : World.t) (doc : User.t) :
  World.users w !! uid = Some doc ->
  balanced doc ->
  World.outages w = [] ->
  CreditTransaction.mk reason amount (World.now w) ∈ User.creditHistory doc ->
  amount <> 0 ->
  let r := fst (userService.updateUserCredits uid amount reason w) in
  let w' := snd (userService.updateUserCredits uid amount reason w) in
  exists profile doc',
    r = Returns (Some profile)
    /\ World.users w' !! uid = Some doc'
    /\ User.credits doc' = User.credits doc + amount
    /\ User.creditHistory doc' = User.creditHistory doc
    /\ User.credits profile = User.credits doc + amount
    /\ ~ balanced doc' /\ ~ balanced profile.
Proof.
  intros Hdoc Hbal Hout Hin Hne r w'. subst r w'.
  rewrite (Ledger.updateUserCredits_reliable uid amount reason w doc Hout Hdoc).
  cbn [fst snd World.users World.set_users]. rewrite lookup_insert_eq.
  destruct (LedgerClient.adjusted_books amount reason (World.now w) doc) as [Hc Hs].
  cbv zeta in Hc, Hs. rewrite decide_True in Hs by exact Hin.
  assert (Hhist : User.creditHistory (adjusted amount reason (World.now w) doc)
                  = User.creditHistory doc).
  { cbn. unfold userService.arrayUnion. rewrite decide_True by exact Hin. reflexivity. }
  eexists _, _. split; [reflexivity |]. split; [reflexivity |].
  split; [exact Hc |]. split; [exact Hhist |]. split; [exact Hc |].
  unfold balanced in *. split.
  - lia.
  - unfold profileOf. cbn [User.credits User.creditHistory User.with_credits].
    rewrite (LedgerClient.sumAmounts_perm _ _ (LedgerClient.sort_perm _)).
    change (User.credits doc + amount
            <> sumAmounts (User.creditHistory (adjusted amount reason (World.now w) doc))).
    lia.
Qed.

(** The sign-up bonus, granted again in the millisecond of the sign-up. *)
Lemma repeated_record_unbalances_witness :
  let w := World.mk {[ "u1" := Scenario.alice 25 ]} ∅ ∅ (fun path => path) 0 [] in
  exists profile,
    fst (userService.updateUserCredits "u1" 25 "Sign-up bonus" w) = Returns (Some profile)
    /\ User.credits profile = 50
    /\ sumAmounts (User.creditHistory profile) = 25.
Proof.
  intros w.
  destruct (repeated_record_unbalances "u1" 25 "Sign-up bonus" w (Scenario.alice 25)
              eq_refl eq_refl eq_refl ltac:(left) ltac:(discriminate))
    as (profile & doc' & Hr & _ & _ & _ & Hc & _).
  exists profile. split; [exact Hr |]. split; [exact Hc |].
  cbv zeta in Hr. injection Hr as <-. reflexivity.
Defined.

(** X30.  The log-in form.  It ends without an error exactly when both
    fields are filled and the auth service signs in an account whose e-mail is
    verified; an account that is not verified gets an error even though the
    sign-in itself went through.  The form never shows a message, keeps its
    fields and its mode, and a submission in log-in mode leaves the stores
    alone. *)
Theorem log_in_form (signedIn : AuthScreen.UserCredential + AuthScreen.FirebaseError)
        (signedOut : unit + AuthScreen.FirebaseError) (f : AuthScreen.t) (w : World.t) :
  let f' := AuthScreen.logIn signedIn signedOut f in
  (AuthScreen.error f' = None
   <-> AuthScreen.email f <> "" /\ AuthScreen.password f <> ""
       /\ exists credential,
            signedIn = inl credential /\ AuthScreen.emailVerified credential = true)
  /\ AuthScreen.message f' = None
  /\ AuthScreen.authMode f' = AuthScreen.authMode f
  /\ AuthScreen.email f' = AuthScreen.email f
  /\ AuthScreen.password f' = AuthScreen.password f
  /\ (AuthScreen.email f <> "" -> AuthScreen.password f <> "" ->
      AuthScreen.isLoading f' = false)
  /\ (AuthScreen.authMode f = AuthScreen.login ->
      AuthScreen.handleSubmit signedIn signedOut f w = (f', w)).
Proof.
  intros f'. subst f'.
  assert (Hsubmit : AuthScreen.authMode f = AuthScreen.login ->
                    AuthScreen.handleSubmit signedIn signedOut f w
                    = (AuthScreen.logIn signedIn signedOut f, w)).
  { unfold AuthScreen.handleSubmit. intros ->. reflexivity. }
  repeat match goal with |- _ /\ _ => split end; [| | | | | | exact Hsubmit].
  all: clear Hsubmit; unfold AuthScreen.logIn.
  all: destruct (AuthScreen.email f) as [| ce te] eqn:Hemail; cbn [Js.truthy negb orb];
    [cbn; rewrite ?Hemail;
     first [ reflexivity | congruence
           | split; [discriminate | intros (H & _); congruence] ] |].
  all: destruct (AuthScreen.password f) as [| cp tp] eqn:Hpassword;
    cbn [Js.truthy negb orb];
    [cbn; rewrite ?Hemail, ?Hpassword;
     first [ reflexivity | congruence
           | split; [discriminate | intros (_ & H & _); congruence] ] |].
  all: destruct signedIn as [credential | e];
    [destruct (AuthScreen.emailVerified credential) eqn:Hv; cbn [negb];
     [| destruct signedOut as [[] | e]] |].
  all: cbn; rewrite ?Hemail, ?Hpassword.
  all: first
         [ reflexivity
         | intros; reflexivity
         | split; [intros _; repeat split; try discriminate; eauto | reflexivity]
         | split; [discriminate | intros (_ & _ & c & Hc & Hc'); congruence] ].
Qed.

End Corners.
